(** * Ship proxy system: framing codec, serialized sender, ship scheduler,
      offshore dispatcher.

    A shallow embedding of [protocol.js], [ship_proxy.js] and
    [offshore_proxy.js].  Node's event loop is modelled by explicit state
    passing: every callback the runtime may invoke (a socket event, a promise
    continuation, a timer) is an event, and a handler is a function from the
    state before the callback to the state after it, together with the
    observable actions it performed. *)

From Stdlib Require Import List NArith ZArith Lia Bool String Ascii.
From Stdlib Require Import Strings.Byte DecimalString.
Import ListNotations.

Local Open Scope string_scope.
Local Open Scope list_scope.
Local Open Scope Z_scope.

(** ** protocol.js *)

Module Protocol.

(** A Node [Buffer] is a sequence of bytes. *)
Definition Buffer := list byte.

(** A JavaScript argument on which the code calls [Buffer.isBuffer]. *)
Inductive jsarg :=
| IsBuffer (b : Buffer)
| NotBuffer.

(** The exceptions the codec can raise.  [ERR_OUT_OF_RANGE] is the
    [RangeError] thrown by [Buffer.prototype.writeUInt32BE] for a value
    outside [0, 2^32 - 1]. *)
Inductive jserror :=
| TypeError (msg : string)
| RangeError (msg : string)
| ERR_OUT_OF_RANGE.

Definition REQUEST : Z := 0.
Definition RESPONSE : Z := 1.

Definition HEADER_LENGTH : Z := 5.

(** [buf.length] as a JavaScript number. *)
Definition blength (b : Buffer) : Z := Z.of_nat (List.length b).

(** The byte stored when a number in [0, 255] is written to a buffer. *)
Definition byte_of_Z (z : Z) : byte :=
  match Byte.of_N (Z.to_N (z mod 256)) with
  | Some b => b
  | None => x00
  end.

(** The number read back from one byte. *)
Definition Z_of_byte (b : byte) : Z := Z.of_N (Byte.to_N b).

(** [header.writeUInt32BE(value, 0)] on a fresh header: the four bytes it
    stores, most significant first; it throws outside the unsigned 32-bit
    range. *)
Definition writeUInt32BE (value : Z) : jserror + Buffer :=
  if (value <? 0) || (4294967295 <? value) then inl ERR_OUT_OF_RANGE
  else inr [ byte_of_Z (Z.shiftr value 24);
             byte_of_Z (Z.shiftr value 16);
             byte_of_Z (Z.shiftr value 8);
             byte_of_Z value ].

(** [header.writeUInt8(value, 4)]: throws outside [0, 255]. *)
Definition writeUInt8 (value : Z) : jserror + Buffer :=
  if (value <? 0) || (255 <? value) then inl ERR_OUT_OF_RANGE
  else inr [ byte_of_Z value ].

(** [buf.readUInt32BE(0)]; [None] when fewer than four bytes are there (Node
    throws). *)
Definition readUInt32BE (buf : Buffer) : option Z :=
  match buf with
  | b0 :: b1 :: b2 :: b3 :: _ =>
      Some (Z_of_byte b0 * 2 ^ 24 + Z_of_byte b1 * 2 ^ 16
            + Z_of_byte b2 * 2 ^ 8 + Z_of_byte b3)
  | _ => None
  end.

(** [buf.readUInt8(offset)]. *)
Definition readUInt8 (buf : Buffer) (offset : nat) : option Z :=
  option_map Z_of_byte (nth_error buf offset).

(** [buf.subarray(start, end)] and [buf.subarray(start)] for
    [0 <= start <= end]. *)
Definition subarray (buf : Buffer) (start stop : Z) : Buffer :=
  firstn (Z.to_nat (stop - start)) (skipn (Z.to_nat start) buf).

Definition subarray_from (buf : Buffer) (start : Z) : Buffer :=
  skipn (Z.to_nat start) buf.

(** [encodeMessage(messageType, payload)]. *)
Definition encodeMessage (messageType : Z) (payload : jsarg) : jserror + Buffer :=
  match payload with
  | NotBuffer => inl (TypeError "payload must be a Buffer")
  | IsBuffer payload =>
      if negb (messageType =? REQUEST) && negb (messageType =? RESPONSE)
      then inl (RangeError "invalid messageType")
      else
        match writeUInt32BE (blength payload) with
        | inl e => inl e
        | inr len =>
            match writeUInt8 messageType with
            | inl e => inl e
            | inr ty => inr ((len ++ ty) ++ payload)
            end
        end
  end.

(** A decoded message [{ type, payload }]. *)
Record Message := mkMessage { type : Z; payload : Buffer }.

(** The decoder's fields. *)
Record FrameDecoder := mkDecoder { _buffer : Buffer; _closed : bool }.

(** [new FrameDecoder()]. *)
Definition newFrameDecoder : FrameDecoder :=
  {| _buffer := []; _closed := false |}.

(** The [while] loop of [_parseAvailableFrames]: the messages emitted, in
    order, and the buffer left.  Every iteration that emits removes at least
    the five header bytes, so [fuel] bounds the number of iterations. *)
Fixpoint parseLoop (fuel : nat) (buf : Buffer) : list Message * Buffer :=
  match fuel with
  | O => ([], buf)
  | S fuel' =>
      if HEADER_LENGTH <=? blength buf then
        match readUInt32BE buf, readUInt8 buf 4 with
        | Some length, Some type =>
            let total := HEADER_LENGTH + length in
            if blength buf <? total then ([], buf)
            else
              let payload := subarray buf HEADER_LENGTH total in
              let buf' := if blength buf =? total then []
                          else subarray_from buf total in
              let (emitted, rest) := parseLoop fuel' buf' in
              (mkMessage type payload :: emitted, rest)
        | _, _ => ([], buf)
        end
      else ([], buf)
  end.

(** [_parseAvailableFrames()], run on the current buffer. *)
Definition _parseAvailableFrames (buf : Buffer) : list Message * Buffer :=
  parseLoop (S (List.length buf)) buf.

(** [push(chunk)]: the decoder afterwards and the ["message"] events
    emitted, or the exception thrown. *)
Definition push (d : FrameDecoder) (chunk : jsarg)
  : jserror + (FrameDecoder * list Message) :=
  if _closed d then inr (d, [])
  else
    match chunk with
    | NotBuffer => inl (TypeError "chunk must be a Buffer")
    | IsBuffer chunk =>
        let buf := if blength (_buffer d) =? 0 then chunk
                   else _buffer d ++ chunk in
        let (emitted, rest) := _parseAvailableFrames buf in
        inr ({| _buffer := rest; _closed := _closed d |}, emitted)
    end.

(** [close()]. *)
Definition close (d : FrameDecoder) : FrameDecoder :=
  {| _buffer := []; _closed := true |}.

(** Feeding a decoder the chunks of a socket, one ["data"] event after the
    other; the messages of all pushes in emission order. *)
Fixpoint pushAll (d : FrameDecoder) (chunks : list Buffer)
  : jserror + (FrameDecoder * list Message) :=
  match chunks with
  | [] => inr (d, [])
  | c :: chunks' =>
      match push d (IsBuffer c) with
      | inl e => inl e
      | inr (d', ms) =>
          match pushAll d' chunks' with
          | inl e => inl e
          | inr (d'', ms') => inr (d'', ms ++ ms')
          end
      end
  end.

(** The wire format [u32_be(length) u8(type) payload], for any type byte. *)
Definition wire_frame (ty : byte) (payload : Buffer) : Buffer :=
  [ byte_of_Z (Z.shiftr (blength payload) 24);
    byte_of_Z (Z.shiftr (blength payload) 16);
    byte_of_Z (Z.shiftr (blength payload) 8);
    byte_of_Z (blength payload); ty ] ++ payload.

(** [frame] is what [encodeMessage] returns for the message [m]. *)
Definition encodes (m : Message) (frame : Buffer) : Prop :=
  encodeMessage (type m) (IsBuffer (payload m)) = inr frame.

End Protocol.

(** ** protocol.js: [sendMessage] and [MessageSendQueue] *)

Module Sender.

(** An entry of [this.queue]: [{ type, payload, resolve, reject }].  The two
    callbacks settle the promise [enqueue] returned; the model records the
    settlements in [settled]. *)
Record Item := mkItem { type : Z; payload : Protocol.jsarg }.

Inductive Outcome := Resolved | Rejected.

(** The queue object together with the socket it writes to.
    [inFlight] holds the items whose [sendMessage] promise a worker is
    awaiting; [written] holds the argument of every [socket.write] call, in
    call order. *)
Record MessageSendQueue := mkQueue {
  queue : list Item;
  isSending : bool;
  inFlight : list Item;
  written : list Protocol.Buffer;
  settled : list (Item * Outcome)
}.

(** [new MessageSendQueue(socket)] on a socket nothing was written to. *)
Definition newMessageSendQueue : MessageSendQueue :=
  mkQueue [] false [] [] [].

(** The [while] loop of [_dequeueAndSend], from its test up to the next
    [await] or to the [finally].  [sendMessage] encodes before it creates
    its promise: when [encodeMessage] throws, the [catch] rejects the item
    and the loop goes on at once; otherwise the frame is handed to
    [socket.write] in one call and the worker waits. *)
Fixpoint sendLoop (q inFlight : list Item) (written : list Protocol.Buffer)
         (settled : list (Item * Outcome)) : MessageSendQueue :=
  match q with
  | [] => mkQueue [] false inFlight written settled
  | item :: q' =>
      match Protocol.encodeMessage (type item) (payload item) with
      | inl _ => sendLoop q' inFlight written (settled ++ [(item, Rejected)])
      | inr framed =>
          mkQueue q' true (inFlight ++ [item]) (written ++ [framed]) settled
      end
  end.

(** [_dequeueAndSend()]. *)
Definition _dequeueAndSend (s : MessageSendQueue) : MessageSendQueue :=
  if isSending s then s
  else sendLoop (queue s) (inFlight s) (written s) (settled s).

(** [enqueue(type, payload)]. *)
Definition enqueue (s : MessageSendQueue) (t : Z) (p : Protocol.jsarg)
  : MessageSendQueue :=
  let s' := mkQueue (queue s ++ [mkItem t p]) (isSending s) (inFlight s)
                    (written s) (settled s) in
  if negb (isSending s') then _dequeueAndSend s' else s'.

(** The promise of the oldest awaited [sendMessage] settles ([ok]: resolved
    by the write callback or by ["drain"]; otherwise rejected by an error or
    by ["close"]); the worker that awaited it settles the item and goes on
    with its loop. *)
Definition settle (s : MessageSendQueue) (ok : bool) : MessageSendQueue :=
  match inFlight s with
  | [] => s
  | item :: rest =>
      sendLoop (queue s) rest (written s)
               (settled s ++ [(item, if ok then Resolved else Rejected)])
  end.

(** What can happen to a queue: a caller enqueues, or the socket settles the
    write in flight. *)
Inductive Event :=
| Enqueue (t : Z) (p : Protocol.jsarg)
| Settle (ok : bool).

Definition step (s : MessageSendQueue) (e : Event) : MessageSendQueue :=
  match e with
  | Enqueue t p => enqueue s t p
  | Settle ok => settle s ok
  end.

Definition run (events : list Event) : MessageSendQueue :=
  fold_left step events newMessageSendQueue.

(** The items enqueued by a sequence of events, in enqueue order. *)
Fixpoint enqueued (events : list Event) : list Item :=
  match events with
  | [] => []
  | Enqueue t p :: events' => mkItem t p :: enqueued events'
  | Settle _ :: events' => enqueued events'
  end.

(** The frames of the items that encode, one frame per item, in order. *)
Fixpoint frames (items : list Item) : list Protocol.Buffer :=
  match items with
  | [] => []
  | item :: items' =>
      match Protocol.encodeMessage (type item) (payload item) with
      | inl _ => frames items'
      | inr framed => framed :: frames items'
      end
  end.

(** The items among [items] that encode ([sendMessage] reaches the socket). *)
Fixpoint encodable (items : list Item) : list Item :=
  match items with
  | [] => []
  | item :: items' =>
      match Protocol.encodeMessage (type item) (payload item) with
      | inl _ => encodable items'
      | inr _ => item :: encodable items'
      end
  end.

(** The message a receiver should decode for an item that encodes. *)
Definition message_of (item : Item) : Protocol.Message :=
  Protocol.mkMessage (type item)
    match payload item with
    | Protocol.IsBuffer b => b
    | Protocol.NotBuffer => []
    end.

(** What holds of a queue between two callbacks: the worker is suspended on
    exactly one send while [isSending] is set, and nothing is pending while
    it is not. *)
Definition sender_idle_or_one (s : MessageSendQueue) : Prop :=
  (isSending s = false /\ inFlight s = [] /\ queue s = []) \/
  (isSending s = true /\ exists item, inFlight s = [item]).

End Sender.

(** ** JavaScript strings, as the bytes of their UTF-8 form

    A string is kept as the bytes [Buffer.from(text, "utf8")] gives, so that
    call is the identity, and [buf.toString("utf8")] is [Utf8.toString]
    below.  The code searches text only for ASCII separators and compares it
    only with ASCII words, and UTF-8 never uses an ASCII byte inside the
    encoding of another character, so searching and splitting the bytes
    finds what searching and splitting the text finds. *)

Module Text.

Import Protocol.

(** The bytes of an ASCII string literal. *)
Definition ascii_bytes (s : string) : Buffer := list_byte_of_string s.

Definition CRLF : Buffer := [x0d; x0a].

Fixpoint starts_with (prefix text : Buffer) : bool :=
  match prefix, text with
  | [], _ => true
  | _ :: _, [] => false
  | p :: prefix', c :: text' =>
      (Z_of_byte p =? Z_of_byte c) && starts_with prefix' text'
  end.

(** [a === b] on strings. *)
Fixpoint same (a b : Buffer) : bool :=
  match a, b with
  | [], [] => true
  | x :: a', y :: b' => (Z_of_byte x =? Z_of_byte y) && same a' b'
  | _, _ => false
  end.

(** [text.indexOf(sep)]; [None] is [-1]. *)
Fixpoint indexOf (sep text : Buffer) : option nat :=
  if starts_with sep text then Some 0%nat
  else
    match text with
    | [] => None
    | _ :: text' => option_map S (indexOf sep text')
    end.

(** [text.split(sep)] for a separator that is not empty: every piece but
    the last removes the separator after it, so the length of the text
    bounds the number of cuts. *)
Fixpoint split_loop (fuel : nat) (sep text : Buffer) : list Buffer :=
  match indexOf sep text with
  | None => [text]
  | Some i =>
      match fuel with
      | O => [text]
      | S fuel' =>
          firstn i text
            :: split_loop fuel' sep (skipn (i + List.length sep) text)
      end
  end.

Definition split (sep text : Buffer) : list Buffer :=
  split_loop (List.length text) sep text.

(** The decimal digits of a number, as a template literal prints it. *)
Definition decimal (n : nat) : Buffer :=
  ascii_bytes (NilEmpty.string_of_uint (Nat.to_uint n)).

End Text.

(** ** [buf.toString("utf8")]

    [buf.toString("utf8")] decodes as the WHATWG Encoding standard says:
    every maximal part of an ill-formed sequence becomes one U+FFFD, and the
    byte that ended it is read again. *)

Module Utf8.

Import Protocol.

(** U+FFFD in UTF-8. *)
Definition replacement : Buffer := [xef; xbf; xbd].

Definition between (lo hi : Z) (b : byte) : bool :=
  (lo <=? Z_of_byte b) && (Z_of_byte b <=? hi).

(** The UTF-8 form of [buf.toString("utf8")]. *)
Fixpoint toString (buf : Buffer) : Buffer :=
  match buf with
  | [] => []
  | b0 :: r0 =>
      if between 0 127 b0 then b0 :: toString r0
      else if between 194 223 b0 then
        match r0 with
        | [] => replacement
        | b1 :: r1 =>
            if between 128 191 b1 then b0 :: b1 :: toString r1
            else replacement ++ toString r0
        end
      else if between 224 239 b0 then
        match r0 with
        | [] => replacement
        | b1 :: r1 =>
            if between (if Z_of_byte b0 =? 224 then 160 else 128)
                       (if Z_of_byte b0 =? 237 then 159 else 191) b1
            then
              match r1 with
              | [] => replacement
              | b2 :: r2 =>
                  if between 128 191 b2 then b0 :: b1 :: b2 :: toString r2
                  else replacement ++ toString r1
              end
            else replacement ++ toString r0
        end
      else if between 240 244 b0 then
        match r0 with
        | [] => replacement
        | b1 :: r1 =>
            if between (if Z_of_byte b0 =? 240 then 144 else 128)
                       (if Z_of_byte b0 =? 244 then 143 else 191) b1
            then
              match r1 with
              | [] => replacement
              | b2 :: r2 =>
                  if between 128 191 b2 then
                    match r2 with
                    | [] => replacement
                    | b3 :: r3 =>
                        if between 128 191 b3
                        then b0 :: b1 :: b2 :: b3 :: toString r3
                        else replacement ++ toString r2
                    end
                  else replacement ++ toString r1
              end
            else replacement ++ toString r0
        end
      else replacement ++ toString r0
  end.

(** A byte that UTF-8 uses. *)
Definition utf8_byte (b : byte) : Prop :=
  Z_of_byte b <= 244 /\ Z_of_byte b <> 192 /\ Z_of_byte b <> 193.

(** ASCII text without a carriage return or a line feed. *)
Definition ascii_line (text : Buffer) : Prop :=
  Forall (fun b => Z_of_byte b < 128 /\ Z_of_byte b <> 13 /\ Z_of_byte b <> 10)
         text.

(** The bytes are the UTF-8 form of a string: decoding leaves them as they
    are. *)
Definition well_formed (text : Buffer) : Prop := toString text = text.

End Utf8.

(** ** ship_proxy.js: [RequestQueue], [waitForSingleResponse] and the
       CONNECT handler *)

Module Ship.

Import Protocol Text.

(** One character matched by [\s] at the head of UTF-8 text, and the text
    after it: the ASCII white space 9..13 and 32, and the UTF-8 forms of
    U+00A0, U+1680, U+2000..U+200A, U+2028, U+2029, U+202F, U+205F, U+3000
    and U+FEFF. *)
Definition skip_space (text : Buffer) : option Buffer :=
  match text with
  | [] => None
  | b0 :: t1 =>
      let c0 := Z_of_byte b0 in
      if ((9 <=? c0) && (c0 <=? 13)) || (c0 =? 32) then Some t1
      else
        match t1 with
        | [] => None
        | b1 :: t2 =>
            let c1 := Z_of_byte b1 in
            if (c0 =? 194) && (c1 =? 160) then Some t2
            else
              match t2 with
              | [] => None
              | b2 :: t3 =>
                  let c2 := Z_of_byte b2 in
                  if ((c0 =? 225) && (c1 =? 154) && (c2 =? 128))
                     || ((c0 =? 226) && (c1 =? 128)
                         && (((128 <=? c2) && (c2 <=? 138))
                             || (c2 =? 168) || (c2 =? 169) || (c2 =? 175)))
                     || ((c0 =? 226) && (c1 =? 129) && (c2 =? 159))
                     || ((c0 =? 227) && (c1 =? 128) && (c2 =? 128))
                     || ((c0 =? 239) && (c1 =? 187) && (c2 =? 191))
                  then Some t3 else None
              end
        end
  end.

(** The rest of the text after the longest run of [\s] characters. *)
Fixpoint skip_spaces (fuel : nat) (text : Buffer) : Buffer :=
  match fuel with
  | O => text
  | S fuel' =>
      match skip_space text with
      | Some rest => skip_spaces fuel' rest
      | None => text
      end
  end.

Definition is_digit (b : byte) : bool :=
  (48 <=? Z_of_byte b) && (Z_of_byte b <=? 57).

(** An ASCII letter, given by its upper-case code, in either case. *)
Definition is_letter (upper : Z) (b : byte) : bool :=
  (Z_of_byte b =? upper) || (Z_of_byte b =? upper + 32).

(** [/^HTTP\/\d\.\d\s+200/i.test(resp.toString("utf8"))].  The text up to
    the status code is ASCII where the expression matches, and ["200"] does
    not begin with white space, so [\s+] takes the longest run. *)
Definition connectEstablished (resp : Buffer) : bool :=
  match resp with
  | h :: t1 :: t2 :: p :: slash :: d1 :: dot :: d2 :: rest =>
      is_letter 72 h && is_letter 84 t1 && is_letter 84 t2 && is_letter 80 p
      && (Z_of_byte slash =? 47) && is_digit d1 && (Z_of_byte dot =? 46)
      && is_digit d2
      && match skip_space rest with
         | Some rest' =>
             starts_with (ascii_bytes "200")
                         (skip_spaces (List.length rest') rest')
         | None => false
         end
  | _ => false
  end.

(** An entry of [requestQueue.queue]: [{ req, res, rawRequest, resolve,
    reject }].  [res] names the client's response object. *)
Record RequestItem := mkRequest { res : nat; rawRequest : Buffer }.

(** The suspended [async] functions: who waits for a promise. *)
Inductive Continuation :=
| Transaction (item : RequestItem)
    (* [processNext], between [queue.shift()] and its [finally] *)
| ConnectRequest (clientSocket : nat) (head : Buffer)
    (* the CONNECT handler, up to the reply to its request *)
| ConnectHead (clientSocket : nat)
    (* the CONNECT handler, while [head] is being sent *)
| TunnelData.
    (* [onClientData]; it swallows a failed send *)

(** What the ship does to the link and to its clients. *)
Inductive Action :=
| SendRequest (payload : Buffer)
    (* [offshore.sendRequest(payload)] or
       [offshore.queue.enqueue(MessageType.REQUEST, payload)] *)
| Respond (res : nat) (responseBuf : Buffer)
    (* the [try] block after the response arrived: [res.writeHead],
       [res.write], [res.end] with [parseRawHttpResponse(responseBuf)] *)
| BadGateway (res : nat)
    (* the [catch] block: [res.writeHead(502, ...)], [res.end(...)] *)
| ClientWrite (clientSocket : nat) (data : Buffer)
| ClientEnd (clientSocket : nat).

Record State := mkState {
  queue : list RequestItem;     (* [requestQueue.queue] *)
  processing : bool;            (* [requestQueue.processing] *)
  inTunnel : bool;              (* [offshore.inTunnel] *)
  sends : list Continuation;    (* awaiting a send promise, oldest first *)
  waits : list Continuation;    (* listeners of [waitForSingleResponse],
                                   in registration order *)
  tunnels : list nat;           (* client sockets whose [onMessage],
                                   [onOffshoreClose] and [onClientData]
                                   listeners are installed *)
  closeOnce : list nat;         (* client sockets with [once("close")] *)
  errorOnce : list nat;         (* client sockets with [once("error")] *)
  immediates : nat;             (* [setImmediate] callbacks not yet run *)
  exited : bool;                (* the process ended on an uncaught
                                   exception *)
  accepted : list RequestItem;  (* history: every item [enqueue] pushed *)
  log : list Action             (* history: the actions, oldest first *)
}.

Definition initial : State :=
  mkState [] false false [] [] [] [] [] 0 false [] [].

(** Assignments to one field. *)
Definition set_queue (q : list RequestItem) (s : State) : State :=
  mkState q (processing s) (inTunnel s) (sends s) (waits s) (tunnels s)
          (closeOnce s) (errorOnce s) (immediates s) (exited s) (accepted s)
          (log s).

Definition set_processing (b : bool) (s : State) : State :=
  mkState (queue s) b (inTunnel s) (sends s) (waits s) (tunnels s)
          (closeOnce s) (errorOnce s) (immediates s) (exited s) (accepted s)
          (log s).

Definition set_inTunnel (b : bool) (s : State) : State :=
  mkState (queue s) (processing s) b (sends s) (waits s) (tunnels s)
          (closeOnce s) (errorOnce s) (immediates s) (exited s) (accepted s)
          (log s).

Definition set_sends (ks : list Continuation) (s : State) : State :=
  mkState (queue s) (processing s) (inTunnel s) ks (waits s) (tunnels s)
          (closeOnce s) (errorOnce s) (immediates s) (exited s) (accepted s)
          (log s).

Definition set_waits (ks : list Continuation) (s : State) : State :=
  mkState (queue s) (processing s) (inTunnel s) (sends s) ks (tunnels s)
          (closeOnce s) (errorOnce s) (immediates s) (exited s) (accepted s)
          (log s).

Definition set_tunnels (cs : list nat) (s : State) : State :=
  mkState (queue s) (processing s) (inTunnel s) (sends s) (waits s) cs
          (closeOnce s) (errorOnce s) (immediates s) (exited s) (accepted s)
          (log s).

Definition set_closeOnce (cs : list nat) (s : State) : State :=
  mkState (queue s) (processing s) (inTunnel s) (sends s) (waits s)
          (tunnels s) cs (errorOnce s) (immediates s) (exited s) (accepted s)
          (log s).

Definition set_errorOnce (cs : list nat) (s : State) : State :=
  mkState (queue s) (processing s) (inTunnel s) (sends s) (waits s)
          (tunnels s) (closeOnce s) cs (immediates s) (exited s) (accepted s)
          (log s).

Definition set_immediates (n : nat) (s : State) : State :=
  mkState (queue s) (processing s) (inTunnel s) (sends s) (waits s)
          (tunnels s) (closeOnce s) (errorOnce s) n (exited s) (accepted s)
          (log s).

(** An exception nothing catches: Node prints it and the process ends. *)
Definition uncaughtException (s : State) : State :=
  mkState (queue s) (processing s) (inTunnel s) (sends s) (waits s)
          (tunnels s) (closeOnce s) (errorOnce s) (immediates s) true
          (accepted s) (log s).

Definition emit (a : list Action) (s : State) : State :=
  mkState (queue s) (processing s) (inTunnel s) (sends s) (waits s)
          (tunnels s) (closeOnce s) (errorOnce s) (immediates s) (exited s)
          (accepted s) (log s ++ a).

(** A promise of the link's send queue is awaited by [k]. *)
Definition await_send (k : Continuation) (s : State) : State :=
  set_sends (sends s ++ [k]) s.

(** [waitForSingleResponse()] called by [k]: its listeners are installed. *)
Definition waitForSingleResponse (k : Continuation) (s : State) : State :=
  set_waits (waits s ++ [k]) s.

(** [processNext()] up to its first [await]. *)
Definition processNext (s : State) : State :=
  if processing s || (Z.of_nat (List.length (queue s)) =? 0) || inTunnel s
  then s
  else
    match queue s with
    | [] => s
    | item :: rest =>
        await_send (Transaction item)
          (emit [SendRequest (rawRequest item)]
             (set_queue rest (set_processing true s)))
    end.

(** The [finally] of [processNext]. *)
Definition finally (s : State) : State :=
  set_immediates (S (immediates s)) (set_processing false s).

(** [requestQueue.enqueue(item)]. *)
Definition enqueue (item : RequestItem) (s : State) : State :=
  processNext
    (mkState (queue s ++ [item]) (processing s) (inTunnel s) (sends s)
             (waits s) (tunnels s) (closeOnce s) (errorOnce s)
             (immediates s) (exited s) (accepted s ++ [item]) (log s)).

(** The three client listeners and the two link listeners of an established
    tunnel. *)
Definition installTunnel (c : nat) (s : State) : State :=
  set_errorOnce (errorOnce s ++ [c])
    (set_closeOnce (closeOnce s ++ [c]) (set_tunnels (tunnels s ++ [c]) s)).

(** [cleanup()] of the tunnel of client socket [c]. *)
Definition cleanup (c : nat) (s : State) : State :=
  set_tunnels (remove Nat.eq_dec c (tunnels s)) s.

(** The [catch] of the CONNECT handler. *)
Definition connectCatch (c : nat) (s : State) : State :=
  set_inTunnel false (emit [ClientEnd c] s).

Definition connectionEstablished : Buffer :=
  ascii_bytes "HTTP/1.1 200 Connection Established" ++ CRLF ++ CRLF.

(** The CONNECT handler once the reply [resp] to its request arrived. *)
Definition connectReply (c : nat) (head resp : Buffer) (s : State) : State :=
  if negb (connectEstablished resp)
  then set_inTunnel false (emit [ClientWrite c resp; ClientEnd c] s)
  else
    let s1 := emit [ClientWrite c connectionEstablished] s in
    if negb (blength head =? 0)
    then await_send (ConnectHead c) (emit [SendRequest head] s1)
    else installTunnel c s1.

Fixpoint remove_nth {A : Type} (i : nat) (l : list A) : list A :=
  match i, l with
  | _, [] => []
  | O, _ :: l' => l'
  | S i', x :: l' => x :: remove_nth i' l'
  end.

(** The callbacks the event loop can run. *)
Inductive Event :=
| HttpRequest (item : RequestItem)
    (* [req] ended: [requestQueue.enqueue({ req, res, rawRequest })] *)
| HttpConnect (clientSocket : nat) (raw head : Buffer)
    (* the server's ["connect"] event; [raw] is the CONNECT request *)
| SendSettled (i : nat) (ok : bool)
    (* the [i]-th pending send promise resolves or rejects *)
| Messages (ms : list Message)
    (* one [offshore.decoder.push(chunk)]: the ["message"] events it emits,
       all delivered before any promise continuation runs *)
| OffshoreError
    (* [offshore] emits ["error"] *)
| OffshoreClose
    (* [offshore] emits ["close"] *)
| Immediate
    (* a [setImmediate] callback runs *)
| ClientData (clientSocket : nat) (data : Buffer)
| ClientClose (clientSocket : nat)
| ClientError (clientSocket : nat).

Definition mem (c : nat) (l : list nat) : bool := existsb (Nat.eqb c) l.

(** The payloads of the messages both kinds of ["message"] listener react
    to: those with [type === MessageType.RESPONSE]. *)
Definition responsePayloads (ms : list Message) : list Buffer :=
  map payload (filter (fun m => type m =? RESPONSE) ms).

Section EventLoop.

(** What Node does with a promise rejection nothing handles: with
    [--unhandled-rejections=throw] or [strict] it raises it as an uncaught
    exception ([true]; the default since Node 15), otherwise it warns and
    goes on ([false]). *)
Variable throwUnhandled : bool.

(** Whether [res.writeHead], [res.write] and [res.end] go through for the
    response [parseRawHttpResponse] makes of a payload; [writeHead] throws
    on a status code below 100 and on a header name or value Node does not
    take. *)
Variable writable : Buffer -> bool.

(** [item.reject(e)]: the promise [requestQueue.enqueue] returned rejects.
    The ["end"] listener of the request awaits it outside any [try], so the
    promise of that listener rejects, and nothing handles it. *)
Definition reject_item (s : State) : State :=
  if throwUnhandled then uncaughtException s else s.

(** The [catch] and the [finally] of [processNext]. *)
Definition transactionCatch (item : RequestItem) (s : State) : State :=
  finally (reject_item (emit [BadGateway (res item)] s)).

(** A continuation resumed by the rejection of the promise it awaited. *)
Definition resume_rejected (k : Continuation) (s : State) : State :=
  match k with
  | Transaction item => transactionCatch item s
  | ConnectRequest c _ => connectCatch c s
  | ConnectHead c => connectCatch c s
  | TunnelData => s
  end.

(** A continuation resumed with the value of the promise it awaited. *)
Definition resume_resolved (k : Continuation) (resp : Buffer) (s : State)
  : State :=
  match k with
  | Transaction item =>
      if writable resp
      then finally (emit [Respond (res item) resp] s)
      else transactionCatch item s
  | ConnectRequest c head => connectReply c head resp s
  | ConnectHead c => installTunnel c s
  | TunnelData => s
  end.

(** One callback, run to completion together with the promise continuations
    it makes ready. *)
Definition handle (s : State) (e : Event) : State :=
  match e with
  | HttpRequest item => enqueue item s
  | HttpConnect c raw head =>
      await_send (ConnectRequest c head)
        (emit [SendRequest raw] (set_inTunnel true s))
  | SendSettled i ok =>
      match nth_error (sends s) i with
      | None => s
      | Some k =>
          let s' := set_sends (remove_nth i (sends s)) s in
          if ok then
            match k with
            | Transaction _ | ConnectRequest _ _ => waitForSingleResponse k s'
            | ConnectHead _ | TunnelData => resume_resolved k [] s'
            end
          else resume_rejected k s'
      end
  | Messages ms =>
      let responses := responsePayloads ms in
      let s1 :=
        if inTunnel s
        then emit (flat_map (fun payload =>
                               if negb (blength payload =? 0)
                               then map (fun c => ClientWrite c payload) (tunnels s)
                               else [])
                            responses) s
        else s in
      match responses with
      | [] => s1
      | payload :: _ =>
          fold_left (fun st k => resume_resolved k payload st) (waits s)
                    (set_waits [] s1)
      end
  | OffshoreError =>
      match waits s with
      | [] => uncaughtException s
      | _ :: _ =>
          fold_left (fun st k => resume_rejected k st) (waits s)
                    (set_waits [] s)
      end
  | OffshoreClose =>
      fold_left (fun st c => emit [ClientEnd c] (set_inTunnel false (cleanup c st)))
                (tunnels s) s
  | Immediate =>
      match immediates s with
      | O => s
      | S n => processNext (set_immediates n s)
      end
  | ClientData c data =>
      if mem c (tunnels s)
      then await_send TunnelData (emit [SendRequest data] s)
      else s
  | ClientClose c =>
      if mem c (closeOnce s)
      then set_inTunnel false
             (cleanup c (set_closeOnce (remove Nat.eq_dec c (closeOnce s)) s))
      else s
  | ClientError c =>
      if mem c (errorOnce s)
      then set_inTunnel false
             (cleanup c (set_errorOnce (remove Nat.eq_dec c (errorOnce s)) s))
      else s
  end.

(** A callback runs only while the process lives. *)
Definition step (s : State) (e : Event) : State :=
  if exited s then s else handle s e.

Definition run (events : list Event) : State := fold_left step events initial.

End EventLoop.

(** *** Vocabulary for the scheduler's properties *)

(** The RESPONSE payloads the link delivered, in order. *)
Fixpoint received (events : list Event) : list Buffer :=
  match events with
  | [] => []
  | Messages ms :: events' => responsePayloads ms ++ received events'
  | _ :: events' => received events'
  end.

Fixpoint transactions (ks : list Continuation) : list RequestItem :=
  match ks with
  | [] => []
  | Transaction item :: ks' => item :: transactions ks'
  | _ :: ks' => transactions ks'
  end.

(** The transactions whose REQUEST went to the sender and which have not
    ended: those suspended in [processNext]. *)
Definition outstanding (s : State) : list RequestItem :=
  transactions (sends s ++ waits s).

(** How a transaction ended: with the response parsed from a RESPONSE
    payload, or in the [catch] block. *)
Inductive Completion :=
| Responded (responseBuf : Buffer)
| Failed.

Definition request (item : RequestItem) : Action :=
  SendRequest (rawRequest item).

Definition completion (d : RequestItem * Completion) : Action :=
  match snd d with
  | Responded responseBuf => Respond (res (fst d)) responseBuf
  | Failed => BadGateway (res (fst d))
  end.

(** The log of one finished transaction. *)
Definition exchange (d : RequestItem * Completion) : list Action :=
  [request (fst d); completion d].

(** The log of one transaction that ended with its response. *)
Definition answered (d : RequestItem * Buffer) : list Action :=
  [request (fst d); Respond (res (fst d)) (snd d)].

Definition with_response (d : RequestItem * Buffer)
  : RequestItem * Completion :=
  (fst d, Responded (snd d)).

Definition answered_from (events : list Event) (d : RequestItem * Completion)
  : Prop :=
  match snd d with
  | Responded responseBuf => In responseBuf (received events)
  | Failed => True
  end.

(** The delivery that answered a transaction.  The callbacks [before] had
    logged [sent] and then the REQUEST of the transaction, which was the one
    outstanding and, its send resolved, the one waiting for a response; the
    next callback was a delivery of the link, and the first RESPONSE payload
    in it is the answer, written to the client of the transaction in that
    same callback.  A failed transaction has none. *)
Definition delivery (throwUnhandled : bool) (writable : Buffer -> bool)
           (events : list Event) (sent : list Action)
           (d : RequestItem * Completion) : Prop :=
  match snd d with
  | Responded responseBuf =>
      exists (before after : list Event) (ms : list Message),
        events = before ++ Messages ms :: after /\
        log (run throwUnhandled writable before) = sent ++ [request (fst d)] /\
        outstanding (run throwUnhandled writable before) = [fst d] /\
        waits (run throwUnhandled writable before) = [Transaction (fst d)] /\
        hd_error (responsePayloads ms) = Some responseBuf /\
        log (run throwUnhandled writable (before ++ [Messages ms]))
        = sent ++ exchange d
  | Failed => True
  end.

(** Every finished transaction was answered in its turn: the [k]-th by a
    delivery that came when the [k] transactions before it had ended and its
    own REQUEST was sent. *)
Definition in_turn (throwUnhandled : bool) (writable : Buffer -> bool)
           (events : list Event) (done : list (RequestItem * Completion))
  : Prop :=
  forall (k : nat) (d : RequestItem * Completion),
    nth_error done k = Some d ->
    delivery throwUnhandled writable events
             (flat_map exchange (firstn k done)) d.

(** Positional correlation.  The [k]-th answered transaction got the first
    RESPONSE payload of the delivery of the link that came when the log held
    the [k] exchanges before it and its own REQUEST, and it was the one
    transaction outstanding and waited for its response; the response was
    written to its client in the callback of that delivery, before anything
    else was sent. *)
Definition answered_in_turn (throwUnhandled : bool) (writable : Buffer -> bool)
           (events : list Event) (done : list (RequestItem * Buffer)) : Prop :=
  forall (k : nat) (d : RequestItem * Buffer),
    nth_error done k = Some d ->
    exists (before after : list Event) (ms : list Message),
      events = before ++ Messages ms :: after /\
      log (run throwUnhandled writable before)
      = flat_map answered (firstn k done) ++ [request (fst d)] /\
      outstanding (run throwUnhandled writable before) = [fst d] /\
      waits (run throwUnhandled writable before) = [Transaction (fst d)] /\
      hd_error (responsePayloads ms) = Some (snd d) /\
      log (run throwUnhandled writable (before ++ [Messages ms]))
      = flat_map answered (firstn k done) ++ answered d.

(** The last transaction started, when every one before it was answered:
    none is left, or it is outstanding, or it was answered 502 by the
    [catch] block. *)
Inductive Last :=
| Quiet
| Outstanding (item : RequestItem)
| FailedLast (item : RequestItem).

Definition last_items (l : Last) : list RequestItem :=
  match l with
  | Quiet => []
  | Outstanding item | FailedLast item => [item]
  end.

Definition last_log (l : Last) : list Action :=
  match l with
  | Quiet => []
  | Outstanding item => [request item]
  | FailedLast item => [request item; BadGateway (res item)]
  end.

Definition not_connect (e : Event) : Prop :=
  match e with
  | HttpConnect _ _ _ => False
  | _ => True
  end.

(** No send promise rejects, the link emits no error, and every response
    it delivers can be written to a client. *)
Definition no_failure (writable : Buffer -> bool) (e : Event) : Prop :=
  match e with
  | SendSettled _ false | OffshoreError => False
  | Messages ms => Forall (fun resp => writable resp = true) (responsePayloads ms)
  | _ => True
  end.

Definition not_request (e : Event) : Prop :=
  match e with
  | HttpRequest _ => False
  | _ => True
  end.

(** What happens in the ship's process: one of its callbacks runs, or Node
    emits ["finish"] on a response object, when the last of the response
    was handed to the operating system for the client.  [res.end()] only
    queues the response; a client that is slow to read delays ["finish"] as
    long as it likes.  ship_proxy.js registers no listener for ["finish"],
    nor for ["drain"], on a response: the event runs no code of the ship. *)
Inductive Occurrence :=
| Callback (e : Event)
| Finish (res : nat).

(** The callbacks of the ship among what happens. *)
Definition callbacks (timeline : list Occurrence) : list Event :=
  flat_map (fun o => match o with
                     | Callback e => [e]
                     | Finish _ => []
                     end) timeline.

(** The responses that were flushed. *)
Definition finished (timeline : list Occurrence) : list nat :=
  flat_map (fun o => match o with
                     | Callback _ => []
                     | Finish res => [res]
                     end) timeline.

(** The next REQUEST waits for the flush: where the log ends with a REQUEST
    sent after the response written to [res], that response was flushed. *)
Definition sends_after_flush (throwUnhandled : bool) (writable : Buffer -> bool)
           (timeline : list Occurrence) : Prop :=
  forall (sent : list Action) (res : nat) (responseBuf payload : Buffer),
    log (run throwUnhandled writable (callbacks timeline))
    = sent ++ [Respond res responseBuf; SendRequest payload] ->
    In res (finished timeline).

(** The scheduler has nothing to wake it: no transaction is suspended and
    no deferred [processNext] is pending. *)
Definition asleep (s : State) : Prop :=
  processing s = false /\ immediates s = 0%nat /\
  transactions (sends s) = [] /\ transactions (waits s) = [].

(** A CONNECT, then a GET while the tunnel is being set up; the tunnel is
    established and the client closes it. *)
Definition connectRequest : Buffer :=
  ascii_bytes "CONNECT example.invalid:443 HTTP/1.1" ++ CRLF ++ CRLF.

Definition tunnel_teardown : list Event :=
  [ HttpConnect 7 connectRequest [];
    HttpRequest (mkRequest 1 [x41]);
    SendSettled 0 true;
    Messages [mkMessage RESPONSE connectionEstablished];
    ClientClose 7 ].

(** The same, with the CONNECT answered by an empty RESPONSE, which does
    not match the status line of a 200. *)
Definition connect_refused : list Event :=
  [ HttpConnect 7 connectRequest [];
    HttpRequest (mkRequest 1 [x41]);
    SendSettled 0 true;
    Messages [mkMessage RESPONSE []] ].

(** Two requests; the link fails while the first waits for its response. *)
Definition failure_between : list Event :=
  [ HttpRequest (mkRequest 1 [x41]);
    HttpRequest (mkRequest 2 [x42]);
    SendSettled 0 true;
    OffshoreError;
    Immediate ].

(** Two requests, the first answered. *)
Definition two_requests : list Event :=
  [ HttpRequest (mkRequest 1 [x41]);
    HttpRequest (mkRequest 2 [x42]);
    SendSettled 0 true;
    Messages [mkMessage RESPONSE [x52]];
    Immediate ].

(** Two requests, the first answered, and the deferred [processNext] run
    while the first client has not read its response. *)
Definition slow_client : list Occurrence := map Callback two_requests.

(** Where the worker of [processNext] stands between two callbacks, when no
    CONNECT was handled: idle, or suspended on the send of one transaction,
    or suspended on the response to one transaction. *)
Inductive worker : State -> list RequestItem -> Prop :=
| worker_idle q n x a l :
    worker (mkState q false false [] [] [] [] [] n x a l) []
| worker_sending q n x a l item :
    worker (mkState q true false [Transaction item] [] [] [] [] n x a l) [item]
| worker_waiting q n x a l item :
    worker (mkState q true false [] [Transaction item] [] [] [] n x a l) [item].

(** Every finished transaction ended with its response, but for the last,
    whose failure ended the process. *)
Definition answered_or_exited (s : State) (inflight : list RequestItem)
           (done : list (RequestItem * Completion)) : Prop :=
  (exists answers, done = map with_response answers) \/
  (exited s = true /\ inflight = [] /\
   exists answers item,
     done = map with_response answers ++ [(item, Failed)]).

(** The scheduler's invariant over message-mode traffic. *)
Definition fifo_invariant (throwUnhandled : bool) (writable : Buffer -> bool)
           (events : list Event) (s : State) : Prop :=
  exists (done : list (RequestItem * Completion)) (inflight : list RequestItem),
    worker s inflight /\
    accepted s = map fst done ++ inflight ++ queue s /\
    log s = flat_map exchange done ++ map request inflight /\
    Forall (answered_from events) done /\
    in_turn throwUnhandled writable events done /\
    (throwUnhandled = true \/ Forall (no_failure writable) events ->
     answered_or_exited s inflight done).

(** A callback part that neither touches the request queue nor starts a
    transaction. *)
Definition quiet (s s' : State) : Prop :=
  queue s' = queue s /\
  forall item, In (Transaction item) (sends s') -> In (Transaction item) (sends s).

(** A sleeping scheduler stays asleep, with the same queue, under a
    continuation that is not a transaction. *)
Definition sleeps_on (s s' : State) : Prop :=
  asleep s -> asleep s' /\ queue s' = queue s.

End Ship.

(** ** ship_proxy.js: [OffshoreConnection] *)

Module Link.

Import Protocol.

(** The fields of the connection object (but [host] and [port], which never
    change), the count of sockets it has made and the timers it has set.
    A socket is named by the number of the [net.createConnection] call that
    made it. *)
Record OffshoreConnection := mkConnection {
  socket : option nat;                       (* [this.socket] *)
  decoder : FrameDecoder;                    (* [this.decoder] *)
  queue : option Sender.MessageSendQueue;    (* [this.queue] *)
  inTunnel : bool;                           (* [this.inTunnel] *)
  created : nat;                             (* sockets made so far *)
  timers : list Z;                           (* delays, in milliseconds, of
                                                the pending [setTimeout]s *)
  exited : bool                              (* the process ended on an
                                                uncaught exception *)
}.

(** What the connection object and its decoder emit to their listeners. *)
Inductive Emitted :=
| EmitConnect
| EmitMessage (m : Message)
| EmitError
| EmitClose.

(** [_connect()]: a new socket and a new send queue on it; the four socket
    listeners it installs are the cases of [handle]. *)
Definition _connect (c : OffshoreConnection) : OffshoreConnection :=
  mkConnection (Some (created c)) (decoder c)
               (Some Sender.newMessageSendQueue) (inTunnel c)
               (S (created c)) (timers c) (exited c).

(** [new OffshoreConnection(host, port)]. *)
Definition newOffshoreConnection : OffshoreConnection :=
  _connect (mkConnection None newFrameDecoder None false 0 [] false).

(** The callbacks of a socket the connection made, and of its timers.  The
    connection object has no ["error"] listener of its own: [listened] says
    whether [waitForSingleResponse] has one installed when the socket
    fails. *)
Inductive Event :=
| SockConnect (sock : nat)
| SockData (sock : nat) (chunk : Buffer)
| SockError (sock : nat) (listened : bool)
| SockClose (sock : nat)
| TimerFired.

Definition handle (c : OffshoreConnection) (e : Event)
  : OffshoreConnection * list Emitted :=
  match e with
  | SockConnect sock => (c, [EmitConnect])
  | SockData sock chunk =>
      match push (decoder c) (IsBuffer chunk) with
      | inr (d, ms) =>
          (mkConnection (socket c) d (queue c) (inTunnel c) (created c)
                        (timers c) (exited c),
           map EmitMessage ms)
      | inl _ => (c, [])
      end
  | SockError sock listened =>
      if listened then (c, [EmitError])
      else
        (* [emit("error", e)] with no listener throws [e] *)
        (mkConnection (socket c) (decoder c) (queue c) (inTunnel c)
                      (created c) (timers c) true,
         [])
  | SockClose sock =>
      (mkConnection (socket c) (decoder c) (queue c) (inTunnel c)
                    (created c) (timers c ++ [1000]) (exited c),
       [EmitClose])
  | TimerFired =>
      match timers c with
      | [] => (c, [])
      | _ :: rest =>
          (_connect (mkConnection (socket c) (decoder c) (queue c)
                                  (inTunnel c) (created c) rest (exited c)),
           [])
      end
  end.

(** The socket a callback belongs to, if any. *)
Definition socket_of (e : Event) : option nat :=
  match e with
  | SockConnect sock | SockData sock _ | SockError sock _ | SockClose sock =>
      Some sock
  | TimerFired => None
  end.

(** A callback runs while the process lives, and a socket callback only on
    a socket that was made. *)
Definition step (c : OffshoreConnection) (e : Event)
  : OffshoreConnection * list Emitted :=
  if exited c then (c, [])
  else
    match socket_of e with
    | Some sock => if (sock <? created c)%nat then handle c e else (c, [])
    | None => handle c e
    end.

(** A sequence of callbacks: the object afterwards and everything
    emitted. *)
Fixpoint run_from (c : OffshoreConnection) (events : list Event)
  : OffshoreConnection * list Emitted :=
  match events with
  | [] => (c, [])
  | e :: events' =>
      let (c1, out1) := step c e in
      let (c2, out2) := run_from c1 events' in
      (c2, out1 ++ out2)
  end.

Definition run (events : list Event) : OffshoreConnection * list Emitted :=
  run_from newOffshoreConnection events.

(** [n] times: the current socket closes and the timer it set fires. *)
Fixpoint losses (first : nat) (n : nat) : list Event :=
  match n with
  | O => []
  | S n' => SockClose first :: TimerFired :: losses (S first) n'
  end.

(** The head of a frame arrives, the link is lost and made again, and a
    RESPONSE frame with payload "OK" arrives on the new socket. *)
Definition loss_inside_frame : list Event :=
  [ SockData 0 [x00; x00; x00];
    SockClose 0;
    TimerFired;
    SockData 1 [x00; x00; x00; x02; x01; x4f; x4b] ].

(** The link is lost while no transaction waits, and the offshore refuses
    the first attempt to connect again. *)
Definition reconnect_refused : list Event :=
  [ SockClose 0;
    TimerFired;
    SockError 1 false;
    SockClose 1;
    TimerFired ].

End Link.

(** ** offshore_proxy.js: the per-connection dispatcher *)

Module Offshore.

Import Protocol Text.

(** What [parseHttpRequest] returns.  [path] is [undefined] when the request
    line has one word only.  The [headers] object is built from
    [headerLines]; only the origin fetch reads it, and the model keeps the
    lines it is built from. *)
Record ParsedRequest := mkParsed {
  method : Buffer;
  path : option Buffer;
  version : Buffer;
  headerLines : list Buffer;
  body : Buffer
}.

(** [parseHttpRequest(buf)].  [body] is cut from the decoded text and
    encoded again: bytes that are not well-formed UTF-8 come back as
    U+FFFD. *)
Definition parseHttpRequest (buf : Buffer) : ParsedRequest :=
  let text := Utf8.toString buf in
  let sep := CRLF ++ CRLF in
  let headerEnd := indexOf sep text in
  let head := match headerEnd with
              | Some i => firstn i text
              | None => text
              end in
  let body := match headerEnd with
              | Some i => skipn (i + List.length sep) text
              | None => []
              end in
  let lines := split CRLF head in
  let requestLine := hd [] lines in
  let headerLines := tl lines in
  let words := split (ascii_bytes " ") requestLine in
  let version := match nth_error words 2 with
                 | Some ((_ :: _) as v) => v
                 | _ => ascii_bytes "HTTP/1.1"
                 end in
  mkParsed (hd [] words) (nth_error words 1) version headerLines body.

(** The headers of the two synthesized error responses. *)
Definition errorHeaders (body : Buffer) : list (Buffer * Buffer) :=
  [ (ascii_bytes "Content-Type", ascii_bytes "text/plain; charset=utf-8");
    (ascii_bytes "Content-Length", decimal (List.length body));
    (ascii_bytes "Connection", ascii_bytes "close") ].

(** [Array.prototype.join]. *)
Fixpoint join (sep : Buffer) (pieces : list Buffer) : Buffer :=
  match pieces with
  | [] => []
  | [p] => p
  | p :: pieces' => p ++ sep ++ join sep pieces'
  end.

(** [buildRawHttpResponse(statusCode, statusMessage, headers, bodyBuffer)]
    for headers none of which is an array. *)
Definition buildRawHttpResponse (statusCode : nat) (statusMessage : Buffer)
           (headers : list (Buffer * Buffer)) (bodyBuffer : Buffer) : Buffer :=
  let version := ascii_bytes "HTTP/1.1" in
  let statusLine := version ++ ascii_bytes " " ++ decimal statusCode
                    ++ ascii_bytes " " ++ statusMessage in
  let headerLines :=
    map (fun kv => fst kv ++ ascii_bytes ": " ++ snd kv) headers in
  let head := statusLine ++ CRLF ++ join CRLF headerLines ++ CRLF ++ CRLF in
  head ++ bodyBuffer.

(** The 502 of [upstreamReq.on("error")], from [err.message]. *)
Definition badGateway (message : Buffer) : Buffer :=
  let body := match message with
              | [] => ascii_bytes "Upstream request error"
              | _ => message
              end in
  buildRawHttpResponse 502 (ascii_bytes "Bad Gateway") (errorHeaders body) body.

(** The 500 of the handler's [catch], from [e.message]. *)
Definition internalError (message : Buffer) : Buffer :=
  let body := ascii_bytes "Internal error: " ++ message in
  buildRawHttpResponse 500 (ascii_bytes "Internal Server Error")
                       (errorHeaders body) body.

Definition okPayload : Buffer :=
  ascii_bytes "HTTP/1.1 200 Connection Established" ++ CRLF ++ CRLF.

(** What the dispatcher does to the link, to its upstream sockets and to
    the origin. *)
Inductive Action :=
| Enqueue (type : Z) (payload : Buffer)
    (* [queue.enqueue(type, payload)] *)
| SendMessage (type : Z) (payload : Buffer)
    (* [sendMessage(socket, type, payload)], in the [catch] *)
| NetConnect (upstream : nat) (host : Buffer) (port : Z)
    (* [net.connect({ host, port }, ...)] made socket [upstream] *)
| UpstreamWrite (upstream : nat) (payload : Buffer)
| UpstreamDestroy (upstream : nat)
| OriginRequest (fetch : nat) (req : ParsedRequest).
    (* [agent.request(options, ...)], the body written, [end()] *)

(** The closure of one accepted socket: its two variables, the count of
    upstream sockets and of origin requests it has made, and its actions. *)
Record State := mkState {
  inTunnel : bool;
  tunnelUpstream : option nat;
  upstreams : nat;
  fetches : nat;
  log : list Action
}.

Definition initial : State := mkState false None 0 0 [].

Definition emit (a : list Action) (s : State) : State :=
  mkState (inTunnel s) (tunnelUpstream s) (upstreams s) (fetches s)
          (log s ++ a).

(** The callbacks of the dispatcher. *)
Inductive Event :=
| Message (type : Z) (payload : Buffer)
    (* the decoder emits ["message"] *)
| LinkClose
    (* the accepted socket emits ["close"] *)
| UpstreamConnected (upstream : nat)
    (* the callback given to [net.connect] *)
| UpstreamData (upstream : nat) (data : Buffer)
| UpstreamError (upstream : nat)
| UpstreamClose (upstream : nat)
| OriginResponse (fetch : nat) (raw : Buffer)
    (* [upRes] ended; [raw] is the response [buildRawHttpResponse] made of
       its status, headers and body *)
| OriginError (fetch : nat) (message : Buffer).
    (* [upstreamReq] emits ["error"] with [err.message] *)

(** The exceptions the message handler catches. *)
Inductive HandlerError :=
| PathUndefined
    (* [req.path.split] on a request line of one word *)
| BadPort (target : Buffer)
    (* [net.connect] on a port it does not take *)
| OriginThrew (req : ParsedRequest).
    (* [chooseAgentAndOptions] or [agent.request] *)

Section Dispatcher.

(** [Number(portStr)] when [net.connect] takes it as a port; [None] when
    [net.connect] throws on it. *)
Variable portNumber : Buffer -> option Z.

(** Whether [chooseAgentAndOptions] or [agent.request] throws on a
    request. *)
Variable originThrows : ParsedRequest -> bool.

(** [e.message] of the exception caught, as the runtime words it. *)
Variable errorMessage : HandlerError -> Buffer.

(** The [catch] of the message handler. *)
Definition handlerCatch (e : HandlerError) (s : State) : State :=
  emit [SendMessage RESPONSE (internalError (errorMessage e))] s.

(** The CONNECT branch of the message handler. *)
Definition connectBranch (req : ParsedRequest) (s : State) : State :=
  match path req with
  | None => handlerCatch PathUndefined s
  | Some target =>
      let pieces := split (ascii_bytes ":") target in
      let host := hd [] pieces in
      let port := match nth_error pieces 1 with
                  | Some ((_ :: _) as portStr) => portNumber portStr
                  | _ => Some 443
                  end in
      match port with
      | None => handlerCatch (BadPort target) s
      | Some port =>
          mkState (inTunnel s) (tunnelUpstream s) (S (upstreams s)) (fetches s)
                  (log s ++ [NetConnect (upstreams s) host port])
      end
  end.

(** The decoder's ["message"] listener. *)
Definition onMessage (type : Z) (payload : Buffer) (s : State) : State :=
  if negb (type =? REQUEST) then s
  else
    match inTunnel s, tunnelUpstream s with
    | true, Some upstream => emit [UpstreamWrite upstream payload] s
    | _, _ =>
        let req := parseHttpRequest payload in
        if same (method req) (ascii_bytes "CONNECT") then connectBranch req s
        else
          if originThrows req then handlerCatch (OriginThrew req) s
          else
            mkState (inTunnel s) (tunnelUpstream s) (upstreams s)
                    (S (fetches s))
                    (log s ++ [OriginRequest (fetches s) req])
    end.

Definition step (s : State) (e : Event) : State :=
  match e with
  | Message type payload => onMessage type payload s
  | LinkClose =>
      match tunnelUpstream s with
      | Some upstream => emit [UpstreamDestroy upstream] s
      | None => s
      end
  | UpstreamConnected upstream =>
      if (upstream <? upstreams s)%nat
      then mkState true (Some upstream) (upstreams s) (fetches s)
                   (log s ++ [Enqueue RESPONSE okPayload])
      else s
  | UpstreamData upstream data =>
      if (upstream <? upstreams s)%nat
      then emit [Enqueue RESPONSE data] s
      else s
  | UpstreamError upstream =>
      if (upstream <? upstreams s)%nat
      then emit [Enqueue RESPONSE []] s
      else s
  | UpstreamClose upstream =>
      if (upstream <? upstreams s)%nat
      then mkState false None (upstreams s) (fetches s) (log s)
      else s
  | OriginResponse fetch raw =>
      if (fetch <? fetches s)%nat
      then emit [Enqueue RESPONSE raw] s
      else s
  | OriginError fetch message =>
      if (fetch <? fetches s)%nat
      then emit [Enqueue RESPONSE (badGateway message)] s
      else s
  end.

Definition run (events : list Event) : State := fold_left step events initial.

End Dispatcher.

(** *** [Number(portStr)] and the port test of [net.connect]

    [Number] reads white space, a numeric literal and white space: a
    binary, octal or hexadecimal integer ([0b], [0o], [0x], without sign),
    or a signed decimal literal with an optional fraction and an optional
    exponent; text that is only white space reads as 0 and any other text
    as NaN.  The value is rounded to the nearest double, ties to even.
    [net.connect] takes a number as a port when it is an integer from 0 to
    65535 (or -0), and throws on any other. *)

(** The longest run of bytes that pass [p], and the text after it. *)
Fixpoint span (p : byte -> bool) (text : Buffer) : Buffer * Buffer :=
  match text with
  | [] => ([], [])
  | b :: text' =>
      if p b then let (taken, rest) := span p text' in (b :: taken, rest)
      else ([], text)
  end.

(** The value of a digit of a radix up to 16, in either case of the
    letters. *)
Definition radix_digit (radix : Z) (b : byte) : option Z :=
  let c := Z_of_byte b in
  let v := if (48 <=? c) && (c <=? 57) then c - 48
           else if (97 <=? c) && (c <=? 102) then c - 87
           else if (65 <=? c) && (c <=? 70) then c - 55
           else 16 in
  if v <? radix then Some v else None.

Definition is_radix_digit (radix : Z) (b : byte) : bool :=
  match radix_digit radix b with
  | Some _ => true
  | None => false
  end.

Definition digits_value (radix : Z) (digits : Buffer) : Z :=
  fold_left (fun acc b => radix * acc + match radix_digit radix b with
                                        | Some v => v
                                        | None => 0
                                        end)
            digits 0.

(** Whether the text is white space only. *)
Definition white_space (text : Buffer) : bool :=
  match Ship.skip_spaces (List.length text) text with
  | [] => true
  | _ :: _ => false
  end.

(** [0b], [0o] or [0x] at the head of the text, in either case: the radix
    and the text after the prefix. *)
Definition radix_prefix (text : Buffer) : option (Z * Buffer) :=
  match text with
  | zero :: letter :: rest =>
      let c := Z_of_byte letter in
      if negb (Z_of_byte zero =? 48) then None
      else if (c =? 120) || (c =? 88) then Some (16, rest)
      else if (c =? 111) || (c =? 79) then Some (8, rest)
      else if (c =? 98) || (c =? 66) then Some (2, rest)
      else None
  | _ => None
  end.

(** An optional sign: whether it is [-], and the text after it. *)
Definition sign (text : Buffer) : bool * Buffer :=
  match text with
  | b :: rest =>
      if Z_of_byte b =? 43 then (false, rest)
      else if Z_of_byte b =? 45 then (true, rest)
      else (false, text)
  | [] => (false, [])
  end.

(** An optional exponent part: its value and the text after it.  [None]
    when [e] is not followed by digits. *)
Definition exponent (text : Buffer) : option (Z * Buffer) :=
  match text with
  | e :: rest =>
      if (Z_of_byte e =? 101) || (Z_of_byte e =? 69) then
        let (negative, rest1) := sign rest in
        let (digits, rest2) := span (is_radix_digit 10) rest1 in
        match digits with
        | [] => None
        | _ :: _ =>
            Some ((if negative then -1 else 1) * digits_value 10 digits, rest2)
        end
      else Some (0, text)
  | [] => Some (0, [])
  end.

(** A signed decimal literal followed by white space only: whether it is
    negative, and [d] and [e] such that its value is [d] times 10 to the
    power [e]. *)
Definition decimalLiteral (text : Buffer) : option (bool * Z * Z) :=
  let (negative, t0) := sign text in
  let (whole, t1) := span (is_radix_digit 10) t0 in
  let (fraction, t2) :=
    match t1 with
    | dot :: t =>
        if Z_of_byte dot =? 46 then span (is_radix_digit 10) t else ([], t1)
    | [] => ([], [])
    end in
  match whole ++ fraction with
  | [] => None
  | _ :: _ =>
      match exponent t2 with
      | None => None
      | Some (e, t3) =>
          if white_space t3
          then Some (negative, digits_value 10 (whole ++ fraction),
                     e - Z.of_nat (List.length fraction))
          else None
      end
  end.

(** The integer from 0 to 65535 that [d] over 10 to the power [m] is
    rounded to as a double, for [d] and [m] above 0, if there is one.  The
    doubles next to an integer [n] with [2^k <= n < 2^(k+1)] are
    [n + 2^(k-52)] above and [n - 2^(k-52)] below ([n - 2^(k-53)] when [n]
    is [2^k]), and [n] is the even one of them, so what rounds to [n] is
    what is at most half that far from it; what rounds to 0 is what is at
    most [2^-1075]. *)
Definition roundedPort (d m : Z) : option Z :=
  let p := 10 ^ m in
  let n := (2 * d + p) / (2 * p) in
  if n =? 0 then if d * 2 ^ 1075 <=? p then Some 0 else None
  else if 65535 <? n then None
  else
    let k := Z.log2 n in
    let above := 2 ^ (53 - k) in
    let below := if n =? 2 ^ k then 2 ^ (54 - k) else 2 ^ (53 - k) in
    if ((n * below - 1) * p <=? d * below) && (d * above <=? (n * above + 1) * p)
    then Some n
    else None.

(** The port a decimal literal of value [d] times 10 to the power [e]
    reads as.  Above 0 it is an integer up to 65535, or a fraction that is
    rounded to one; below 0 it is a fraction that is rounded to -0. *)
Definition literalPort (negative : bool) (d e : Z) : option Z :=
  if d =? 0 then Some 0
  else if 0 <=? e then
    if negative || (5 <=? e) then None
    else if d * 10 ^ e <=? 65535 then Some (d * 10 ^ e) else None
  else
    match roundedPort d (- e) with
    | Some n => if negative && negb (n =? 0) then None else Some n
    | None => None
    end.

(** [Number(portStr)] when [net.connect] takes it as a port; [None] when
    [net.connect] throws on it. *)
Definition connectPort (portStr : Buffer) : option Z :=
  let text := Ship.skip_spaces (List.length portStr) portStr in
  match text with
  | [] => Some 0
  | _ :: _ =>
      match radix_prefix text with
      | Some (radix, t) =>
          let (digits, rest) := span (is_radix_digit radix) t in
          match digits with
          | [] => None
          | _ :: _ =>
              if white_space rest && (digits_value radix digits <=? 65535)
              then Some (digits_value radix digits)
              else None
          end
      | None =>
          match decimalLiteral text with
          | Some (negative, d, e) => literalPort negative d e
          | None => None
          end
      end
  end.

(** Whether a payload begins with the status line of a 502 response. *)
Definition is502 (payload : Buffer) : bool :=
  starts_with (ascii_bytes "HTTP/1.1 502") payload.

(** Whether some frame the dispatcher handed to the link is a 502. *)
Definition emits502 (actions : list Action) : bool :=
  existsb (fun a => match a with
                    | Enqueue _ payload | SendMessage _ payload => is502 payload
                    | _ => false
                    end) actions.

(** A CONNECT whose target refuses the connection, and a GET whose origin
    does. *)
Definition connectRequest : Buffer :=
  ascii_bytes "CONNECT example.invalid:443 HTTP/1.1" ++ CRLF
  ++ ascii_bytes "Host: example.invalid:443" ++ CRLF ++ CRLF.

Definition getRequest : Buffer :=
  ascii_bytes "GET http://example.invalid/ HTTP/1.1" ++ CRLF
  ++ ascii_bytes "Host: example.invalid" ++ CRLF ++ CRLF.

Definition connect_refused : list Event :=
  [ Message REQUEST connectRequest; UpstreamError 0 ].

Definition fetch_refused : list Event :=
  [ Message REQUEST getRequest;
    OriginError 0 (ascii_bytes "connect ECONNREFUSED") ].

End Offshore.

(** ** Vocabulary for the properties of the byte stream, the send queue,
       the scheduler and the tunnel *)

Module Stream.

Import Protocol.

(** The frame a decoded message was cut from: its payload behind the five
    header bytes that announce it. *)
Definition reframe (m : Message) : Buffer :=
  wire_frame (byte_of_Z (type m)) (payload m).

(** [encodeMessage] takes the item. *)
Definition encoded (item : Sender.Item) : Prop :=
  exists framed : Buffer,
    encodeMessage (Sender.type item) (Sender.payload item) = inr framed.

(** An enqueue promise that is resolved belongs to an item that was
    encoded. *)
Definition settled_well (io : Sender.Item * Sender.Outcome) : Prop :=
  snd io = Sender.Resolved -> encoded (fst io).

(** A frame the offshore dispatcher hands to the link is a RESPONSE. *)
Definition response_only (a : Offshore.Action) : Prop :=
  match a with
  | Offshore.Enqueue t _ | Offshore.SendMessage t _ => t = RESPONSE
  | _ => True
  end.

(** The scheduler's flag and its worker agree: [processing] is set exactly
    while one transaction is suspended in [processNext]. *)
Definition one_worker (s : Ship.State) : Prop :=
  (List.length (Ship.transactions (Ship.sends s))
   + List.length (Ship.transactions (Ship.waits s))
   = if Ship.processing s then 1 else 0)%nat.

(** While the waiters of one event are resumed: no waiter is registered any
    more, and the transactions among the sends and the waiters still to be
    resumed are what the flag says. *)
Definition resuming (s : Ship.State) (ks : list Ship.Continuation) : Prop :=
  Ship.waits s = [] /\
  (List.length (Ship.transactions (Ship.sends s))
   + List.length (Ship.transactions ks)
   = if Ship.processing s then 1 else 0)%nat.

(** Nothing is queued or in flight on a send queue. *)
Definition drained (q : Sender.MessageSendQueue) : Prop :=
  Sender.queue q = [] /\ Sender.inFlight q = [].

(** The frames a send queue wrote after the events [before], by the end of
    the events [during]. *)
Definition written_during (before during : list Sender.Event) : list Buffer :=
  skipn (List.length (Sender.written (Sender.run before)))
        (Sender.written (Sender.run (before ++ during))).

(** The items of the payloads [ds] enqueued with type [t]. *)
Definition items (t : Z) (ds : list Buffer) : list Sender.Item :=
  map (fun d => Sender.mkItem t (IsBuffer d)) ds.

(** The ["message"] events of the dispatcher for decoded messages. *)
Definition deliver (ms : list Message) : list Offshore.Event :=
  map (fun m => Offshore.Message (type m) (payload m)) ms.

(** The callbacks of one CONNECT on a link whose send succeeds: the
    server's ["connect"] event, the send of the request resolving, and the
    reply [resp] arriving. *)
Definition handshake (c : nat) (raw head resp : Buffer) : list Ship.Event :=
  [ Ship.HttpConnect c raw head;
    Ship.SendSettled 0 true;
    Ship.Messages [mkMessage RESPONSE resp] ].

(** The callbacks of one CONNECT up to its tunnel: the handshake and, when
    bytes were read from the client together with the CONNECT, the send of
    those bytes resolving. *)
Definition tunnel_setup (c : nat) (raw head resp : Buffer) : list Ship.Event :=
  handshake c raw head resp
  ++ (if blength head =? 0 then [] else [Ship.SendSettled 0 true]).

(** The same handshake, the send of those bytes being rejected. *)
Definition head_rejected (c : nat) (raw head resp : Buffer) : list Ship.Event :=
  handshake c raw head resp ++ [Ship.SendSettled 0 false].

(** A tunnel stands on the ship for client socket 7. *)
Definition ship_in_tunnel : Ship.State :=
  Ship.run true (fun _ => true)
    [ Ship.HttpConnect 7 Ship.connectRequest [];
      Ship.SendSettled 0 true;
      Ship.Messages [mkMessage RESPONSE Ship.connectionEstablished] ].

(** A tunnel stands on the offshore, to upstream socket 0. *)
Definition offshore_in_tunnel : Offshore.State :=
  Offshore.run Offshore.connectPort (fun _ => false) (fun _ => [])
    [ Offshore.Message REQUEST Offshore.connectRequest;
      Offshore.UpstreamConnected 0 ].

End Stream.

(** ** protocol.js: the promise of [sendMessage] *)

Module SendMessage.

Import Protocol.

(** Why the promise was rejected. *)
Inductive Reason :=
| SocketError (err : string)
    (* the error of the socket's ["error"] event *)
| ClosedBeforeWrite
    (* [new Error("socket closed before write completed")] *)
| WriteError (err : string).
    (* the error given to the callback of [socket.write] *)

Inductive Settlement :=
| Resolved
| Rejected (why : Reason).

(** One call: what [socket.write] returned, the listeners the call has on
    the socket, and the state of the promise it returned. *)
Record Send := mkSend {
  ok : bool;                     (* [const ok = socket.write(...)] *)
  onError : bool;                (* [socket.once("error", onError)] stands *)
  onClose : bool;                (* [socket.once("close", onClose)] stands *)
  onDrain : bool;                (* [socket.once("drain", onDrain)] stands *)
  outcome : option Settlement    (* [None]: the promise is pending *)
}.

(** [cleanup()]. *)
Definition cleanup (p : Send) : Send :=
  mkSend (ok p) false false false (outcome p).

(** [resolve()] and [reject(e)]: a promise that is settled stays as it
    is. *)
Definition settle (o : Settlement) (p : Send) : Send :=
  match outcome p with
  | Some _ => p
  | None => mkSend (ok p) (onError p) (onClose p) (onDrain p) (Some o)
  end.

(** [sendMessage(socket, messageType, payload)] up to its return, on a
    socket whose [write] returns [ok]: the exception of [encodeMessage],
    thrown before any promise is made, or the frame given to [socket.write]
    in one call, and the promise with its listeners. *)
Definition sendMessage (ok : bool) (messageType : Z) (payload : jsarg)
  : jserror + (Buffer * Send) :=
  match encodeMessage messageType payload with
  | inl e => inl e
  | inr framed => inr (framed, mkSend ok true true (negb ok) None)
  end.

(** What the socket can do to a pending send. *)
Inductive Event :=
| Error (err : string)
    (* the socket emits ["error"] *)
| Close
    (* the socket emits ["close"] *)
| Drain
    (* the socket emits ["drain"] *)
| Written (err : option string).
    (* the callback given to [socket.write] runs *)

Definition step (p : Send) (e : Event) : Send :=
  match e with
  | Error err =>
      if onError p then settle (Rejected (SocketError err)) (cleanup p) else p
  | Close =>
      if onClose p then settle (Rejected ClosedBeforeWrite) (cleanup p) else p
  | Drain =>
      if onDrain p then settle Resolved (cleanup p) else p
  | Written (Some err) => settle (Rejected (WriteError err)) (cleanup p)
  | Written None =>
      if negb (ok p) then p else settle Resolved (cleanup p)
  end.

(** What an event settles a pending send with, if it does: the write
    callback resolves a send that met no backpressure, ["drain"] one that
    did. *)
Definition settles (ok : bool) (e : Event) : option Settlement :=
  match e with
  | Error err => Some (Rejected (SocketError err))
  | Close => Some (Rejected ClosedBeforeWrite)
  | Drain => if ok then None else Some Resolved
  | Written (Some err) => Some (Rejected (WriteError err))
  | Written None => if ok then Some Resolved else None
  end.

(** The first settlement a sequence of events brings. *)
Fixpoint first_settlement (ok : bool) (events : list Event) : option Settlement :=
  match events with
  | [] => None
  | e :: events' =>
      match settles ok e with
      | Some o => Some o
      | None => first_settlement ok events'
      end
  end.

End SendMessage.

(** ** ship_proxy.js: [serializeHttpRequest] and [parseRawHttpResponse] *)

Module Http.

Import Protocol Text.

(** The value of a header in [req.headers] and in its copy. *)
Inductive HeaderValue :=
| Str (s : Buffer)          (* a string *)
| Arr (vs : list Buffer)    (* an array of strings *)
| Num (n : nat)             (* a number: [Buffer.byteLength(body)] *)
| Undefined.                (* [undefined] or [null] *)

(** A headers object, as [Object.entries] lists it.  The names the code
    adds are no array indices, so a name it adds comes last. *)
Definition Headers := list (Buffer * HeaderValue).

(** [headers[k]]. *)
Fixpoint get (k : Buffer) (h : Headers) : option HeaderValue :=
  match h with
  | [] => None
  | (k', v) :: h' => if same k k' then Some v else get k h'
  end.

(** [headers[k] = v]. *)
Fixpoint set (k : Buffer) (v : HeaderValue) (h : Headers) : Headers :=
  match h with
  | [] => [(k, v)]
  | (k', v') :: h' =>
      if same k k' then (k', v) :: h' else (k', v') :: set k v h'
  end.

(** [delete headers[k]]. *)
Definition delete (k : Buffer) (h : Headers) : Headers :=
  filter (fun kv => negb (same k (fst kv))) h.

(** Whether [headers[k]] is truthy. *)
Definition truthy (v : option HeaderValue) : bool :=
  match v with
  | Some (Str s) => negb (blength s =? 0)
  | Some (Arr _) => true
  | Some (Num n) => negb (Nat.eqb n 0)
  | Some Undefined | None => false
  end.

(** What the server hands to its request listener, as far as
    [serializeHttpRequest] reads it. *)
Record IncomingMessage := mkIncoming {
  method : Buffer;
  url : Buffer;
  httpVersion : Buffer;
  headers : Headers
}.

(** The [headers] object of [serializeHttpRequest] when its lines are
    built. *)
Definition outgoingHeaders (req : IncomingMessage) (body : Buffer) : Headers :=
  let h0 := headers req in
  let h1 :=
    if negb (truthy (get (ascii_bytes "host") h0)) then
      match get (ascii_bytes ":authority") (headers req) with
      | Some authority =>
          if truthy (Some authority)
          then set (ascii_bytes "host") authority h0
          else h0
      | None => h0
      end
    else h0 in
  let h2 :=
    if 0 <? blength body
    then set (ascii_bytes "content-length") (Num (List.length body)) h1
    else set (ascii_bytes "content-length") (Str (ascii_bytes "0")) h1 in
  delete (ascii_bytes "transfer-encoding") h2.

(** The texts a value is printed as, one per header line. *)
Definition printed (v : HeaderValue) : list Buffer :=
  match v with
  | Str s => [s]
  | Arr vs => vs
  | Num n => [decimal n]
  | Undefined => []
  end.

(** The loop that builds [headerLines]. *)
Definition headerLinesOf (h : Headers) : list Buffer :=
  flat_map (fun kv =>
              map (fun v => fst kv ++ ascii_bytes ": " ++ v) (printed (snd kv)))
           h.

(** [serializeHttpRequest(req, body)]. *)
Definition serializeHttpRequest (req : IncomingMessage) (body : Buffer) : Buffer :=
  let path := if blength (url req) =? 0 then ascii_bytes "/" else url req in
  let version := ascii_bytes "HTTP/" ++ httpVersion req in
  let startLine :=
    method req ++ ascii_bytes " " ++ path ++ ascii_bytes " " ++ version in
  let headerLines := headerLinesOf (outgoingHeaders req body) in
  let head :=
    startLine ++ CRLF ++ Offshore.join CRLF headerLines ++ CRLF ++ CRLF in
  head ++ body.

(** Whether no character of the text is a line terminator, which [.] does
    not match: LF, CR, U+2028, U+2029. *)
Fixpoint no_line_terminator (text : Buffer) : bool :=
  match text with
  | [] => true
  | b0 :: r0 =>
      negb (Z_of_byte b0 =? 10) && negb (Z_of_byte b0 =? 13)
      && negb match r0 with
              | b1 :: b2 :: _ =>
                  (Z_of_byte b0 =? 226) && (Z_of_byte b1 =? 128)
                  && ((Z_of_byte b2 =? 168) || (Z_of_byte b2 =? 169))
              | _ => false
              end
      && no_line_terminator r0
  end.

(** The regular expression [parseRawHttpResponse] runs on the status line:
    [HTTP/], a digit, a dot, a digit, [\s+], three digits (captured as
    [m[1]]), [\s*], and any characters but line terminators (captured as
    [m[2]]) up to the end of the text.  The result is [Number(m[1])] and
    [m[2]] when the line matches.  A digit is no white space, so [\s+] takes
    the longest run; and when what follows the longest run of [\s*] holds a
    line terminator, so does what follows any shorter run, and the end is
    not reached. *)
Definition statusLineMatch (statusLine : Buffer) : option (nat * Buffer) :=
  match statusLine with
  | h :: t1 :: t2 :: p :: slash :: d1 :: dot :: d2 :: rest =>
      if (Z_of_byte h =? 72) && (Z_of_byte t1 =? 84) && (Z_of_byte t2 =? 84)
         && (Z_of_byte p =? 80) && (Z_of_byte slash =? 47)
         && Ship.is_digit d1 && (Z_of_byte dot =? 46) && Ship.is_digit d2
      then
        match Ship.skip_space rest with
        | None => None
        | Some rest' =>
            match Ship.skip_spaces (List.length rest') rest' with
            | c1 :: c2 :: c3 :: rest'' =>
                if Ship.is_digit c1 && Ship.is_digit c2 && Ship.is_digit c3
                then
                  let message :=
                    Ship.skip_spaces (List.length rest'') rest'' in
                  if no_line_terminator message
                  then Some (Z.to_nat (100 * (Z_of_byte c1 - 48)
                                       + 10 * (Z_of_byte c2 - 48)
                                       + (Z_of_byte c3 - 48)),
                             message)
                  else None
                else None
            | _ => None
            end
        end
      else None
  | _ => None
  end.

(** What [parseRawHttpResponse] returns.  The [headers] object is built
    from [headerLines]; the model keeps the lines. *)
Record ParsedResponse := mkResponse {
  statusCode : nat;
  statusMessage : Buffer;
  headerLines : list Buffer;
  body : Buffer
}.

(** [parseRawHttpResponse(buf)]. *)
Definition parseRawHttpResponse (buf : Buffer) : ParsedResponse :=
  let text := Utf8.toString buf in
  let sep := CRLF ++ CRLF in
  let idx := indexOf sep text in
  let head := match idx with
              | Some i => firstn i text
              | None => text
              end in
  let body := match idx with
              | Some i => skipn (i + List.length sep) text
              | None => []
              end in
  let lines := split CRLF head in
  let statusLine := hd [] lines in
  let headerLines := tl lines in
  let m := statusLineMatch statusLine in
  mkResponse (match m with Some (code, _) => code | None => 502%nat end)
             (match m with
              | Some (_, message) => message
              | None => ascii_bytes "Bad Gateway"
              end)
             headerLines body.

End Http.

(** ** Vocabulary for the properties of the HTTP texts *)

Module Lines.

Import Protocol Text.

(** No byte of the text is [c]. *)
Definition free_of (c : byte) (text : Buffer) : Prop :=
  Forall (fun b => Z_of_byte b <> Z_of_byte c) text.

(** A string without a carriage return. *)
Definition text_line (text : Buffer) : Prop :=
  Utf8.well_formed text /\ free_of x0d text.

(** A word of a request line: a string without a space or a carriage
    return. *)
Definition word (text : Buffer) : Prop :=
  Utf8.well_formed text /\ free_of x20 text /\ free_of x0d text.

(** A line of a head: not empty, and no carriage return. *)
Definition line (text : Buffer) : Prop :=
  text <> [] /\ free_of x0d text.

(** The line [buildRawHttpResponse] prints for a header. *)
Definition headerLine (kv : Buffer * Buffer) : Buffer :=
  fst kv ++ ascii_bytes ": " ++ snd kv.

(** A header whose name and printed values are strings without a carriage
    return. *)
Definition header_text (kv : Buffer * Http.HeaderValue) : Prop :=
  text_line (fst kv) /\ Forall text_line (Http.printed (snd kv)).

(** The request target [serializeHttpRequest] prints. *)
Definition target (req : Http.IncomingMessage) : Buffer :=
  if blength (Http.url req) =? 0 then ascii_bytes "/" else Http.url req.

(** Three decimal digits and the number they print. *)
Definition three_digits (n : nat) (digits : Buffer) : bool :=
  match digits with
  | [c1; c2; c3] =>
      Ship.is_digit c1 && Ship.is_digit c2 && Ship.is_digit c3
      && Nat.eqb (Z.to_nat (100 * (Z_of_byte c1 - 48)
                            + 10 * (Z_of_byte c2 - 48)
                            + (Z_of_byte c3 - 48))) n
  | _ => false
  end.

End Lines.

(** ** offshore_proxy.js: [chooseAgentAndOptions] *)

Module Origin.

Import Protocol Text.

(** The test of [chooseAgentAndOptions] for an absolute URL: the text
    begins with [http://] or [https://], in either case of the letters.  A
    path that is [undefined] is tested as the text [undefined]. *)
Definition absoluteUrl (path : option Buffer) : bool :=
  match path with
  | Some (h :: t1 :: t2 :: p :: rest) =>
      Ship.is_letter 72 h && Ship.is_letter 84 t1 && Ship.is_letter 84 t2
      && Ship.is_letter 80 p
      && (starts_with (ascii_bytes "://") rest
          || match rest with
             | s :: rest' =>
                 Ship.is_letter 83 s && starts_with (ascii_bytes "://") rest'
             | [] => false
             end)
  | _ => false
  end.

(** Whether [chooseAgentAndOptions] throws.  On an absolute URL it is
    [new URL(path)] that may throw.  On any other path the function reads
    [useHttps], which nothing declares: a ReferenceError. *)
Definition chooseAgentThrows (urlThrows : Buffer -> bool)
           (req : Offshore.ParsedRequest) : bool :=
  match Offshore.path req with
  | Some path => if absoluteUrl (Some path) then urlThrows path else true
  | None => true
  end.

(** Whether the origin fetch of the message handler throws:
    [chooseAgentAndOptions] does, or [agent.request] does. *)
Definition originThrows (urlThrows : Buffer -> bool)
           (requestThrows : Offshore.ParsedRequest -> bool)
           (req : Offshore.ParsedRequest) : bool :=
  chooseAgentThrows urlThrows req || requestThrows req.

End Origin.

(** * Properties *)

Section CodecFacts.
Import Protocol.

Lemma Z_of_byte_range (b : byte) : 0 <= Z_of_byte b <= 255.
Proof.
  unfold Z_of_byte. pose proof (Byte.to_N_bounded b). lia.
Qed.

Lemma Z_of_byte_of_Z (z : Z) : Z_of_byte (byte_of_Z z) = z mod 256.
Proof.
  unfold Z_of_byte, byte_of_Z.
  assert (Hr : 0 <= z mod 256 < 256) by (apply Z.mod_pos_bound; lia).
  destruct (Byte.of_N (Z.to_N (z mod 256))) as [b|] eqn:E.
  - apply Byte.to_of_N in E. rewrite E. lia.
  - apply Byte.of_N_None_iff in E. lia.
Qed.

Lemma byte_of_Z_of_byte (b : byte) : byte_of_Z (Z_of_byte b) = b.
Proof.
  unfold byte_of_Z. pose proof (Z_of_byte_range b) as Hr.
  rewrite Z.mod_small by lia. unfold Z_of_byte.
  rewrite N2Z.id, Byte.of_to_N. reflexivity.
Qed.

Lemma u32_be_roundtrip (n : Z) :
  0 <= n <= 4294967295 ->
  (Z.shiftr n 24 mod 256) * 2 ^ 24 + (Z.shiftr n 16 mod 256) * 2 ^ 16
  + (Z.shiftr n 8 mod 256) * 2 ^ 8 + n mod 256 = n.
Proof.
  intros Hn. rewrite !Z.shiftr_div_pow2 by lia.
  change (2 ^ 24) with 16777216. change (2 ^ 16) with 65536.
  change (2 ^ 8) with 256.
  replace (n / 16777216) with (n / 256 / 256 / 256) by (rewrite !Z.div_div by lia; reflexivity).
  replace (n / 65536) with (n / 256 / 256) by (rewrite !Z.div_div by lia; reflexivity).
  assert (H3 : n / 256 / 256 / 256 < 256).
  { apply Z.div_lt_upper_bound; [lia|]. apply Z.div_lt_upper_bound; [lia|].
    apply Z.div_lt_upper_bound; lia. }
  assert (H0 : 0 <= n / 256 / 256 / 256) by (repeat apply Z.div_pos; lia).
  rewrite (Z.mod_small (n / 256 / 256 / 256)) by lia.
  pose proof (Z.div_mod n 256 ltac:(lia)).
  pose proof (Z.div_mod (n / 256) 256 ltac:(lia)).
  pose proof (Z.div_mod (n / 256 / 256) 256 ltac:(lia)).
  lia.
Qed.


Lemma blength_nonneg (b : Buffer) : 0 <= blength b.
Proof. unfold blength. lia. Qed.

Lemma blength_app (a b : Buffer) : blength (a ++ b) = blength a + blength b.
Proof. unfold blength. rewrite length_app. lia. Qed.

Lemma readUInt32BE_range (buf : Buffer) (n : Z) :
  readUInt32BE buf = Some n -> 0 <= n <= 4294967295.
Proof.
  destruct buf as [|b0 [|b1 [|b2 [|b3 buf]]]]; try discriminate.
  cbn [readUInt32BE]. intros [= <-].
  pose proof (Z_of_byte_range b0). pose proof (Z_of_byte_range b1).
  pose proof (Z_of_byte_range b2). pose proof (Z_of_byte_range b3).
  change (2 ^ 24) with 16777216. change (2 ^ 16) with 65536.
  change (2 ^ 8) with 256. lia.
Qed.

Lemma readUInt32BE_app (buf chunk : Buffer) (n : Z) :
  readUInt32BE buf = Some n -> readUInt32BE (buf ++ chunk) = Some n.
Proof.
  destruct buf as [|b0 [|b1 [|b2 [|b3 buf]]]]; try discriminate.
  intros H. exact H.
Qed.

Lemma readUInt8_app (buf chunk : Buffer) (i : nat) (n : Z) :
  readUInt8 buf i = Some n -> readUInt8 (buf ++ chunk) i = Some n.
Proof.
  unfold readUInt8. destruct (nth_error buf i) as [b|] eqn:E; try discriminate.
  intros H. rewrite nth_error_app1 by (apply nth_error_Some; congruence).
  rewrite E. exact H.
Qed.

Lemma header_readable (buf : Buffer) :
  HEADER_LENGTH <= blength buf ->
  exists n t, readUInt32BE buf = Some n /\ readUInt8 buf 4 = Some t.
Proof.
  unfold HEADER_LENGTH, blength.
  destruct buf as [|b0 [|b1 [|b2 [|b3 [|b4 buf]]]]]; cbn [List.length]; try lia.
  intros _. eexists. eexists. split; reflexivity.
Qed.

(** The buffer kept after a frame is the rest of the buffer in both branches
    of the conditional. *)
Lemma rest_after_frame (buf : Buffer) (total : Z) :
  0 <= total <= blength buf ->
  (if blength buf =? total then [] else subarray_from buf total)
  = skipn (Z.to_nat total) buf.
Proof.
  intros H. unfold subarray_from. destruct (Z.eqb_spec (blength buf) total) as [E|E].
  - symmetry. apply skipn_all2. unfold blength in E. lia.
  - reflexivity.
Qed.

(** More fuel than the buffer has bytes never changes the loop's result. *)
Lemma parseLoop_fuel (f1 : nat) :
  forall (f2 : nat) (buf : Buffer),
    (List.length buf < f1)%nat -> (List.length buf < f2)%nat ->
    parseLoop f1 buf = parseLoop f2 buf.
Proof.
  induction f1 as [|f1 IH]; intros f2 buf H1 H2; [lia|].
  destruct f2 as [|f2]; [lia|].
  cbn [parseLoop].
  destruct (HEADER_LENGTH <=? blength buf) eqn:Eh; [|reflexivity].
  destruct (readUInt32BE buf) as [n|] eqn:En; [|reflexivity].
  destruct (readUInt8 buf 4) as [t|]; [|reflexivity].
  cbv zeta. destruct (blength buf <? HEADER_LENGTH + n) eqn:Et; [reflexivity|].
  apply Z.leb_le in Eh. apply Z.ltb_ge in Et.
  pose proof (readUInt32BE_range _ _ En) as Hn.
  unfold HEADER_LENGTH in *.
  rewrite rest_after_frame by lia.
  rewrite (IH f2); [reflexivity| |];
    rewrite length_skipn; unfold blength in *; lia.
Qed.

Lemma parse_short (buf : Buffer) :
  blength buf < HEADER_LENGTH -> _parseAvailableFrames buf = ([], buf).
Proof.
  intros H. unfold _parseAvailableFrames. cbn [parseLoop].
  apply Z.leb_gt in H. rewrite H. reflexivity.
Qed.

Lemma parse_incomplete (buf : Buffer) (n : Z) :
  readUInt32BE buf = Some n -> blength buf < HEADER_LENGTH + n ->
  _parseAvailableFrames buf = ([], buf).
Proof.
  intros En H. unfold _parseAvailableFrames. cbn [parseLoop].
  destruct (HEADER_LENGTH <=? blength buf); [|reflexivity].
  rewrite En. destruct (readUInt8 buf 4); [|reflexivity].
  cbv zeta. apply Z.ltb_lt in H. rewrite H. reflexivity.
Qed.

Lemma parse_complete (buf : Buffer) (n t : Z) :
  readUInt32BE buf = Some n -> readUInt8 buf 4 = Some t ->
  HEADER_LENGTH + n <= blength buf ->
  _parseAvailableFrames buf =
  (mkMessage t (subarray buf HEADER_LENGTH (HEADER_LENGTH + n))
     :: fst (_parseAvailableFrames (skipn (Z.to_nat (HEADER_LENGTH + n)) buf)),
   snd (_parseAvailableFrames (skipn (Z.to_nat (HEADER_LENGTH + n)) buf))).
Proof.
  intros En Et H. pose proof (readUInt32BE_range _ _ En) as Hn.
  unfold _parseAvailableFrames at 1. cbn [parseLoop].
  assert (Hh : HEADER_LENGTH <= blength buf) by (unfold HEADER_LENGTH in *; lia).
  apply Z.leb_le in Hh. rewrite Hh, En, Et. cbv zeta.
  apply Z.ltb_ge in H. rewrite H. apply Z.ltb_ge in H.
  unfold HEADER_LENGTH in *.
  rewrite rest_after_frame by lia.
  set (rest := skipn (Z.to_nat (5 + n)) buf).
  rewrite (parseLoop_fuel _ (S (List.length rest)) rest).
  - fold (_parseAvailableFrames rest).
    destruct (_parseAvailableFrames rest). reflexivity.
  - subst rest. rewrite length_skipn. unfold blength in *. lia.
  - lia.
Qed.


(** The loop is incremental: parsing a buffer, then parsing what it left
    followed by more bytes, emits what parsing everything at once emits. *)
Lemma parse_app (chunk : Buffer) :
  forall (k : nat) (buf : Buffer),
    (List.length buf <= k)%nat ->
    _parseAvailableFrames (buf ++ chunk) =
    (fst (_parseAvailableFrames buf)
       ++ fst (_parseAvailableFrames (snd (_parseAvailableFrames buf) ++ chunk)),
     snd (_parseAvailableFrames (snd (_parseAvailableFrames buf) ++ chunk))).
Proof.
  induction k as [|k IH]; intros buf Hk.
  - destruct buf; [|cbn in Hk; lia]. rewrite (parse_short []) by (cbv; reflexivity).
    cbn [fst snd app]. destruct (_parseAvailableFrames chunk); reflexivity.
  - destruct (Z.lt_ge_cases (blength buf) HEADER_LENGTH) as [Hs|Hs].
    { rewrite (parse_short buf Hs). cbn [fst snd app].
      destruct (_parseAvailableFrames (buf ++ chunk)); reflexivity. }
    destruct (header_readable buf Hs) as (n & t & En & Et).
    destruct (Z.lt_ge_cases (blength buf) (HEADER_LENGTH + n)) as [Hi|Hc].
    { rewrite (parse_incomplete buf n En Hi). cbn [fst snd app].
      destruct (_parseAvailableFrames (buf ++ chunk)); reflexivity. }
    pose proof (readUInt32BE_range _ _ En) as Hn.
    rewrite (parse_complete buf n t En Et Hc). cbn [fst snd].
    rewrite (parse_complete (buf ++ chunk) n t
               (readUInt32BE_app _ _ _ En) (readUInt8_app _ _ _ _ Et))
      by (rewrite blength_app; pose proof (blength_nonneg chunk); lia).
    unfold HEADER_LENGTH, blength in *.
    assert (Hsk : skipn (Z.to_nat (5 + n)) (buf ++ chunk)
                  = skipn (Z.to_nat (5 + n)) buf ++ chunk).
    { rewrite skipn_app.
      replace (Z.to_nat (5 + n) - List.length buf)%nat with 0%nat by lia.
      reflexivity. }
    assert (Hsub : subarray (buf ++ chunk) 5 (5 + n) = subarray buf 5 (5 + n)).
    { unfold subarray. rewrite skipn_app, firstn_app.
      rewrite length_skipn.
      replace (Z.to_nat (5 + n - 5) - (List.length buf - Z.to_nat 5))%nat
        with 0%nat by lia.
      rewrite firstn_O, app_nil_r. reflexivity. }
    rewrite Hsk, Hsub, IH by (rewrite length_skipn; lia).
    reflexivity.
Qed.

(** What the loop leaves holds no complete frame. *)
Lemma parse_rest_stable (buf : Buffer) :
  _parseAvailableFrames (snd (_parseAvailableFrames buf))
  = ([], snd (_parseAvailableFrames buf)).
Proof.
  pose proof (parse_app [] (List.length buf) buf (le_n _)) as H.
  rewrite !app_nil_r in H.
  destruct (_parseAvailableFrames buf) as [ms rest] eqn:E. cbn [fst snd] in *.
  destruct (_parseAvailableFrames rest) as [ms' rest'] eqn:E'. cbn [fst snd] in *.
  injection H as Hm Hr. subst rest'.
  assert (ms' = []) as ->; [|reflexivity].
  apply (f_equal (@List.length _)) in Hm. rewrite length_app in Hm.
  destruct ms'; [reflexivity|cbn in Hm; lia].
Qed.

(** One well-formed frame at the head of the buffer is emitted with its type
    byte as it is and its payload unchanged. *)
Lemma parse_wire_frame (ty : byte) (p rest : Buffer) :
  blength p <= 4294967295 ->
  _parseAvailableFrames (wire_frame ty p ++ rest) =
  (mkMessage (Z_of_byte ty) p :: fst (_parseAvailableFrames rest),
   snd (_parseAvailableFrames rest)).
Proof.
  intros Hp. pose proof (blength_nonneg p) as Hp0.
  assert (En : readUInt32BE (wire_frame ty p ++ rest) = Some (blength p)).
  { unfold wire_frame. cbn [app readUInt32BE]. rewrite !Z_of_byte_of_Z.
    f_equal. apply u32_be_roundtrip. lia. }
  assert (Et : readUInt8 (wire_frame ty p ++ rest) 4 = Some (Z_of_byte ty))
    by reflexivity.
  assert (Hl : blength (wire_frame ty p) = HEADER_LENGTH + blength p).
  { unfold wire_frame, blength, HEADER_LENGTH. rewrite length_app. cbn [List.length]. lia. }
  rewrite (parse_complete _ _ _ En Et)
    by (rewrite blength_app, Hl; pose proof (blength_nonneg rest); lia).
  assert (Hsk : skipn (Z.to_nat (HEADER_LENGTH + blength p)) (wire_frame ty p ++ rest)
                = rest).
  { rewrite skipn_app, skipn_all2 by (unfold blength in *; lia).
    replace (Z.to_nat (HEADER_LENGTH + blength p) - List.length (wire_frame ty p))%nat
      with 0%nat by (unfold blength in *; lia).
    reflexivity. }
  assert (Hsub : subarray (wire_frame ty p ++ rest) HEADER_LENGTH
                   (HEADER_LENGTH + blength p) = p).
  { unfold subarray, wire_frame, HEADER_LENGTH.
    replace (5 + blength p - 5) with (blength p) by lia.
    change (Z.to_nat 5) with 5%nat. cbn [app skipn].
    unfold blength. rewrite Nat2Z.id, firstn_app, firstn_all, Nat.sub_diag.
    rewrite firstn_O, app_nil_r. reflexivity. }
  rewrite Hsk, Hsub. reflexivity.
Qed.

(** [push] on an open decoder parses the old buffer followed by the chunk. *)
Lemma push_open (d : FrameDecoder) (chunk : Buffer) :
  _closed d = false ->
  push d (IsBuffer chunk) =
  inr ({| _buffer := snd (_parseAvailableFrames (_buffer d ++ chunk));
          _closed := false |},
       fst (_parseAvailableFrames (_buffer d ++ chunk))).
Proof.
  intros Hc. unfold push. rewrite Hc.
  assert (Hb : (if blength (_buffer d) =? 0 then chunk else _buffer d ++ chunk)
               = _buffer d ++ chunk).
  { destruct (Z.eqb_spec (blength (_buffer d)) 0) as [E|E]; [|reflexivity].
    destruct (_buffer d); [reflexivity|discriminate E]. }
  rewrite Hb. destruct (_parseAvailableFrames (_buffer d ++ chunk)). reflexivity.
Qed.

(** Pushing chunks one by one emits what one parse of their concatenation
    emits, and leaves the same buffer. *)
Lemma pushAll_concat (chunks : list Buffer) :
  forall d : FrameDecoder,
    _closed d = false ->
    _parseAvailableFrames (_buffer d) = ([], _buffer d) ->
    pushAll d chunks =
    inr ({| _buffer := snd (_parseAvailableFrames (_buffer d ++ List.concat chunks));
            _closed := false |},
         fst (_parseAvailableFrames (_buffer d ++ List.concat chunks))).
Proof.
  induction chunks as [|c chunks IH]; intros d Hc Hs.
  - cbn [pushAll List.concat]. rewrite app_nil_r, Hs. destruct d as [b cl].
    cbn in *. subst cl. reflexivity.
  - cbn [pushAll List.concat]. rewrite (push_open d c Hc).
    rewrite IH by (cbn [_closed _buffer]; auto using parse_rest_stable).
    cbn [_buffer]. rewrite app_assoc.
    rewrite (parse_app (List.concat chunks) _ (_buffer d ++ c) (le_n _)).
    reflexivity.
Qed.

(** What a successful [encodeMessage] returned. *)
Lemma encodeMessage_inr (t : Z) (p frame : Buffer) :
  encodeMessage t (IsBuffer p) = inr frame ->
  (t = REQUEST \/ t = RESPONSE) /\ blength p <= 4294967295
  /\ frame = wire_frame (byte_of_Z t) p.
Proof.
  unfold encodeMessage, writeUInt32BE, writeUInt8, REQUEST, RESPONSE.
  destruct (Z.eqb_spec t 0) as [->|H0]; cbn [negb andb];
    [|destruct (Z.eqb_spec t 1) as [->|H1]; cbn [negb]; [|discriminate]].
  all: destruct (blength p <? 0) eqn:E1; [discriminate|];
    destruct (4294967295 <? blength p) eqn:E2; [discriminate|];
    cbn [orb Z.ltb Z.compare];
    intros H; apply Z.ltb_ge in E2;
    split; [auto|split; [exact E2|]];
    apply (f_equal (fun r : jserror + Buffer =>
                      match r with inr b => b | inl _ => [] end)) in H;
    symmetry; exact H.
Qed.

Lemma encodeMessage_ok (t : Z) (p : Buffer) :
  t = REQUEST \/ t = RESPONSE -> blength p <= 4294967295 ->
  encodeMessage t (IsBuffer p) = inr (wire_frame (byte_of_Z t) p).
Proof.
  intros Ht Hp. pose proof (blength_nonneg p) as Hp0.
  unfold encodeMessage, writeUInt32BE, writeUInt8.
  apply Z.ltb_ge in Hp, Hp0. rewrite Hp, Hp0.
  destruct Ht as [-> | ->]; reflexivity.
Qed.


Lemma Z_of_byte_type (t : Z) : 0 <= t <= 255 -> Z_of_byte (byte_of_Z t) = t.
Proof. intros H. rewrite Z_of_byte_of_Z. apply Z.mod_small. lia. Qed.

Lemma parse_encoded (M : list Message) (frames : list Buffer) :
  Forall2 encodes M frames ->
  _parseAvailableFrames (List.concat frames) = (M, []).
Proof.
  induction 1 as [|m f M frames Hm _ IH].
  - reflexivity.
  - destruct m as [t p]. apply encodeMessage_inr in Hm.
    cbn [type payload] in Hm. destruct Hm as (Ht & Hp & ->).
    cbn [List.concat]. rewrite parse_wire_frame, IH by exact Hp. cbn [fst snd].
    rewrite Z_of_byte_type by (unfold REQUEST, RESPONSE in Ht; lia).
    reflexivity.
Qed.

(** C2. Round trip: for a type in {0,1} and a payload of at most 2^32 - 1
    bytes (the frame format's bound, empty allowed), [encodeMessage] returns
    a frame, and pushing that frame as one chunk into a fresh decoder emits
    exactly the one message [{type, payload}], payload unchanged, and leaves
    the decoder's buffer empty. *)
Theorem roundtrip_single_chunk (t : Z) (p : Buffer) :
  t = REQUEST \/ t = RESPONSE ->
  blength p <= 4294967295 ->
  exists frame : Buffer,
    encodeMessage t (IsBuffer p) = inr frame /\
    push newFrameDecoder (IsBuffer frame)
    = inr (newFrameDecoder, [mkMessage t p]).
Proof.
  intros Ht Hp. exists (wire_frame (byte_of_Z t) p). split.
  - apply encodeMessage_ok; assumption.
  - rewrite push_open by reflexivity. cbn [_buffer newFrameDecoder app].
    rewrite <- (app_nil_r (wire_frame _ p)), parse_wire_frame by exact Hp.
    rewrite Z_of_byte_type by (unfold REQUEST, RESPONSE in Ht; lia).
    reflexivity.
Qed.

Lemma roundtrip_single_chunk_witness :
  (RESPONSE = REQUEST \/ RESPONSE = RESPONSE) /\
  blength [x48; x69] <= 4294967295 /\
  exists frame : Buffer,
    encodeMessage RESPONSE (IsBuffer [x48; x69]) = inr frame /\
    push newFrameDecoder (IsBuffer frame)
    = inr (newFrameDecoder, [mkMessage RESPONSE [x48; x69]]).
Proof.
  assert (H1 : RESPONSE = REQUEST \/ RESPONSE = RESPONSE) by (right; reflexivity).
  assert (H2 : blength [x48; x69] <= 4294967295) by (cbv; discriminate).
  split; [exact H1|split; [exact H2|]].
  exact (roundtrip_single_chunk RESPONSE [x48; x69] H1 H2).
Defined.

(** Any split of the frames of [M], pushed chunk by chunk into a new
    decoder, is decoded to [M]. *)
Lemma pushAll_encoded (M : list Message) (frames chunks : list Buffer) :
  Forall2 encodes M frames ->
  List.concat chunks = List.concat frames ->
  pushAll newFrameDecoder chunks = inr (newFrameDecoder, M).
Proof.
  intros HM Hc.
  rewrite pushAll_concat by reflexivity.
  cbn [_buffer newFrameDecoder app]. rewrite Hc, (parse_encoded M frames HM).
  reflexivity.
Qed.

(** C3. Chunk invariance: when the messages [M] encode to the frames
    [frames], and [chunks] is any split of the concatenated frames (empty
    chunks allowed), pushing the chunks in order into a fresh decoder emits
    exactly [M] in order and leaves the buffer empty.  With one chunk this is
    decode(encode(a) ++ encode(b)) = [a, b]. *)
Theorem chunk_invariance (M : list Message) (frames chunks : list Buffer) :
  Forall2 encodes M frames ->
  List.concat chunks = List.concat frames ->
  pushAll newFrameDecoder chunks = inr (newFrameDecoder, M).
Proof. exact (pushAll_encoded M frames chunks). Qed.

Lemma chunk_invariance_witness :
  Forall2 encodes
    [mkMessage REQUEST [x47; x45; x54]; mkMessage RESPONSE []]
    [[x00; x00; x00; x03; x00; x47; x45; x54]; [x00; x00; x00; x00; x01]] /\
  List.concat [[x00; x00]; []; [x00; x03; x00; x47]; [x45; x54; x00; x00; x00];
               [x00]; [x01]]
  = List.concat [[x00; x00; x00; x03; x00; x47; x45; x54];
                 [x00; x00; x00; x00; x01]] /\
  pushAll newFrameDecoder
    [[x00; x00]; []; [x00; x03; x00; x47]; [x45; x54; x00; x00; x00]; [x00]; [x01]]
  = inr (newFrameDecoder,
         [mkMessage REQUEST [x47; x45; x54]; mkMessage RESPONSE []]).
Proof.
  assert (H1 : Forall2 encodes
                 [mkMessage REQUEST [x47; x45; x54]; mkMessage RESPONSE []]
                 [[x00; x00; x00; x03; x00; x47; x45; x54];
                  [x00; x00; x00; x00; x01]])
    by (repeat constructor).
  split; [exact H1|]. split; [reflexivity|].
  exact (chunk_invariance _ _ _ H1 eq_refl).
Defined.


Lemma wire_frame_length (ty : byte) (p : Buffer) :
  blength (wire_frame ty p) = HEADER_LENGTH + blength p.
Proof.
  unfold wire_frame, blength, HEADER_LENGTH. rewrite length_app.
  cbn [List.length]. lia.
Qed.

Lemma wire_frame_header (ty : byte) (p : Buffer) :
  blength p <= 4294967295 ->
  readUInt32BE (wire_frame ty p) = Some (blength p).
Proof.
  intros Hp. pose proof (blength_nonneg p).
  unfold wire_frame. cbn [app readUInt32BE]. rewrite !Z_of_byte_of_Z.
  f_equal. apply u32_be_roundtrip. lia.
Qed.

(** C8. [encodeMessage] on a type in {0,1} and a payload of at most
    2^32 - 1 bytes returns one buffer of 5 + payload.length bytes whose
    first four bytes read back, big-endian, as the payload length, whose
    fifth byte is the type and whose remaining bytes are the payload; every
    frame it returns at all has this layout; and a type other than 0 and 1
    makes it throw RangeError("invalid messageType"). *)
Theorem encodeMessage_layout (t : Z) (p : Buffer) :
  (t = REQUEST \/ t = RESPONSE -> blength p <= 4294967295 ->
   exists frame : Buffer, encodeMessage t (IsBuffer p) = inr frame) /\
  (forall frame : Buffer,
      encodeMessage t (IsBuffer p) = inr frame ->
      blength frame = 5 + blength p /\
      readUInt32BE frame = Some (blength p) /\
      readUInt8 frame 4 = Some t /\
      subarray_from frame HEADER_LENGTH = p) /\
  (t <> REQUEST -> t <> RESPONSE ->
   encodeMessage t (IsBuffer p) = inl (RangeError "invalid messageType")).
Proof.
  split; [|split].
  - intros Ht Hp. eexists. apply encodeMessage_ok; assumption.
  - intros frame H. apply encodeMessage_inr in H. destruct H as (Ht & Hp & ->).
    split; [apply wire_frame_length|]. split; [apply wire_frame_header, Hp|].
    split; [|reflexivity].
    unfold wire_frame, readUInt8. cbn [app nth_error option_map].
    rewrite Z_of_byte_type by (unfold REQUEST, RESPONSE in Ht; lia).
    reflexivity.
  - intros H0 H1. unfold encodeMessage.
    apply Z.eqb_neq in H0, H1. rewrite H0, H1. reflexivity.
Qed.

Lemma encodeMessage_layout_witness :
  encodeMessage REQUEST (IsBuffer [x47; x45; x54])
  = inr [x00; x00; x00; x03; x00; x47; x45; x54] /\
  blength [x00; x00; x00; x03; x00; x47; x45; x54] = 5 + blength [x47; x45; x54] /\
  readUInt32BE [x00; x00; x00; x03; x00; x47; x45; x54] = Some 3 /\
  encodeMessage 2 (IsBuffer [x47; x45; x54])
  = inl (RangeError "invalid messageType").
Proof.
  pose proof (encodeMessage_layout REQUEST [x47; x45; x54]) as (_ & Hl & _).
  pose proof (encodeMessage_layout 2 [x47; x45; x54]) as (_ & _ & He).
  specialize (Hl _ eq_refl). destruct Hl as (Hlen & Hhdr & _).
  split; [reflexivity|]. split; [exact Hlen|]. split; [exact Hhdr|].
  apply He; unfold REQUEST, RESPONSE; discriminate.
Defined.

(** C9, as the code has it.  [close()] empties the buffer, and every later
    [push], whatever its argument, returns without an exception, emits no
    message and leaves the closed decoder as it is; so does any sequence of
    chunks pushed after close. *)
Theorem push_after_close (d : FrameDecoder) :
  _buffer (close d) = [] /\
  (forall chunk : jsarg, push (close d) chunk = inr (close d, [])) /\
  (forall chunks : list Buffer, pushAll (close d) chunks = inr (close d, [])).
Proof.
  split; [reflexivity|]. split; [reflexivity|].
  induction chunks as [|c chunks IH]; [reflexivity|].
  cbn [pushAll]. change (push (close d) (IsBuffer c)) with
    (@inr jserror _ (close d, @nil Message)).
  cbv iota beta. rewrite IH. reflexivity.
Qed.

(** C9 as stated fails: a push after [close()] raises nothing (here with the
    head of a frame buffered before the close, and the rest pushed after). *)
Lemma push_after_close_raises_nothing :
  exists d : FrameDecoder,
    push newFrameDecoder (IsBuffer [x00; x00; x00]) = inr (d, []) /\
    ~ (exists e : jserror,
          push (close d) (IsBuffer [x00; x01; x41]) = inl e).
Proof.
  eexists. split; [reflexivity|]. intros [e He]. discriminate He.
Qed.

(** C10. The decoder does not look at the type byte: for every value 0..255
    of the type byte and every payload of at most 2^32 - 1 bytes, the
    well-formed frame pushed into a fresh decoder is emitted as one message
    carrying that type and payload, with no exception; [encodeMessage]
    rejects every type other than 0 and 1. *)
Theorem decoder_accepts_any_type (t : Z) (p : Buffer) :
  0 <= t <= 255 ->
  blength p <= 4294967295 ->
  push newFrameDecoder (IsBuffer (wire_frame (byte_of_Z t) p))
  = inr (newFrameDecoder, [mkMessage t p]) /\
  (t <> REQUEST -> t <> RESPONSE ->
   encodeMessage t (IsBuffer p) = inl (RangeError "invalid messageType")).
Proof.
  intros Ht Hp. split.
  - rewrite push_open by reflexivity. cbn [_buffer newFrameDecoder app].
    rewrite <- (app_nil_r (wire_frame _ p)), parse_wire_frame by exact Hp.
    rewrite Z_of_byte_type by exact Ht. reflexivity.
  - intros H0 H1. unfold encodeMessage.
    apply Z.eqb_neq in H0, H1. rewrite H0, H1. reflexivity.
Qed.

Lemma decoder_accepts_any_type_witness :
  0 <= 255 <= 255 /\ blength [x41] <= 4294967295 /\
  push newFrameDecoder (IsBuffer [x00; x00; x00; x01; xff; x41])
  = inr (newFrameDecoder, [mkMessage 255 [x41]]) /\
  encodeMessage 255 (IsBuffer [x41]) = inl (RangeError "invalid messageType").
Proof.
  assert (H1 : 0 <= 255 <= 255) by lia.
  assert (H2 : blength [x41] <= 4294967295) by (cbv; discriminate).
  destruct (decoder_accepts_any_type 255 [x41] H1 H2) as [Hd He].
  split; [exact H1|]. split; [exact H2|]. split; [exact Hd|].
  apply He; unfold REQUEST, RESPONSE; discriminate.
Defined.

End CodecFacts.

Section SenderFacts.
Import Sender.

Lemma frames_app (a b : list Item) : frames (a ++ b) = frames a ++ frames b.
Proof.
  induction a as [|item a IH]; [reflexivity|]. cbn [app frames].
  destruct (Protocol.encodeMessage (type item) (payload item)); rewrite IH; reflexivity.
Qed.

Lemma encodable_app (a b : list Item) :
  encodable (a ++ b) = encodable a ++ encodable b.
Proof.
  induction a as [|item a IH]; [reflexivity|]. cbn [app encodable].
  destruct (Protocol.encodeMessage (type item) (payload item)); rewrite IH; reflexivity.
Qed.

Lemma frames_encodes (items : list Item) :
  Forall2 Protocol.encodes (map message_of (encodable items)) (frames items).
Proof.
  induction items as [|item items IH]; [constructor|].
  cbn [encodable frames].
  destruct (Protocol.encodeMessage (type item) (payload item)) as [e|f] eqn:E;
    [exact IH|].
  cbn [map]. constructor; [|exact IH].
  unfold Protocol.encodes, message_of. cbn [Protocol.type Protocol.payload].
  destruct item as [t [b|]]; cbn [type payload] in *; [exact E|discriminate E].
Qed.

(** The worker loop started with nothing in flight: it takes a prefix of the
    queue, writes the frames of that prefix in order, and stops either on the
    first item it could write or at the end of the queue. *)
Lemma sendLoop_spec (q : list Item) :
  forall (w : list Protocol.Buffer) (st : list (Item * Outcome)),
  exists taken : list Item,
    q = taken ++ queue (sendLoop q [] w st) /\
    written (sendLoop q [] w st) = w ++ frames taken /\
    map fst (settled (sendLoop q [] w st)) ++ inFlight (sendLoop q [] w st)
    = map fst st ++ taken /\
    sender_idle_or_one (sendLoop q [] w st).
Proof.
  induction q as [|item q IH]; intros w st.
  - exists []. cbn. rewrite !app_nil_r. repeat split. left. auto.
  - cbn [sendLoop].
    destruct (Protocol.encodeMessage (type item) (payload item)) as [e|f] eqn:E.
    + destruct (IH w (st ++ [(item, Rejected)])) as (taken & Hq & Hw & Hs & Hi).
      exists (item :: taken). cbn [app frames]. rewrite E.
      split; [f_equal; exact Hq|]. split; [exact Hw|]. split; [|exact Hi].
      rewrite Hs, map_app, <- app_assoc. reflexivity.
    + exists [item]. cbn [app frames queue written settled inFlight].
      rewrite E. repeat split. right. split; [reflexivity|]. eexists; reflexivity.
Qed.

Lemma enqueued_app (a b : list Event) :
  enqueued (a ++ b) = enqueued a ++ enqueued b.
Proof.
  induction a as [|[t p|ok] a IH]; cbn [app enqueued]; rewrite ?IH; reflexivity.
Qed.

Lemma run_snoc (events : list Event) (e : Event) :
  run (events ++ [e]) = step (run events) e.
Proof. unfold run. rewrite fold_left_app. reflexivity. Qed.

(** The invariant of every reachable queue. *)
Lemma run_invariant (events : list Event) :
  sender_idle_or_one (run events) /\
  exists taken : list Item,
    enqueued events = taken ++ queue (run events) /\
    written (run events) = frames taken /\
    map fst (settled (run events)) ++ inFlight (run events) = taken.
Proof.
  induction events as [|e events IH] using rev_ind.
  - split; [left; auto|]. exists []. auto.
  - rewrite run_snoc, enqueued_app.
    destruct IH as (Hi & taken & Hq & Hw & Hs).
    destruct (run events) as [q sending inF w st]. cbn [queue written settled inFlight] in *.
    destruct Hi as [(H1 & H2 & H3)|(H1 & item & H2)];
      cbn [isSending inFlight queue] in *; subst sending inF.
    + (* idle queue *)
      subst q. rewrite app_nil_r in Hs, Hq.
      destruct e as [t p|ok]; cbn [step enqueued app].
      * unfold enqueue, _dequeueAndSend.
        cbn [isSending queue inFlight written settled negb app].
        destruct (sendLoop_spec [mkItem t p] w st)
          as (taken' & Hq' & Hw' & Hs' & Hi').
        split; [exact Hi'|]. exists (taken ++ taken').
        rewrite frames_app, <- app_assoc, Hq, <- Hq', <- Hw, <- Hs. auto.
      * unfold settle. cbn [inFlight]. rewrite app_nil_r.
        split; [left; auto|]. exists taken.
        cbn [queue written settled inFlight]. rewrite !app_nil_r. auto.
    + (* one send in flight *)
      destruct e as [t p|ok]; cbn [step enqueued app].
      * unfold enqueue. cbn [isSending queue inFlight written settled negb].
        split.
        { right. split; [reflexivity|]. eexists; reflexivity. }
        exists taken. cbn [queue written settled inFlight].
        rewrite Hq, <- !app_assoc. auto.
      * unfold settle. cbn [inFlight queue written settled].
        set (o := if ok then Resolved else Rejected).
        destruct (sendLoop_spec q w (st ++ [(item, o)]))
          as (taken' & Hq' & Hw' & Hs' & Hi').
        split; [exact Hi'|]. exists (taken ++ taken').
        rewrite frames_app. rewrite map_app in Hs'. cbn [map fst] in Hs'.
        rewrite app_nil_r, Hs', Hw', Hs. split; [|subst w; auto].
        rewrite Hq, Hq' at 1. rewrite <- !app_assoc. reflexivity.
Qed.

(** C4. In every state a [MessageSendQueue] can reach, at most one send is
    in flight; the frames handed to the socket, each in one [socket.write]
    call, are the frames of a prefix of the enqueued items in enqueue order
    (items [encodeMessage] rejects are skipped), the rest still queued in
    order; the enqueue promises settle in that order too; and a decoder fed
    the bytes written, however the transport chunks them, emits exactly the
    enqueued messages in order, so no payload is split, interleaved or
    reordered. *)
Theorem sender_serialized (events : list Event) :
  (List.length (inFlight (run events)) <= 1)%nat /\
  exists taken : list Item,
    enqueued events = taken ++ queue (run events) /\
    written (run events) = frames taken /\
    map fst (settled (run events)) ++ inFlight (run events) = taken /\
    forall chunks : list Protocol.Buffer,
      List.concat chunks = List.concat (written (run events)) ->
      Protocol.pushAll Protocol.newFrameDecoder chunks
      = inr (Protocol.newFrameDecoder, map message_of (encodable taken)).
Proof.
  destruct (run_invariant events) as (Hi & taken & Hq & Hw & Hs).
  split.
  - destruct Hi as [(_ & -> & _)|(_ & item & ->)]; cbn; lia.
  - exists taken. repeat split; try assumption.
    intros chunks Hc. apply (pushAll_encoded _ (frames taken)).
    + apply frames_encodes.
    + rewrite Hc, Hw. reflexivity.
Qed.

End SenderFacts.

Section SchedulerFacts.
Import Protocol Text Ship.

Lemma ship_run_snoc (mode : bool) (writable : Buffer -> bool)
      (events : list Event) (e : Event) :
  run mode writable (events ++ [e]) = step mode writable (run mode writable events) e.
Proof. unfold run. rewrite fold_left_app. reflexivity. Qed.

Lemma received_app (a b : list Event) :
  received (a ++ b) = received a ++ received b.
Proof.
  induction a as [|e a IH]; [reflexivity|].
  destruct e; cbn [app received]; rewrite ?IH, ?app_assoc; reflexivity.
Qed.

Lemma answered_from_app (a b : list Event) (d : RequestItem * Completion) :
  answered_from a d -> answered_from (a ++ b) d.
Proof.
  unfold answered_from. destruct (snd d); [|trivial].
  rewrite received_app, in_app_iff. auto.
Qed.

Lemma flat_map_snoc {A B : Type} (f : A -> list B) (l : list A) (x : A) :
  flat_map f (l ++ [x]) = flat_map f l ++ f x.
Proof. rewrite flat_map_app. cbn. rewrite app_nil_r. reflexivity. Qed.

(** Running one callback on a state given by its fields. *)
Ltac exec :=
  lazy beta iota zeta delta
    [step handle enqueue processNext Ship.finally resume_resolved
     resume_rejected transactionCatch reject_item connectCatch connectReply installTunnel
     cleanup waitForSingleResponse await_send uncaughtException
     set_queue set_processing set_inTunnel set_sends set_waits
     set_tunnels set_closeOnce set_errorOnce set_immediates emit mem
     queue processing inTunnel sends waits tunnels closeOnce errorOnce
     immediates exited accepted log
     orb negb andb nth_error remove_nth fold_left existsb
     List.length Z.of_nat Z.eqb].

Lemma delivery_app (mode : bool) (writable : Buffer -> bool)
      (events more : list Event) (sent : list Action)
      (d : RequestItem * Completion) :
  delivery mode writable events sent d ->
  delivery mode writable (events ++ more) sent d.
Proof.
  unfold delivery. destruct (snd d) as [resp|]; [|trivial].
  intros (before & after & ms & -> & H). exists before, (after ++ more), ms.
  split; [rewrite <- app_assoc; reflexivity|exact H].
Qed.

Lemma in_turn_app (mode : bool) (writable : Buffer -> bool)
      (events more : list Event) (done : list (RequestItem * Completion)) :
  in_turn mode writable events done ->
  in_turn mode writable (events ++ more) done.
Proof. intros H k d Hk. apply delivery_app, H, Hk. Qed.

(** One more transaction ended, after all those that had. *)
Lemma in_turn_snoc (mode : bool) (writable : Buffer -> bool)
      (events : list Event) (done : list (RequestItem * Completion))
      (d : RequestItem * Completion) :
  in_turn mode writable events done ->
  delivery mode writable events (flat_map exchange done) d ->
  in_turn mode writable events (done ++ [d]).
Proof.
  intros H Hd k d' Hk.
  destruct (Nat.lt_ge_cases k (List.length done)) as [Hlt|Hge].
  - rewrite nth_error_app1 in Hk by exact Hlt.
    rewrite firstn_app. replace (k - List.length done)%nat with 0%nat by lia.
    cbn [firstn]. rewrite app_nil_r. apply H, Hk.
  - rewrite nth_error_app2 in Hk by exact Hge.
    destruct (k - List.length done)%nat as [|j] eqn:E;
      [|destruct j; discriminate Hk].
    injection Hk as <-.
    rewrite firstn_app, E. cbn [firstn]. rewrite app_nil_r.
    rewrite firstn_all2 by exact Hge. exact Hd.
Qed.

Lemma in_turn_failed (mode : bool) (writable : Buffer -> bool)
      (events : list Event) (done : list (RequestItem * Completion))
      (item : RequestItem) :
  in_turn mode writable events done ->
  in_turn mode writable events (done ++ [(item, Failed)]).
Proof. intros H. apply in_turn_snoc; [exact H|exact I]. Qed.

(** The invariant re-established with the same finished transactions. *)
Ltac keep done inflight :=
  exists done, inflight; split; [once constructor|];
  cbn [accepted queue log map app]; rewrite ?app_nil_r;
  split; [|split; [|split; [assumption|split; [assumption|]]]].

(** The invariant re-established after [item] ended with [c]; a failed
    transaction has no delivery to show. *)
Ltac ended done item c :=
  exists (done ++ [(item, c)]), (@nil RequestItem); split; [once constructor|];
  cbn [accepted queue log map app]; rewrite ?app_nil_r;
  split; [|split; [|split; [|split; [try (apply in_turn_failed; assumption)|]]]].

Lemma fifo_step (mode : bool) (writable : Buffer -> bool)
      (events : list Event) (e : Event) :
  not_connect e ->
  fifo_invariant mode writable events (run mode writable events) ->
  fifo_invariant mode writable (events ++ [e]) (run mode writable (events ++ [e])).
Proof.
  intros Hnc (done & inflight & Hw & Ha & Hl & Hd0 & Ht0 & HS0).
  rewrite ship_run_snoc.
  assert (Hd : Forall (answered_from (events ++ [e])) done).
  { eapply Forall_impl; [|exact Hd0]. intros d. apply answered_from_app. }
  assert (Hturn : in_turn mode writable (events ++ [e]) done)
    by (apply in_turn_app; exact Ht0).
  assert (HS : mode = true \/ Forall (no_failure writable) (events ++ [e]) ->
               answered_or_exited (run mode writable events) inflight done).
  { intros [H|H]; apply HS0; [left; exact H|right].
    apply Forall_app in H. tauto. }
  assert (Hfe : Forall (no_failure writable) (events ++ [e]) -> no_failure writable e).
  { intros H. apply Forall_app in H. destruct H as [_ H]. inversion H; assumption. }
  clear Hd0 Ht0 HS0.
  remember (run mode writable events) as s0 eqn:Hrun.
  destruct Hw as [q n x a l|q n x a l item|q n x a l item];
    cbn [queue log accepted app map] in Ha, Hl;
    repeat rewrite app_nil_r in Ha; repeat rewrite app_nil_r in Hl;
    (destruct x;
     [(* the process has ended: nothing runs *)
      unfold step; cbn [exited];
      exists done; eexists; split; [once constructor|];
      cbn [accepted queue log map app]; rewrite ?app_nil_r; auto
     |]).
  all: assert (HR : mode = true \/ Forall (no_failure writable) (events ++ [e]) ->
                    exists answers, done = map with_response answers)
    by (intros H; destruct (HS H) as [H'|(H' & _)];
        [exact H'|discriminate H']).
  all: assert (HK : forall s' inflight',
                  mode = true \/ Forall (no_failure writable) (events ++ [e]) ->
                  answered_or_exited s' inflight' done)
    by (intros s' inflight' H; left; exact (HR H)).
  - (* idle *)
    destruct e as [item|c raw head|i ok|ms| | | |c data|c|c]; try contradiction.
    + (* a request is accepted: started at once, or queued behind others *)
      destruct q as [|first q]; rewrite ?app_nil_r in Ha; exec.
      * keep done [item]; [rewrite Ha|rewrite Hl|apply HK]; reflexivity.
      * keep done [first];
          [rewrite Ha, <- !app_assoc|rewrite Hl|apply HK]; reflexivity.
    + destruct i; exec; keep done (@nil RequestItem); auto.
    + exec. destruct (responsePayloads ms); exec;
        keep done (@nil RequestItem); auto.
    + (* ["error"] with no listener: the process ends *)
      exec. keep done (@nil RequestItem); auto.
    + exec. keep done (@nil RequestItem); auto.
    + (* a deferred [processNext] runs *)
      destruct n as [|n].
      * exec. keep done (@nil RequestItem); auto.
      * destruct q as [|first q]; rewrite ?app_nil_r in Ha; exec.
        -- keep done (@nil RequestItem); auto.
        -- keep done [first]; [rewrite Ha|rewrite Hl|apply HK]; reflexivity.
    + exec. keep done (@nil RequestItem); auto.
    + exec. keep done (@nil RequestItem); auto.
    + exec. keep done (@nil RequestItem); auto.
  - (* the request of [item] is being sent *)
    destruct e as [item'|c raw head|i ok|ms| | | |c data|c|c]; try contradiction.
    + exec. keep done [item]; [rewrite Ha, <- !app_assoc; reflexivity|auto|auto].
    + destruct i as [|i].
      * destruct ok; [exec; keep done [item]; auto|].
        (* the send failed: the [catch] answers 502 *)
        destruct mode; exec.
        -- ended done item Failed.
           ++ rewrite Ha, map_app, <- app_assoc. reflexivity.
           ++ rewrite Hl, flat_map_snoc, <- app_assoc. reflexivity.
           ++ apply Forall_app. split; [assumption|]. repeat constructor.
           ++ intros _. right. split; [reflexivity|]. split; [reflexivity|].
              destruct (HR (or_introl eq_refl)) as [answers ->].
              exists answers, item. reflexivity.
        -- ended done item Failed.
           ++ rewrite Ha, map_app, <- app_assoc. reflexivity.
           ++ rewrite Hl, flat_map_snoc, <- app_assoc. reflexivity.
           ++ apply Forall_app. split; [assumption|]. repeat constructor.
           ++ intros [H|H]; [discriminate H|]. apply Hfe in H. contradiction.
      * destruct i; exec; keep done [item]; auto.
    + exec. destruct (responsePayloads ms); exec; keep done [item]; auto.
    + (* ["error"] with no listener: the process ends *)
      exec. keep done [item]; auto.
    + exec. keep done [item]; auto.
    + destruct n as [|n]; exec; keep done [item]; auto.
    + exec. keep done [item]; auto.
    + exec. keep done [item]; auto.
    + exec. keep done [item]; auto.
  - (* the response to [item] is awaited *)
    destruct e as [item'|c raw head|i ok|ms| | | |c data|c|c]; try contradiction.
    + exec. keep done [item]; [rewrite Ha, <- !app_assoc; reflexivity|auto|auto].
    + destruct i; exec; keep done [item]; auto.
    + (* the decoder emits: the first RESPONSE, if any, is the answer *)
      exec. destruct (responsePayloads ms) as [|resp resps] eqn:Er; exec.
      * keep done [item]; auto.
      * destruct (writable resp) eqn:W; [|destruct mode]; exec.
        -- ended done item (Responded resp).
           ++ rewrite Ha, map_app, <- app_assoc. reflexivity.
           ++ rewrite Hl, flat_map_snoc, <- app_assoc. reflexivity.
           ++ apply Forall_app. split; [assumption|]. repeat constructor.
              unfold answered_from. cbn [snd].
              rewrite received_app, in_app_iff. right. cbn [received].
              rewrite Er. left. reflexivity.
           ++ (* the delivery that answers [item] is this one *)
              apply in_turn_snoc; [exact Hturn|].
              exists events, [], ms. cbn [fst snd].
              split; [reflexivity|]. split; [rewrite <- Hrun; exact Hl|].
              split; [rewrite <- Hrun; reflexivity|].
              split; [rewrite <- Hrun; reflexivity|].
              split; [rewrite Er; reflexivity|].
              rewrite ship_run_snoc, <- Hrun. exec. rewrite Er. exec.
              rewrite W. exec. rewrite Hl, <- app_assoc. reflexivity.
           ++ intros H. left. destruct (HR H) as [answers ->].
              exists (answers ++ [(item, resp)]). rewrite map_app. reflexivity.
        -- (* the response cannot be written: the [catch] answers 502 *)
           ended done item Failed.
           ++ rewrite Ha, map_app, <- app_assoc. reflexivity.
           ++ rewrite Hl, flat_map_snoc, <- app_assoc. reflexivity.
           ++ apply Forall_app. split; [assumption|]. repeat constructor.
           ++ intros _. right. split; [reflexivity|]. split; [reflexivity|].
              destruct (HR (or_introl eq_refl)) as [answers ->].
              exists answers, item. reflexivity.
        -- ended done item Failed.
           ++ rewrite Ha, map_app, <- app_assoc. reflexivity.
           ++ rewrite Hl, flat_map_snoc, <- app_assoc. reflexivity.
           ++ apply Forall_app. split; [assumption|]. repeat constructor.
           ++ intros [H|H]; [discriminate H|]. apply Hfe in H.
              cbn [no_failure] in H. rewrite Er in H. inversion H; congruence.
    + (* the link fails: the [catch] answers 502 *)
      destruct mode; exec.
      * ended done item Failed.
        -- rewrite Ha, map_app, <- app_assoc. reflexivity.
        -- rewrite Hl, flat_map_snoc, <- app_assoc. reflexivity.
        -- apply Forall_app. split; [assumption|]. repeat constructor.
        -- intros _. right. split; [reflexivity|]. split; [reflexivity|].
           destruct (HR (or_introl eq_refl)) as [answers ->].
           exists answers, item. reflexivity.
      * ended done item Failed.
        -- rewrite Ha, map_app, <- app_assoc. reflexivity.
        -- rewrite Hl, flat_map_snoc, <- app_assoc. reflexivity.
        -- apply Forall_app. split; [assumption|]. repeat constructor.
        -- intros [H|H]; [discriminate H|]. apply Hfe in H. contradiction.
    + exec. keep done [item]; auto.
    + destruct n as [|n]; exec; keep done [item]; auto.
    + exec. keep done [item]; auto.
    + exec. keep done [item]; auto.
    + exec. keep done [item]; auto.
Qed.


Lemma fifo_reachable (mode : bool) (writable : Buffer -> bool)
      (events : list Event) :
  Forall not_connect events ->
  fifo_invariant mode writable events (run mode writable events).
Proof.
  induction events as [|e events IH] using rev_ind; intros H.
  - exists [], []. split; [constructor|].
    split; [reflexivity|]. split; [reflexivity|]. split; [constructor|].
    split; [intros [|k] d Hk; discriminate Hk|].
    intros _. left. exists []. reflexivity.
  - apply Forall_app in H. destruct H as [H He].
    apply fifo_step; [inversion He; assumption|auto].
Qed.

Lemma worker_outstanding (s : State) (inflight : list RequestItem) :
  worker s inflight ->
  outstanding s = inflight /\ (List.length inflight <= 1)%nat.
Proof. intros H. destruct H; split; cbn; try reflexivity; lia. Qed.

Lemma map_fst_with_response (answers : list (RequestItem * Buffer)) :
  map fst (map with_response answers) = map fst answers.
Proof. rewrite map_map. reflexivity. Qed.

Lemma exchange_with_response (answers : list (RequestItem * Buffer)) :
  flat_map exchange (map with_response answers) = flat_map answered answers.
Proof.
  induction answers as [|d answers IH]; [reflexivity|].
  cbn [map flat_map]. rewrite IH. reflexivity.
Qed.

Lemma answered_from_with_response (events : list Event)
      (answers : list (RequestItem * Buffer)) :
  Forall (answered_from events) (map with_response answers) ->
  Forall (fun d => In (snd d) (received events)) answers.
Proof.
  induction answers as [|d answers IH]; intros H; [constructor|].
  inversion H; subst. constructor; [assumption|auto].
Qed.

(** Whatever the runtime does with unhandled rejections and whatever
    fails: the log is one exchange per finished transaction, in acceptance
    order, each ended by its response or by the 502 of the [catch] block,
    and then the REQUEST of the one transaction outstanding, if any. *)
Lemma fifo_exchanges (mode : bool) (writable : Buffer -> bool)
      (events : list Event) :
  Forall not_connect events ->
  exists (done : list (RequestItem * Completion)) (inflight : list RequestItem),
    (List.length inflight <= 1)%nat /\
    outstanding (run mode writable events) = inflight /\
    accepted (run mode writable events)
    = map fst done ++ inflight ++ queue (run mode writable events) /\
    log (run mode writable events) = flat_map exchange done ++ map request inflight /\
    Forall (answered_from events) done.
Proof.
  intros H. destruct (fifo_reachable mode writable events H)
    as (done & inflight & Hw & Ha & Hl & Hd & _ & _).
  exists done, inflight. destruct (worker_outstanding _ _ Hw). auto.
Qed.

(** The deliveries of the transactions that were answered, read off the
    invariant's list of finished transactions. *)
Lemma answered_in_turn_of (mode : bool) (writable : Buffer -> bool)
      (events : list Event) (answers : list (RequestItem * Buffer))
      (rest : list (RequestItem * Completion)) :
  in_turn mode writable events (map with_response answers ++ rest) ->
  answered_in_turn mode writable events answers.
Proof.
  intros H k d Hk.
  assert (Hlt : (k < List.length answers)%nat)
    by (apply nth_error_Some; congruence).
  specialize (H k (with_response d)).
  rewrite nth_error_app1 in H by (rewrite length_map; exact Hlt).
  rewrite (map_nth_error with_response _ _ Hk) in H. specialize (H eq_refl).
  rewrite firstn_app, length_map in H.
  replace (k - List.length answers)%nat with 0%nat in H by lia.
  cbn [firstn] in H. rewrite app_nil_r, firstn_map, exchange_with_response in H.
  exact H.
Qed.

(** C1, as the code has it.  Over any sequence of callbacks without a
    CONNECT, on a runtime that ends the process on an unhandled rejection
    (Node's default) or in a run where no send is rejected, the link emits
    no error and every response can be written to its client: at most one
    transaction is outstanding in every state the scheduler reaches; every
    REQUEST sent but the last is followed in the log by the response to it,
    handed to the response object of its client ([res.writeHead],
    [res.write], [res.end]), before the next REQUEST is sent; that response
    is the first RESPONSE payload of the delivery that came while the
    transaction was the one outstanding and waited for its response, the
    [k]-th such delivery for the [k]-th request, and it is written in the
    callback of that delivery; the clients are answered in the order in
    which their requests were accepted, the requests not yet sent being
    queued in that order; and the last REQUEST is either outstanding or was
    answered 502 by the [catch] block, after which the process ended and
    sent nothing more. *)
Theorem fifo_one_at_a_time (throwUnhandled : bool) (writable : Buffer -> bool)
        (events : list Event) :
  Forall not_connect events ->
  throwUnhandled = true \/ Forall (no_failure writable) events ->
  exists (done : list (RequestItem * Buffer)) (last : Last),
    accepted (run throwUnhandled writable events)
    = map fst done ++ last_items last ++ queue (run throwUnhandled writable events) /\
    log (run throwUnhandled writable events) = flat_map answered done ++ last_log last /\
    Forall (fun d => In (snd d) (received events)) done /\
    answered_in_turn throwUnhandled writable events done /\
    match last with
    | Quiet => outstanding (run throwUnhandled writable events) = []
    | Outstanding item => outstanding (run throwUnhandled writable events) = [item]
    | FailedLast item =>
        outstanding (run throwUnhandled writable events) = [] /\
        exited (run throwUnhandled writable events) = true
    end.
Proof.
  intros H Hmode. destruct (fifo_reachable throwUnhandled writable events H)
    as (done & inflight & Hw & Ha & Hl & Hd & Ht & HS).
  destruct (worker_outstanding _ _ Hw) as [Ho Hlen].
  destruct (HS Hmode) as [(answers & ->)|(Hx & -> & answers & item & ->)].
  - exists answers.
    rewrite map_fst_with_response in Ha. rewrite exchange_with_response in Hl.
    apply answered_from_with_response in Hd.
    rewrite <- (app_nil_r (map with_response answers)) in Ht.
    apply answered_in_turn_of in Ht.
    destruct inflight as [|item [|item' inflight]]; [| |cbn in Hlen; lia].
    + exists Quiet. cbn [last_items last_log]. auto.
    + exists (Outstanding item). cbn [last_items last_log]. auto.
  - exists answers, (FailedLast item). cbn [last_items last_log].
    rewrite map_app, map_fst_with_response, <- app_assoc in Ha.
    rewrite flat_map_app, exchange_with_response, <- app_assoc in Hl.
    apply Forall_app in Hd. destruct Hd as [Hd _].
    apply answered_from_with_response in Hd.
    apply answered_in_turn_of in Ht.
    repeat split; assumption.
Qed.

(** Two requests, the first answered by the RESPONSE the link delivers
    while it is outstanding. *)
Lemma fifo_one_at_a_time_witness :
  Forall not_connect two_requests /\
  (false = true \/ Forall (no_failure (fun _ => true)) two_requests) /\
  exists (done : list (RequestItem * Buffer)) (last : Last),
    accepted (run false (fun _ => true) two_requests)
    = map fst done ++ last_items last
      ++ queue (run false (fun _ => true) two_requests) /\
    log (run false (fun _ => true) two_requests)
    = flat_map answered done ++ last_log last /\
    Forall (fun d => In (snd d) (received two_requests)) done /\
    answered_in_turn false (fun _ => true) two_requests done /\
    match last with
    | Quiet => outstanding (run false (fun _ => true) two_requests) = []
    | Outstanding item =>
        outstanding (run false (fun _ => true) two_requests) = [item]
    | FailedLast item =>
        outstanding (run false (fun _ => true) two_requests) = [] /\
        exited (run false (fun _ => true) two_requests) = true
    end.
Proof.
  assert (H1 : Forall not_connect two_requests) by (repeat constructor).
  assert (H2 : false = true \/ Forall (no_failure (fun _ => true)) two_requests)
    by (right; repeat constructor).
  split; [exact H1|]. split; [exact H2|].
  exact (fifo_one_at_a_time false (fun _ => true) two_requests H1 H2).
Defined.

(** C1 as stated fails: the next REQUEST does not wait for the response to
    be flushed.  [processNext] calls [res.end()] and, in its [finally],
    defers the next [processNext] with [setImmediate]; it awaits neither the
    callback of [res.end] nor ["finish"].  Here the second REQUEST is sent
    after the first response was handed to its response object and before
    that response has finished. *)
Lemma next_request_does_not_wait_for_flush :
  log (run true (fun _ => true) (callbacks slow_client))
  = [SendRequest [x41]; Respond 1 [x52]; SendRequest [x42]] /\
  finished slow_client = [] /\
  ~ sends_after_flush true (fun _ => true) slow_client.
Proof.
  split; [reflexivity|]. split; [reflexivity|].
  intros H. exact (H [SendRequest [x41]] 1%nat [x52] [x42] eq_refl).
Qed.

(** Two requests, the first answered, where every response can be
    written: the second is sent after the first client has its response. *)
Example fifo_two_requests (mode : bool) :
  log (run mode (fun _ => true) two_requests)
  = [SendRequest [x41]; Respond 1 [x52]; SendRequest [x42]].
Proof. destruct mode; reflexivity. Qed.

(** The link fails while the first of two transactions waits.  The [catch]
    answers 502 and rejects the item; the process then ends, the second
    request unsent.  On a runtime set to warn about unhandled rejections
    the deferred [processNext] runs and sends the second REQUEST. *)
Example fifo_failure_between (writable : Buffer -> bool) :
  log (run true writable failure_between) = [SendRequest [x41]; BadGateway 1] /\
  exited (run true writable failure_between) = true /\
  queue (run true writable failure_between) = [mkRequest 2 [x42]] /\
  log (run false writable failure_between)
  = [SendRequest [x41]; BadGateway 1; SendRequest [x42]].
Proof. repeat split. Qed.

End SchedulerFacts.


Section TunnelFacts.
Import Protocol Text Ship.

Variable mode : bool.
Variable writable : Buffer -> bool.

Lemma quiet_refl (s : State) : quiet s s.
Proof. split; auto. Qed.

Lemma quiet_trans (s1 s2 s3 : State) : quiet s1 s2 -> quiet s2 s3 -> quiet s1 s3.
Proof. intros [H1 H2] [H3 H4]. split; [congruence|auto]. Qed.

Lemma in_snoc_other (k k' : Continuation) (l : list Continuation) :
  k <> k' -> In k (l ++ [k']) -> In k l.
Proof.
  intros Hne H. apply in_app_iff in H. destruct H as [H|[H|[]]]; [exact H|].
  congruence.
Qed.

Lemma quiet_resume_resolved (k : Continuation) (resp : Buffer) (s : State) :
  quiet s (resume_resolved mode writable k resp s).
Proof.
  destruct k as [item|c head|c|]; cbn [resume_resolved];
    try (split; [reflexivity|auto]).
  { destruct (writable resp); split; cbn; auto;
      unfold reject_item; destruct mode; auto. }
  unfold connectReply.
  destruct (negb (connectEstablished resp)); [split; [reflexivity|auto]|].
  destruct (negb (blength head =? 0)); [|split; [reflexivity|auto]].
  split; [reflexivity|]. cbn [sends await_send set_sends emit]. intros item H.
  eapply in_snoc_other; [|exact H]. discriminate.
Qed.

Lemma quiet_resume_rejected (k : Continuation) (s : State) :
  quiet s (resume_rejected mode k s).
Proof.
  destruct k; split; cbn; auto; unfold reject_item; destruct mode; auto.
Qed.

Lemma quiet_fold {A : Type} (f : State -> A -> State) (l : list A) :
  (forall s a, quiet s (f s a)) ->
  forall s, quiet s (fold_left f l s).
Proof.
  intros Hf. induction l as [|a l IH]; intros s; [apply quiet_refl|].
  cbn [fold_left]. eapply quiet_trans; [apply Hf|apply IH].
Qed.

Lemma in_remove_nth {A : Type} (x : A) (i : nat) (l : list A) :
  In x (remove_nth i l) -> In x l.
Proof.
  revert i. induction l as [|y l IH]; intros i H; [destruct i; exact H|].
  destruct i as [|i]; cbn [remove_nth] in H; [right; exact H|].
  destruct H as [H|H]; [left; exact H|right; eauto].
Qed.

(** First half of C6.  While [offshore.inTunnel] is set, no callback starts
    a transaction: a request that is accepted is put at the end of the
    queue, nothing leaves the queue, and no transaction is added to the
    sends awaited. *)
Lemma tunnel_blocks_scheduler (s : State) (e : Event) :
  inTunnel s = true ->
  (queue (step mode writable s e) = queue s \/
   exists item, e = HttpRequest item /\ queue (step mode writable s e) = queue s ++ [item]) /\
  forall item,
    In (Transaction item) (sends (step mode writable s e)) ->
    In (Transaction item) (sends s).
Proof.
  intros Ht. unfold step. destruct (exited s); [auto|].
  assert (Hq : forall s', quiet s s' ->
               (queue s' = queue s \/
                exists item, e = HttpRequest item /\ queue s' = queue s ++ [item]) /\
               forall item, In (Transaction item) (sends s') ->
                            In (Transaction item) (sends s))
    by (intros s' [H1 H2]; auto).
  destruct e as [item|c raw head|i ok|ms| | | |c data|c|c]; unfold handle.
  - unfold enqueue, processNext. cbn [processing inTunnel queue sends].
    rewrite Ht, !orb_true_r. cbn [queue sends]. split; [right; eauto|auto].
  - apply Hq. split; [reflexivity|]. cbn. intros item H.
    eapply in_snoc_other; [|exact H]. discriminate.
  - apply Hq. destruct (nth_error (sends s) i) as [k|] eqn:Ek; [|apply quiet_refl].
    cbv zeta. set (s' := set_sends (remove_nth i (sends s)) s).
    assert (Hs' : quiet s s').
    { split; [reflexivity|]. intros item H. eapply in_remove_nth. exact H. }
    apply (quiet_trans _ _ _ Hs'). destruct ok.
    + destruct k; try apply quiet_resume_resolved; split; cbn; auto.
    + apply quiet_resume_rejected.
  - apply Hq. cbv zeta. set (s1 := if inTunnel s then _ else s).
    assert (H1 : quiet s s1).
    { subst s1. destruct (inTunnel s); split; cbn; auto. }
    destruct (responsePayloads ms) as [|resp resps]; [exact H1|].
    apply (quiet_trans _ _ _ H1).
    eapply quiet_trans; [|apply quiet_fold; intros; apply quiet_resume_resolved].
    split; cbn; auto.
  - apply Hq. destruct (waits s) as [|k ks]; [split; cbn; auto|].
    eapply quiet_trans; [|apply quiet_fold; intros; apply quiet_resume_rejected].
    split; cbn; auto.
  - apply Hq. apply quiet_fold. intros st c. split; cbn; auto.
  - apply Hq. destruct (immediates s) as [|n]; [apply quiet_refl|].
    unfold processNext. cbn [set_immediates processing inTunnel queue sends].
    rewrite Ht, !orb_true_r. split; cbn; auto.
  - apply Hq. destruct (mem c (tunnels s)); [|apply quiet_refl].
    split; [reflexivity|]. cbn. intros item H.
    eapply in_snoc_other; [|exact H]. discriminate.
  - apply Hq. destruct (mem c (closeOnce s)); split; cbn; auto.
  - apply Hq. destruct (mem c (errorOnce s)); split; cbn; auto.
Qed.

Lemma transactions_app (a b : list Continuation) :
  transactions (a ++ b) = transactions a ++ transactions b.
Proof.
  induction a as [|k a IH]; [reflexivity|].
  destruct k; cbn [app transactions]; rewrite IH; reflexivity.
Qed.

Lemma transactions_remove_nth (i : nat) (l : list Continuation) :
  transactions l = [] -> transactions (remove_nth i l) = [].
Proof.
  revert i. induction l as [|k l IH]; intros i H; [destruct i; reflexivity|].
  destruct k; cbn [transactions] in H; try discriminate;
    destruct i; cbn [remove_nth transactions]; auto.
Qed.

Lemma transactions_nth (i : nat) (l : list Continuation) (k : Continuation) :
  transactions l = [] -> nth_error l i = Some k -> transactions [k] = [].
Proof.
  revert i. induction l as [|k' l IH]; intros i Hl Ek; [destruct i; discriminate|].
  assert (H : transactions [k'] = [] /\ transactions l = [])
    by (destruct k'; cbn [transactions] in *; try discriminate; auto).
  destruct i as [|i]; cbn [nth_error] in Ek.
  - injection Ek as <-. tauto.
  - apply (IH i); tauto.
Qed.

Lemma asleep_resume_resolved (k : Continuation) (resp : Buffer) (s : State) :
  transactions [k] = [] -> sleeps_on s (resume_resolved mode writable k resp s).
Proof.
  intros Hk (Hp & Hi & Hs & Hw).
  destruct k as [item|c head|c|]; try discriminate Hk;
    cbn [resume_resolved]; try (repeat split; assumption).
  unfold connectReply.
  destruct (negb (connectEstablished resp)); [repeat split; assumption|].
  destruct (negb (blength head =? 0)); [|repeat split; assumption].
  repeat split; try assumption.
  cbn [sends await_send set_sends emit]. rewrite transactions_app, Hs. reflexivity.
Qed.

Lemma asleep_resume_rejected (k : Continuation) (s : State) :
  transactions [k] = [] -> sleeps_on s (resume_rejected mode k s).
Proof.
  intros Hk (Hp & Hi & Hs & Hw).
  destruct k; try discriminate Hk; repeat split; assumption.
Qed.

Lemma asleep_fold (f : State -> Continuation -> State) (ks : list Continuation) :
  (forall s k, transactions [k] = [] -> sleeps_on s (f s k)) ->
  transactions ks = [] ->
  forall s, sleeps_on s (fold_left f ks s).
Proof.
  intros Hf. induction ks as [|k ks IH]; intros Hks s Hs; [auto|].
  cbn [fold_left].
  assert (Hk : transactions [k] = [] /\ transactions ks = []).
  { destruct k; cbn [transactions] in *; try discriminate; auto. }
  destruct Hk as [Hk Hks']. destruct (Hf s k Hk Hs) as [H1 H2].
  destruct (IH Hks' _ H1) as [H3 H4]. split; [exact H3|congruence].
Qed.

Lemma asleep_close_fold (l : list nat) :
  forall s : State,
    sleeps_on s (fold_left (fun st c =>
                   emit [ClientEnd c] (set_inTunnel false (cleanup c st))) l s).
Proof.
  induction l as [|c l IH]; intros s Hs; [auto|].
  cbn [fold_left].
  destruct (IH (emit [ClientEnd c] (set_inTunnel false (cleanup c s)))) as [H1 H2];
    [destruct Hs as (? & ? & ? & ?); repeat split; assumption|].
  split; [exact H1|exact H2].
Qed.

(** Until the next HTTP request is accepted, a sleeping scheduler starts
    nothing, whatever else happens. *)
Lemma asleep_step (s : State) (e : Event) :
  not_request e -> sleeps_on s (step mode writable s e).
Proof.
  intros He Hs. unfold step. destruct (exited s); [auto|].
  pose proof Hs as (Hp & Hi & Hse & Hw).
  destruct e as [item|c raw head|i ok|ms| | | |c data|c|c];
    try contradiction; unfold handle.
  - repeat split; try assumption.
    cbn. rewrite transactions_app, Hse. reflexivity.
  - destruct (nth_error (sends s) i) as [k|] eqn:Ek; [|auto].
    cbv zeta. set (s' := set_sends (remove_nth i (sends s)) s).
    assert (Hs' : asleep s').
    { repeat split; try assumption. apply transactions_remove_nth, Hse. }
    pose proof (transactions_nth _ _ _ Hse Ek) as Hk.
    change (queue s) with (queue s').
    destruct ok.
    + destruct k; try discriminate Hk.
      * destruct Hs' as (H1 & H2 & H3 & H4). repeat split; try assumption.
        cbn [waits waitForSingleResponse set_waits]. rewrite transactions_app.
        cbn [waits] in H4. rewrite H4. reflexivity.
      * apply (asleep_resume_resolved (ConnectHead clientSocket) [] s' Hk Hs').
      * apply (asleep_resume_resolved TunnelData [] s' Hk Hs').
    + apply (asleep_resume_rejected k s' Hk Hs').
  - cbv zeta. set (s1 := if inTunnel s then _ else s).
    assert (H1 : asleep s1 /\ queue s1 = queue s /\ waits s1 = waits s).
    { subst s1. destruct (inTunnel s); repeat split; assumption. }
    destruct H1 as (H1 & H2 & H3).
    destruct (responsePayloads ms) as [|resp resps]; [auto|].
    rewrite <- H2. change (queue s1) with (queue (set_waits [] s1)).
    apply (asleep_fold (fun st k => resume_resolved mode writable k resp st) (waits s));
      [intros; apply asleep_resume_resolved; assumption|exact Hw|].
    destruct H1 as (? & ? & ? & ?). repeat split; assumption.
  - destruct (waits s) as [|k ks] eqn:Ew.
    { split; [|reflexivity]. repeat split; try assumption.
      cbn [waits uncaughtException]. rewrite Ew. reflexivity. }
    change (queue s) with (queue (set_waits [] s)).
    apply (asleep_fold (fun st k => resume_rejected mode k st) (k :: ks));
      [intros; apply asleep_resume_rejected; assumption|exact Hw|].
    repeat split; assumption.
  - apply asleep_close_fold. exact Hs.
  - rewrite Hi. auto.
  - destruct (mem c (tunnels s)); [|auto].
    repeat split; try assumption.
    cbn. rewrite transactions_app, Hse. reflexivity.
  - destruct (mem c (closeOnce s)); [|auto]. repeat split; assumption.
  - destruct (mem c (errorOnce s)); [|auto]. repeat split; assumption.
Qed.

Lemma asleep_run (events : list Event) :
  Forall not_request events ->
  forall s, sleeps_on s (fold_left (step mode writable) events s).
Proof.
  induction 1 as [|e events He _ IH]; intros s Hs; [auto|].
  cbn [fold_left]. destruct (asleep_step s e He Hs) as [H1 H2].
  destruct (IH _ H1) as [H3 H4]. split; [exact H3|congruence].
Qed.

Lemma asleep_outstanding (s : State) : asleep s -> outstanding s = [].
Proof.
  intros (_ & _ & Hs & Hw). unfold outstanding.
  rewrite transactions_app, Hs, Hw. reflexivity.
Qed.

(** C6, second half, on the code.  A GET arrives while a CONNECT holds
    [offshore.inTunnel]; it is queued.  The tunnel is then torn down by the
    client (or the CONNECT is refused): the flag is cleared, but the
    callback that clears it does not call [processNext] and schedules
    nothing, so the request stays queued with no transaction outstanding
    while the process lives on, and it stays so under every later sequence
    of callbacks that accepts no further HTTP request. *)
Theorem tunnel_exit_leaves_queue_asleep :
  inTunnel (run mode writable (firstn 2 tunnel_teardown)) = true /\
  (inTunnel (run mode writable tunnel_teardown) = false /\
   exited (run mode writable tunnel_teardown) = false /\
   queue (run mode writable tunnel_teardown) = [mkRequest 1 [x41]] /\
   forall events : list Event,
     Forall not_request events ->
     queue (fold_left (step mode writable) events (run mode writable tunnel_teardown))
     = [mkRequest 1 [x41]] /\
     outstanding (fold_left (step mode writable) events (run mode writable tunnel_teardown)) = []) /\
  (inTunnel (run mode writable connect_refused) = false /\
   exited (run mode writable connect_refused) = false /\
   queue (run mode writable connect_refused) = [mkRequest 1 [x41]] /\
   forall events : list Event,
     Forall not_request events ->
     queue (fold_left (step mode writable) events (run mode writable connect_refused))
     = [mkRequest 1 [x41]] /\
     outstanding (fold_left (step mode writable) events (run mode writable connect_refused)) = []).
Proof.
  split; [reflexivity|]. split.
  - split; [reflexivity|]. split; [reflexivity|]. split; [reflexivity|].
    intros events He.
    assert (Hs : asleep (run mode writable tunnel_teardown)) by (repeat split).
    destruct (asleep_run events He _ Hs) as [H1 H2].
    split; [rewrite H2; reflexivity|apply asleep_outstanding, H1].
  - split; [reflexivity|]. split; [reflexivity|]. split; [reflexivity|].
    intros events He.
    assert (Hs : asleep (run mode writable connect_refused)) by (repeat split).
    destruct (asleep_run events He _ Hs) as [H1 H2].
    split; [rewrite H2; reflexivity|apply asleep_outstanding, H1].
Qed.

End TunnelFacts.


Section LinkFacts.
Import Protocol Link.

(** [_connect] replaces the socket and the send queue and nothing else. *)
Lemma connect_rebuilds_sender_only (c : OffshoreConnection) :
  queue (_connect c) = Some Sender.newMessageSendQueue /\
  socket (_connect c) = Some (created c) /\
  decoder (_connect c) = decoder c /\
  inTunnel (_connect c) = inTunnel c.
Proof. repeat split. Qed.

Lemma step_close (c : OffshoreConnection) (sock : nat) :
  exited c = false ->
  (sock < created c)%nat ->
  step c (SockClose sock)
  = (mkConnection (socket c) (decoder c) (queue c) (inTunnel c) (created c)
                  (timers c ++ [1000]) false,
     [EmitClose]).
Proof.
  intros Hx Hs. unfold step. rewrite Hx. cbn [socket_of].
  apply Nat.ltb_lt in Hs. rewrite Hs. cbn [handle]. rewrite Hx. reflexivity.
Qed.

(** A close of a socket the object made sets one timer of 1000 ms, one
    second, and the timer's callback is [_connect]. *)
Lemma close_sets_reconnect_timer (c : OffshoreConnection) (sock : nat) :
  exited c = false ->
  (sock < created c)%nat ->
  timers c = [] ->
  timers (fst (step c (SockClose sock))) = [1000] /\
  fst (step (fst (step c (SockClose sock))) TimerFired)
  = _connect (mkConnection (socket c) (decoder c) (queue c) (inTunnel c)
                           (created c) [] false).
Proof.
  intros Hx Hs Ht. rewrite (step_close c sock Hx Hs), Ht. split; reflexivity.
Qed.

(** However often the link is lost, the next timer reconnects, as long as
    no connection attempt fails: after [n] losses the object has made [n]
    more sockets, no timer is left pending, and the decoder is the one it
    had. *)
Lemma reconnects_every_time (n : nat) :
  forall c : OffshoreConnection,
    exited c = false ->
    timers c = [] ->
    (0 < created c)%nat ->
    created (fst (run_from c (losses (pred (created c)) n))) = (created c + n)%nat /\
    timers (fst (run_from c (losses (pred (created c)) n))) = [] /\
    exited (fst (run_from c (losses (pred (created c)) n))) = false /\
    decoder (fst (run_from c (losses (pred (created c)) n))) = decoder c.
Proof.
  induction n as [|n IH]; intros c Hx Ht Hc.
  - cbn. repeat split; [lia|assumption|assumption].
  - cbn [losses run_from].
    rewrite (step_close c (pred (created c)) Hx) by lia. rewrite Ht.
    cbn [app].
    change (step (mkConnection (socket c) (decoder c) (queue c) (inTunnel c)
                               (created c) [1000] false) TimerFired)
      with (mkConnection (Some (created c)) (decoder c)
                         (Some Sender.newMessageSendQueue) (inTunnel c)
                         (S (created c)) [] false, @nil Emitted).
    set (c1 := mkConnection (Some (created c)) _ _ _ _ _ _).
    specialize (IH c1 eq_refl eq_refl ltac:(cbn; lia)).
    change (pred (created c1)) with (created c) in IH.
    replace (S (pred (created c))) with (created c) by lia.
    destruct (run_from c1 (losses (created c) n)) as [c2 out2].
    cbn [fst] in *. destruct IH as (H1 & H2 & H3 & H4).
    repeat split; [rewrite H1; cbn; lia|exact H2|exact H3|exact H4].
Qed.

(** C7 on the code.  Three bytes of a header arrive, the link closes, the
    timer fires and [_connect] makes a new socket and a new send queue but
    keeps the decoder; the RESPONSE frame with payload "OK" that arrives on
    the new socket is parsed behind the three stale bytes: the decoder
    emits an empty REQUEST and keeps the tail as the head of a frame of
    131407 bytes.  A new decoder would have emitted the RESPONSE. *)
Theorem reconnect_keeps_stale_bytes :
  (forall c : OffshoreConnection, decoder (_connect c) = decoder c) /\
  run loss_inside_frame
  = (mkConnection (Some 1%nat)
                  (mkDecoder [x00; x02; x01; x4f; x4b] false)
                  (Some Sender.newMessageSendQueue) false 2 [] false,
     [EmitClose; EmitMessage (mkMessage REQUEST [])]) /\
  push newFrameDecoder (IsBuffer [x00; x00; x00; x02; x01; x4f; x4b])
  = inr (newFrameDecoder, [mkMessage RESPONSE [x4f; x4b]]).
Proof. repeat split. Qed.

(** The connection object forwards a socket error as its own ["error"]
    event.  When the offshore refuses a reconnect while no transaction
    waits, nothing listens for it: the process ends, and no further socket
    is made, though the close that follows would have set the next timer. *)
Lemma refused_reconnect_ends_process :
  exited (fst (run reconnect_refused)) = true /\
  created (fst (run reconnect_refused)) = 2%nat /\
  timers (fst (run reconnect_refused)) = [].
Proof. repeat split. Qed.

End LinkFacts.

Section OffshoreFacts.
Import Protocol Text Offshore.

Variable portNumber : Buffer -> option Z.
Variable originThrows : ParsedRequest -> bool.
Variable errorMessage : HandlerError -> Buffer.

(** The ["error"] listener of an upstream socket made for a CONNECT. *)
Lemma upstream_error_enqueues_empty (s : State) (upstream : nat) :
  (upstream < upstreams s)%nat ->
  step portNumber originThrows errorMessage s (UpstreamError upstream)
  = emit [Enqueue RESPONSE []] s.
Proof. intros H. cbn [step]. apply Nat.ltb_lt in H. rewrite H. reflexivity. Qed.

(** The message handler on a CONNECT request in message mode. *)
Lemma onMessage_connect (s : State) (payload target : Buffer) (port : Z) :
  (inTunnel s = false \/ tunnelUpstream s = None) ->
  method (parseHttpRequest payload) = ascii_bytes "CONNECT" ->
  path (parseHttpRequest payload) = Some target ->
  match nth_error (split (ascii_bytes ":") target) 1 with
  | Some ((_ :: _) as portStr) => portNumber portStr
  | _ => Some 443
  end = Some port ->
  onMessage portNumber originThrows errorMessage REQUEST payload s
  = mkState (inTunnel s) (tunnelUpstream s) (S (upstreams s)) (fetches s)
            (log s ++ [NetConnect (upstreams s)
                                  (hd [] (split (ascii_bytes ":") target)) port]).
Proof.
  intros Hmode Hm Hp Hport. unfold onMessage.
  change (negb (REQUEST =? REQUEST)) with false. cbv iota zeta.
  assert (Hc : (if same (method (parseHttpRequest payload)) (ascii_bytes "CONNECT")
                then connectBranch portNumber errorMessage (parseHttpRequest payload) s
                else if originThrows (parseHttpRequest payload)
                     then handlerCatch errorMessage
                            (OriginThrew (parseHttpRequest payload)) s
                     else mkState (inTunnel s) (tunnelUpstream s) (upstreams s)
                                  (S (fetches s))
                                  (log s ++ [OriginRequest (fetches s)
                                               (parseHttpRequest payload)]))
               = mkState (inTunnel s) (tunnelUpstream s) (S (upstreams s)) (fetches s)
                   (log s ++ [NetConnect (upstreams s)
                                (hd [] (split (ascii_bytes ":") target)) port])).
  { rewrite Hm. change (same _ _) with true. cbv iota.
    unfold connectBranch. rewrite Hp. cbv zeta. rewrite Hport. reflexivity. }
  rewrite Hc. set (X := mkState _ _ _ _ _).
  destruct Hmode as [H | H]; rewrite H; [reflexivity|].
  destruct (inTunnel s); reflexivity.
Qed.

(** C5, as the code has it.  In message mode, a REQUEST whose request line
    is [CONNECT host:port ...] with a port [net.connect] takes makes the
    dispatcher open a socket to the target; when that socket emits
    ["error"], the dispatcher enqueues one RESPONSE frame whose payload is
    empty, which is not a 502 response, and nothing else. *)
Theorem connect_failure_enqueues_empty_response
        (s : State) (payload target : Buffer) (port : Z) :
  (inTunnel s = false \/ tunnelUpstream s = None) ->
  method (parseHttpRequest payload) = ascii_bytes "CONNECT" ->
  path (parseHttpRequest payload) = Some target ->
  match nth_error (split (ascii_bytes ":") target) 1 with
  | Some ((_ :: _) as portStr) => portNumber portStr
  | _ => Some 443
  end = Some port ->
  log (fold_left (step portNumber originThrows errorMessage)
                 [Message REQUEST payload; UpstreamError (upstreams s)] s)
  = log s ++ [ NetConnect (upstreams s)
                          (hd [] (split (ascii_bytes ":") target)) port;
               Enqueue RESPONSE [] ] /\
  is502 [] = false.
Proof.
  intros Hmode Hm Hp Hport. split; [|reflexivity].
  cbn [fold_left]. change (step _ _ _ s (Message REQUEST payload))
    with (onMessage portNumber originThrows errorMessage REQUEST payload s).
  rewrite (onMessage_connect s payload target port Hmode Hm Hp Hport).
  rewrite upstream_error_enqueues_empty by (cbn [upstreams]; lia).
  cbn [emit log]. rewrite <- app_assoc. reflexivity.
Qed.

End OffshoreFacts.

Section OffshoreRuns.
Import Protocol Text Offshore.

Lemma connect_failure_enqueues_empty_response_witness :
  (inTunnel initial = false \/ tunnelUpstream initial = None) /\
  method (parseHttpRequest connectRequest) = ascii_bytes "CONNECT" /\
  path (parseHttpRequest connectRequest)
  = Some (ascii_bytes "example.invalid:443") /\
  log (fold_left (step connectPort (fun _ => false) (fun _ => []))
                 [Message REQUEST connectRequest; UpstreamError 0] initial)
  = [ NetConnect 0 (ascii_bytes "example.invalid") 443; Enqueue RESPONSE [] ].
Proof.
  assert (H1 : inTunnel initial = false \/ tunnelUpstream initial = None)
    by (left; reflexivity).
  assert (H2 : method (parseHttpRequest connectRequest) = ascii_bytes "CONNECT")
    by reflexivity.
  assert (H3 : path (parseHttpRequest connectRequest)
               = Some (ascii_bytes "example.invalid:443"))
    by reflexivity.
  split; [exact H1|]. split; [exact H2|]. split; [exact H3|].
  exact (proj1 (connect_failure_enqueues_empty_response
                  connectPort (fun _ => false) (fun _ => [])
                  initial connectRequest (ascii_bytes "example.invalid:443")
                  443 H1 H2 H3 eq_refl)).
Defined.

(** C5 as stated fails: the CONNECT to a target that refuses the connection
    is answered by a RESPONSE frame with an empty payload, and no frame the
    dispatcher emits is a 502; the origin fetch that fails is answered by a
    502.  The run reaches neither the [catch] nor the origin fetch, so it
    is the same for every runtime. *)
Lemma connect_failure_emits_no_502 :
  log (run connectPort (fun _ => false) (fun _ => []) connect_refused)
  = [ NetConnect 0 (ascii_bytes "example.invalid") 443; Enqueue RESPONSE [] ] /\
  emits502 (log (run connectPort (fun _ => false) (fun _ => []) connect_refused))
  = false /\
  emits502 (log (run connectPort (fun _ => false) (fun _ => []) fetch_refused))
  = true.
Proof. repeat split. Qed.

(** Port texts as [Number] reads them and [net.connect] takes them:
    hexadecimal, with an exponent, signed, within white space, with a
    fraction that is lost in rounding; and texts it throws on. *)
Example connectPort_reads :
  map connectPort
      [ ascii_bytes "443"; ascii_bytes "0x1BB"; ascii_bytes "1e3";
        ascii_bytes "+80"; [x09; x38; x30; xc2; xa0]; ascii_bytes "-0";
        ascii_bytes "80.00000000000000000001" ]
  = [Some 443; Some 443; Some 1000; Some 80; Some 80; Some 0; Some 80] /\
  map connectPort
      [ ascii_bytes "65536"; ascii_bytes "-1"; ascii_bytes "80.5";
        ascii_bytes "8o"; ascii_bytes "1e"; ascii_bytes "Infinity";
        ascii_bytes "0x" ]
  = [None; None; None; None; None; None; None].
Proof. split; vm_compute; reflexivity. Qed.

End OffshoreRuns.

Section StreamFacts.
Import Protocol Stream.

Lemma byte_of_Z_mod (z : Z) (b : byte) : z mod 256 = Z_of_byte b -> byte_of_Z z = b.
Proof.
  intros H. unfold byte_of_Z. rewrite H. unfold Z_of_byte.
  rewrite N2Z.id, Byte.of_to_N. reflexivity.
Qed.

(** The four bytes [writeUInt32BE] stores for a number read by
    [readUInt32BE] are the bytes it was read from. *)
Lemma header_bytes (b0 b1 b2 b3 : byte) (n : Z) :
  n = Z_of_byte b0 * 2 ^ 24 + Z_of_byte b1 * 2 ^ 16
      + Z_of_byte b2 * 2 ^ 8 + Z_of_byte b3 ->
  byte_of_Z (Z.shiftr n 24) = b0 /\ byte_of_Z (Z.shiftr n 16) = b1 /\
  byte_of_Z (Z.shiftr n 8) = b2 /\ byte_of_Z n = b3.
Proof.
  pose proof (Z_of_byte_range b0). pose proof (Z_of_byte_range b1).
  pose proof (Z_of_byte_range b2). pose proof (Z_of_byte_range b3).
  change (2 ^ 24) with 16777216. change (2 ^ 16) with 65536.
  change (2 ^ 8) with 256. intros Hn.
  rewrite !Z.shiftr_div_pow2 by lia.
  change (2 ^ 24) with 16777216. change (2 ^ 16) with 65536.
  change (2 ^ 8) with 256.
  assert (H24 : n / 16777216 = Z_of_byte b0).
  { symmetry. apply (Z.div_unique n 16777216 _
                       (Z_of_byte b1 * 65536 + Z_of_byte b2 * 256 + Z_of_byte b3)); lia. }
  assert (H16 : n / 65536 = Z_of_byte b0 * 256 + Z_of_byte b1).
  { symmetry. apply (Z.div_unique n 65536 _
                       (Z_of_byte b2 * 256 + Z_of_byte b3)); lia. }
  assert (H8 : n / 256 = Z_of_byte b0 * 65536 + Z_of_byte b1 * 256 + Z_of_byte b2).
  { symmetry. apply (Z.div_unique n 256 _ (Z_of_byte b3)); lia. }
  repeat split; apply byte_of_Z_mod.
  - rewrite H24. apply Z.mod_small. lia.
  - rewrite H16. symmetry.
    apply (Z.mod_unique _ 256 (Z_of_byte b0)); lia.
  - rewrite H8. symmetry.
    apply (Z.mod_unique _ 256 (Z_of_byte b0 * 256 + Z_of_byte b1)); lia.
  - symmetry.
    apply (Z.mod_unique _ 256
             (Z_of_byte b0 * 65536 + Z_of_byte b1 * 256 + Z_of_byte b2)); lia.
Qed.

(** The message cut from the head of a buffer, framed again, is the head of
    the buffer. *)
Lemma reframe_head (buf : Buffer) (n t : Z) :
  readUInt32BE buf = Some n -> readUInt8 buf 4 = Some t ->
  HEADER_LENGTH + n <= blength buf ->
  reframe (mkMessage t (subarray buf HEADER_LENGTH (HEADER_LENGTH + n)))
  = firstn (Z.to_nat (HEADER_LENGTH + n)) buf.
Proof.
  intros En Et Hl. pose proof (readUInt32BE_range _ _ En) as Hn.
  destruct buf as [|b0 [|b1 [|b2 [|b3 [|b4 rest]]]]]; try discriminate.
  cbn [readUInt32BE] in En. injection En as En. symmetry in En.
  unfold readUInt8 in Et. cbn [nth_error option_map] in Et. injection Et as Et.
  unfold HEADER_LENGTH, blength in *. cbn [List.length] in Hl.
  unfold reframe, wire_frame, subarray. cbn [type payload].
  replace (5 + n - 5) with n by lia. change (Z.to_nat 5) with 5%nat.
  cbn [skipn].
  assert (Hlen : blength (firstn (Z.to_nat n) rest) = n).
  { unfold blength. rewrite length_firstn. lia. }
  rewrite Hlen. destruct (header_bytes b0 b1 b2 b3 n En) as (-> & -> & -> & ->).
  subst t. rewrite byte_of_Z_of_byte.
  replace (Z.to_nat (5 + n)) with (5 + Z.to_nat n)%nat by lia.
  reflexivity.
Qed.

(** The loop neither drops nor invents a byte: the frames of the messages
    it emits, followed by the buffer it leaves, are the buffer it was given. *)
Lemma parse_conserves :
  forall (k : nat) (buf : Buffer),
    (List.length buf <= k)%nat ->
    flat_map reframe (fst (_parseAvailableFrames buf))
      ++ snd (_parseAvailableFrames buf) = buf.
Proof.
  induction k as [|k IH]; intros buf Hk.
  - destruct buf; [reflexivity|cbn in Hk; lia].
  - destruct (Z.lt_ge_cases (blength buf) HEADER_LENGTH) as [Hs|Hs].
    { rewrite (parse_short buf Hs). reflexivity. }
    destruct (header_readable buf Hs) as (n & t & En & Et).
    destruct (Z.lt_ge_cases (blength buf) (HEADER_LENGTH + n)) as [Hi|Hc].
    { rewrite (parse_incomplete buf n En Hi). reflexivity. }
    pose proof (readUInt32BE_range _ _ En) as Hn.
    rewrite (parse_complete buf n t En Et Hc). cbn [fst snd flat_map].
    rewrite (reframe_head buf n t En Et Hc), <- app_assoc.
    rewrite IH.
    + apply firstn_skipn.
    + rewrite length_skipn. unfold HEADER_LENGTH, blength in *. lia.
Qed.

(** The decoder reads a byte stream, not chunks: whatever bytes arrive and
    however the socket cuts them, pushing the chunks one after the other
    emits the messages, and leaves the decoder, that one push of all the
    bytes gives; and no push of a Buffer into an open decoder throws. *)
Theorem decoder_chunking_irrelevant (chunks : list Buffer) :
  pushAll newFrameDecoder chunks
  = push newFrameDecoder (IsBuffer (List.concat chunks)) /\
  exists (d : FrameDecoder) (ms : list Message),
    pushAll newFrameDecoder chunks = inr (d, ms).
Proof.
  rewrite pushAll_concat by reflexivity.
  rewrite push_open by reflexivity. split; [reflexivity|].
  eexists. eexists. reflexivity.
Qed.

(** The decoder neither drops nor invents a byte: after any chunks pushed
    into a new decoder, the frames of the messages emitted, in order,
    followed by the bytes still buffered, are exactly the bytes pushed. *)
Theorem decoder_conserves_bytes (chunks : list Buffer) :
  exists (d : FrameDecoder) (ms : list Message),
    pushAll newFrameDecoder chunks = inr (d, ms) /\
    _closed d = false /\
    flat_map reframe ms ++ _buffer d = List.concat chunks.
Proof.
  rewrite pushAll_concat by reflexivity. cbn [_buffer newFrameDecoder app].
  eexists. eexists. split; [reflexivity|]. split; [reflexivity|].
  cbn [_buffer]. apply (parse_conserves _ _ (le_n _)).
Qed.

(** What any frames followed by more bytes parse to. *)
Lemma parse_encoded_app (M : list Message) (frames : list Buffer) (rest : Buffer) :
  Forall2 encodes M frames ->
  _parseAvailableFrames (List.concat frames ++ rest)
  = (M ++ fst (_parseAvailableFrames rest), snd (_parseAvailableFrames rest)).
Proof.
  induction 1 as [|m f M frames Hm _ IH].
  - cbn [List.concat app]. destruct (_parseAvailableFrames rest); reflexivity.
  - destruct m as [t p]. apply encodeMessage_inr in Hm.
    cbn [type payload] in Hm. destruct Hm as (Ht & Hp & ->).
    cbn [List.concat]. rewrite <- app_assoc, parse_wire_frame, IH by exact Hp.
    cbn [fst snd app].
    rewrite Z_of_byte_type by (unfold REQUEST, RESPONSE in Ht; lia).
    reflexivity.
Qed.

(** A frame that lacks at least its last byte is kept whole. *)
Lemma parse_partial_frame (ty : byte) (p pre post : Buffer) :
  blength p <= 4294967295 ->
  pre ++ post = wire_frame ty p -> post <> [] ->
  _parseAvailableFrames pre = ([], pre).
Proof.
  intros Hp Hsplit Hpost.
  assert (Hlen : blength pre < HEADER_LENGTH + blength p).
  { pose proof (wire_frame_length ty p) as Hl. rewrite <- Hsplit, blength_app in Hl.
    destruct post; [contradiction|]. unfold blength in *. cbn [List.length] in Hl. lia. }
  destruct (Z.lt_ge_cases (blength pre) HEADER_LENGTH) as [Hs|Hs].
  { apply parse_short, Hs. }
  apply (parse_incomplete pre (blength p)); [|exact Hlen].
  pose proof (wire_frame_header ty p Hp) as Hh. rewrite <- Hsplit in Hh.
  destruct pre as [|b0 [|b1 [|b2 [|b3 pre]]]];
    try (unfold HEADER_LENGTH, blength in Hs; cbn [List.length] in Hs; lia).
  exact Hh.
Qed.

(** A frame is emitted when its last byte has arrived, and not before.
    After the frames of the messages [M] and a part [pre] of one more frame
    that lacks at least one byte, cut into chunks in any way, the decoder has
    emitted exactly [M] and holds exactly [pre]; the push that brings the
    rest of the frame emits its message, whatever its type byte, and leaves
    the buffer empty. *)
Theorem decoder_waits_for_whole_frame
        (M : list Message) (frames chunks : list Buffer)
        (ty : byte) (p pre post : Buffer) :
  Forall2 encodes M frames ->
  blength p <= 4294967295 ->
  pre ++ post = wire_frame ty p -> post <> [] ->
  List.concat chunks = List.concat frames ++ pre ->
  pushAll newFrameDecoder chunks = inr (mkDecoder pre false, M) /\
  push (mkDecoder pre false) (IsBuffer post)
  = inr (newFrameDecoder, [mkMessage (Z_of_byte ty) p]).
Proof.
  intros HM Hp Hsplit Hpost Hc. split.
  - rewrite pushAll_concat by reflexivity. cbn [_buffer newFrameDecoder app].
    rewrite Hc, (parse_encoded_app M frames pre HM).
    rewrite (parse_partial_frame ty p pre post Hp Hsplit Hpost).
    cbn [fst snd]. rewrite app_nil_r. reflexivity.
  - rewrite push_open by reflexivity. cbn [_buffer]. rewrite Hsplit.
    rewrite <- (app_nil_r (wire_frame ty p)), parse_wire_frame by exact Hp.
    reflexivity.
Qed.

Lemma decoder_waits_for_whole_frame_witness :
  pushAll newFrameDecoder [[x00; x00]; [x00; x00; x01; x00]; [x00; x00; x02; x01; x4f]]
  = inr (mkDecoder [x00; x00; x00; x02; x01; x4f] false, [mkMessage RESPONSE []]) /\
  push (mkDecoder [x00; x00; x00; x02; x01; x4f] false) (IsBuffer [x4b])
  = inr (newFrameDecoder, [mkMessage 1 [x4f; x4b]]).
Proof.
  assert (HM : Forall2 encodes [mkMessage RESPONSE []] [[x00; x00; x00; x00; x01]])
    by (repeat constructor).
  assert (Hp : blength [x4f; x4b] <= 4294967295) by (cbv; discriminate).
  assert (Hpost : [x4b] <> []) by discriminate.
  exact (decoder_waits_for_whole_frame
           [mkMessage RESPONSE []] [[x00; x00; x00; x00; x01]]
           [[x00; x00]; [x00; x00; x01; x00]; [x00; x00; x02; x01; x4f]]
           x01 [x4f; x4b] [x00; x00; x00; x02; x01; x4f] [x4b]
           HM Hp eq_refl Hpost eq_refl).
Defined.

(** An empty chunk changes nothing: pushed into a decoder that any chunks
    have gone through, it emits no message and leaves the buffer as it
    was. *)
Theorem push_empty_chunk (chunks : list Buffer) (d : FrameDecoder)
        (ms : list Message) :
  pushAll newFrameDecoder chunks = inr (d, ms) ->
  push d (IsBuffer []) = inr (d, []).
Proof.
  rewrite pushAll_concat by reflexivity. cbn [_buffer newFrameDecoder app].
  intros H. injection H as Hd _. subst d.
  rewrite push_open by reflexivity. cbn [_buffer]. rewrite app_nil_r.
  rewrite parse_rest_stable. reflexivity.
Qed.

Lemma push_empty_chunk_witness :
  pushAll newFrameDecoder [[x00; x00; x00]] = inr (mkDecoder [x00; x00; x00] false, []) /\
  push (mkDecoder [x00; x00; x00] false) (IsBuffer [])
  = inr (mkDecoder [x00; x00; x00] false, []).
Proof.
  assert (H : pushAll newFrameDecoder [[x00; x00; x00]]
              = inr (mkDecoder [x00; x00; x00] false, [])) by reflexivity.
  split; [exact H|]. exact (push_empty_chunk _ _ _ H).
Defined.

(** [encodeMessage] returns a frame exactly for a Buffer of at most
    2^32 - 1 bytes and a type 0 or 1.  The payload is checked first: what is
    not a Buffer raises the TypeError whatever the type; a Buffer too long
    for the length field raises the range error of [writeUInt32BE]. *)
Theorem encodeMessage_succeeds_iff (t : Z) (payload : jsarg) :
  ((exists frame : Buffer, encodeMessage t payload = inr frame) <->
   (exists p : Buffer,
       payload = IsBuffer p /\ (t = REQUEST \/ t = RESPONSE) /\
       blength p <= 4294967295)) /\
  (payload = NotBuffer ->
   encodeMessage t payload = inl (TypeError "payload must be a Buffer")) /\
  (forall p : Buffer,
      payload = IsBuffer p -> t = REQUEST \/ t = RESPONSE ->
      4294967295 < blength p ->
      encodeMessage t payload = inl ERR_OUT_OF_RANGE).
Proof.
  split; [split|split].
  - intros [frame H]. destruct payload as [p|]; [|discriminate H].
    exists p. apply encodeMessage_inr in H. tauto.
  - intros (p & -> & Ht & Hp). eexists. apply encodeMessage_ok; assumption.
  - intros ->. reflexivity.
  - intros p -> Ht Hp. unfold encodeMessage, writeUInt32BE.
    apply Z.ltb_lt in Hp. rewrite Hp, orb_true_r.
    destruct Ht as [-> | ->]; reflexivity.
Qed.

End StreamFacts.

Section SenderProgress.
Import Sender Stream.

Lemma enqueued_settles (oks : list bool) : enqueued (map Settle oks) = [].
Proof. induction oks as [|ok oks IH]; [reflexivity|exact IH]. Qed.

(** The loop leaves no more items pending than it was given. *)
Lemma sendLoop_pending (q : list Item) :
  forall (w : list Protocol.Buffer) (st : list (Item * Outcome)),
    (List.length (queue (sendLoop q [] w st))
     + List.length (inFlight (sendLoop q [] w st)) <= List.length q)%nat.
Proof.
  induction q as [|item q IH]; intros w st; [cbn; lia|].
  cbn [sendLoop].
  destruct (Protocol.encodeMessage (type item) (payload item)).
  - specialize (IH w (st ++ [(item, Rejected)])). cbn [List.length]. lia.
  - cbn [queue inFlight app List.length]. lia.
Qed.

(** Every settlement of the write in flight takes at least one item off
    what is pending. *)
Lemma settle_progress (s : MessageSendQueue) (ok : bool) :
  sender_idle_or_one s ->
  (List.length (queue (settle s ok)) + List.length (inFlight (settle s ok))
   <= pred (List.length (queue s) + List.length (inFlight s)))%nat.
Proof.
  intros [(_ & Hf & Hq)|(_ & item & Hf)]; unfold settle; rewrite Hf.
  - cbv iota. rewrite Hf, Hq. cbn. lia.
  - pose proof (sendLoop_pending (queue s) (written s)
                  (settled s ++ [(item, if ok then Resolved else Rejected)])).
    cbn [List.length]. lia.
Qed.

Lemma settles_drain (oks : list bool) :
  forall events : list Event,
    (List.length (queue (run events)) + List.length (inFlight (run events))
     <= List.length oks)%nat ->
    queue (run (events ++ map Settle oks)) = [] /\
    inFlight (run (events ++ map Settle oks)) = [].
Proof.
  induction oks as [|ok oks IH]; intros events H.
  - cbn [map]. rewrite app_nil_r. cbn [List.length] in H.
    destruct (queue (run events)); [|cbn in H; lia].
    destruct (inFlight (run events)); [auto|cbn in H; lia].
  - cbn [map]. change (Settle ok :: map Settle oks)
      with ([Settle ok] ++ map Settle oks).
    rewrite app_assoc. apply IH. rewrite run_snoc. cbn [step].
    pose proof (settle_progress (run events) ok (proj1 (run_invariant events))).
    cbn [List.length] in H. lia.
Qed.

(** The queue drains.  Whatever was enqueued and whenever, once as many
    writes have settled (well or badly) as items were pending, nothing is
    queued or in flight, [isSending] is clear, every enqueue promise is
    settled, in enqueue order, and the socket was handed the frame of every
    item that encodes, in enqueue order. *)
Theorem sender_drains (events : list Event) (oks : list bool) :
  (List.length (queue (run events)) + List.length (inFlight (run events))
   <= List.length oks)%nat ->
  queue (run (events ++ map Settle oks)) = [] /\
  inFlight (run (events ++ map Settle oks)) = [] /\
  isSending (run (events ++ map Settle oks)) = false /\
  map fst (settled (run (events ++ map Settle oks))) = enqueued events /\
  written (run (events ++ map Settle oks)) = frames (enqueued events).
Proof.
  intros H. destruct (settles_drain oks events H) as [Hq Hf].
  destruct (run_invariant (events ++ map Settle oks))
    as (Hi & taken & Ht & Hw & Hs).
  rewrite enqueued_app, enqueued_settles, app_nil_r, Hq, app_nil_r in Ht.
  rewrite Hf, app_nil_r in Hs. subst taken.
  split; [exact Hq|]. split; [exact Hf|]. split; [|split; [exact Hs|exact Hw]].
  destruct Hi as [(Hi & _)|(_ & item & Hi)]; [exact Hi|].
  rewrite Hf in Hi. discriminate Hi.
Qed.

Lemma sender_drains_witness :
  queue (run ([Enqueue 0 (Protocol.IsBuffer [x41]); Enqueue 7 (Protocol.IsBuffer []);
               Enqueue 1 (Protocol.IsBuffer [x42])]
              ++ map Settle [true; false; true])) = [] /\
  written (run ([Enqueue 0 (Protocol.IsBuffer [x41]); Enqueue 7 (Protocol.IsBuffer []);
                 Enqueue 1 (Protocol.IsBuffer [x42])]
                ++ map Settle [true; false; true]))
  = [[x00; x00; x00; x01; x00; x41]; [x00; x00; x00; x01; x01; x42]].
Proof.
  assert (H : (List.length (queue (run [Enqueue 0 (Protocol.IsBuffer [x41]);
                                         Enqueue 7 (Protocol.IsBuffer []);
                                         Enqueue 1 (Protocol.IsBuffer [x42])]))
               + List.length (inFlight (run [Enqueue 0 (Protocol.IsBuffer [x41]);
                                             Enqueue 7 (Protocol.IsBuffer []);
                                             Enqueue 1 (Protocol.IsBuffer [x42])]))
               <= List.length [true; false; true])%nat) by (vm_compute; lia).
  pose proof (sender_drains _ _ H) as (Hq & _ & _ & _ & Hw).
  split; [exact Hq|exact Hw].
Defined.

Lemma sendLoop_settled_well (q : list Item) :
  forall (inF : list Item) (w : list Protocol.Buffer) (st : list (Item * Outcome)),
    Forall encoded inF -> Forall settled_well st ->
    Forall encoded (inFlight (sendLoop q inF w st)) /\
    Forall settled_well (settled (sendLoop q inF w st)).
Proof.
  induction q as [|item q IH]; intros inF w st HF HS; [split; assumption|].
  cbn [sendLoop].
  destruct (Protocol.encodeMessage (type item) (payload item)) as [e|f] eqn:E.
  - apply IH; [exact HF|]. apply Forall_app. split; [exact HS|].
    repeat constructor. intros H. discriminate H.
  - cbn [inFlight settled]. split; [|exact HS].
    apply Forall_app. split; [exact HF|]. repeat constructor.
    exists f. exact E.
Qed.

(** No enqueue promise resolves for an item that was not written.  In
    every state the queue reaches, an item whose promise is resolved is one
    [encodeMessage] took, and so is the item in flight; an item it rejects
    (a type other than 0 and 1, a payload that is no Buffer) has its promise
    rejected, without a write and without holding the items behind it. *)
Theorem sender_resolves_only_written (events : list Event) :
  Forall (fun io => snd io = Resolved -> encoded (fst io)) (settled (run events)) /\
  Forall encoded (inFlight (run events)) /\
  forall item : Item,
    In item (enqueued events) -> ~ encoded item ->
    In item (queue (run events)) \/ In (item, Rejected) (settled (run events)).
Proof.
  assert (H : Forall encoded (inFlight (run events)) /\
              Forall settled_well (settled (run events))).
  { induction events as [|e events IH] using rev_ind.
    - split; constructor.
    - rewrite run_snoc. destruct IH as [HF HS].
      destruct e as [t p|ok]; cbn [step].
      + unfold enqueue. cbn [isSending queue inFlight written settled].
        destruct (isSending (run events)); cbn [negb]; [split; assumption|].
        unfold _dequeueAndSend. cbn [isSending queue inFlight written settled].
        apply sendLoop_settled_well; assumption.
      + unfold settle. destruct (inFlight (run events)) as [|item rest] eqn:E;
          [rewrite E; split; assumption|].
        inversion HF as [|? ? Hitem Hrest]; subst.
        apply sendLoop_settled_well; [exact Hrest|].
        apply Forall_app. split; [exact HS|]. repeat constructor.
        intros _. exact Hitem. }
  destruct H as [HF HS]. split; [exact HS|]. split; [exact HF|].
  intros item Hin Hne.
  destruct (run_invariant events) as (_ & taken & Ht & _ & Hs).
  rewrite Ht in Hin. apply in_app_iff in Hin. destruct Hin as [Hin|Hin]; [|auto].
  right. rewrite <- Hs in Hin. apply in_app_iff in Hin.
  destruct Hin as [Hin|Hin].
  - apply in_map_iff in Hin. destruct Hin as ([item' o] & Heq & Hin).
    cbn [fst] in Heq. subst item'. destruct o; [|exact Hin].
    rewrite Forall_forall in HS. specialize (HS _ Hin eq_refl). contradiction.
  - rewrite Forall_forall in HF. specialize (HF _ Hin). contradiction.
Qed.

End SenderProgress.

Section DispatcherFacts.
Import Protocol Text Offshore Stream.

Variable portNumber : Buffer -> option Z.
Variable originThrows : ParsedRequest -> bool.
Variable errorMessage : HandlerError -> Buffer.

Lemma offshore_run_snoc (events : list Event) (e : Event) :
  run portNumber originThrows errorMessage (events ++ [e])
  = step portNumber originThrows errorMessage
         (run portNumber originThrows errorMessage events) e.
Proof. unfold run. rewrite fold_left_app. reflexivity. Qed.

Lemma response_only_emit (a : Action) (s : State) :
  response_only a -> Forall response_only (log s) ->
  Forall response_only (log s ++ [a]).
Proof. intros Ha Hs. apply Forall_app. split; [exact Hs|]. repeat constructor. exact Ha. Qed.

(** The offshore sends RESPONSE frames only.  Whatever arrives on the link
    and from the upstream sockets and origins, every frame the dispatcher
    hands to the send queue or writes in its [catch] has type RESPONSE. *)
Theorem offshore_sends_only_responses (events : list Event) :
  Forall response_only (log (run portNumber originThrows errorMessage events)).
Proof.
  induction events as [|e events IH] using rev_ind; [constructor|].
  rewrite offshore_run_snoc.
  set (s := run portNumber originThrows errorMessage events) in *.
  destruct e as [t p| |u|u d|u|u|f raw|f m]; cbn [step].
  - unfold onMessage. destruct (negb (t =? REQUEST)); [exact IH|].
    assert (Hrest :
              Forall response_only
                (log (if same (method (parseHttpRequest p)) (ascii_bytes "CONNECT")
                      then connectBranch portNumber errorMessage (parseHttpRequest p) s
                      else if originThrows (parseHttpRequest p)
                           then handlerCatch errorMessage
                                  (OriginThrew (parseHttpRequest p)) s
                           else mkState (inTunnel s) (tunnelUpstream s) (upstreams s)
                                        (S (fetches s))
                                        (log s ++ [OriginRequest (fetches s)
                                                     (parseHttpRequest p)])))).
    { destruct (same _ _).
      - unfold connectBranch. destruct (path (parseHttpRequest p)) as [target|];
          [|apply response_only_emit; [reflexivity|exact IH]].
        destruct (match nth_error (split (ascii_bytes ":") target) 1 with
                  | Some ((_ :: _) as portStr) => portNumber portStr
                  | _ => Some 443
                  end);
          apply response_only_emit; first [exact IH | exact I | reflexivity].
      - destruct (originThrows _); apply response_only_emit;
          first [exact IH | exact I | reflexivity]. }
    destruct (inTunnel s); [|exact Hrest].
    destruct (tunnelUpstream s); [|exact Hrest].
    apply response_only_emit; [exact I|exact IH].
  - destruct (tunnelUpstream s); [|exact IH].
    apply response_only_emit; [exact I|exact IH].
  - destruct (u <? upstreams s)%nat; [|exact IH].
    apply response_only_emit; [reflexivity|exact IH].
  - destruct (u <? upstreams s)%nat; [|exact IH].
    apply response_only_emit; [reflexivity|exact IH].
  - destruct (u <? upstreams s)%nat; [|exact IH].
    apply response_only_emit; [reflexivity|exact IH].
  - destruct (u <? upstreams s)%nat; exact IH.
  - destruct (f <? fetches s)%nat; [|exact IH].
    apply response_only_emit; [reflexivity|exact IH].
  - destruct (f <? fetches s)%nat; [|exact IH].
    apply response_only_emit; [reflexivity|exact IH].
Qed.

End DispatcherFacts.

Section WorkerFacts.
Import Protocol Text Ship Stream.

Variable mode : bool.
Variable writable : Buffer -> bool.

Ltac fields :=
  cbn [sends waits processing queue inTunnel tunnels closeOnce errorOnce
       immediates exited accepted log
       await_send waitForSingleResponse emit uncaughtException Ship.finally
       set_queue set_processing set_inTunnel set_sends set_waits set_tunnels
       set_closeOnce set_errorOnce set_immediates cleanup installTunnel
       connectCatch].

Lemma one_worker_processNext (s : State) : one_worker s -> one_worker (processNext s).
Proof.
  unfold one_worker, processNext. intros H.
  destruct (processing s) eqn:P; cbn [orb]; [rewrite P; exact H|].
  destruct (Z.of_nat (List.length (queue s)) =? 0); cbn [orb]; [rewrite P; exact H|].
  destruct (inTunnel s); [rewrite P; exact H|].
  destruct (queue s) as [|item rest]; [rewrite P; exact H|].
  fields. rewrite transactions_app, length_app. cbn [transactions List.length]. lia.
Qed.

Lemma transactions_cons (k : Continuation) (ks : list Continuation) :
  transactions (k :: ks) = transactions [k] ++ transactions ks.
Proof. destruct k; reflexivity. Qed.

Lemma resuming_transaction (item : RequestItem) (ks : list Continuation) (s : State) :
  resuming s (Transaction item :: ks) ->
  waits s = [] /\ transactions (sends s) = [] /\ transactions ks = [].
Proof.
  intros [Hw H]. cbn [transactions List.length] in H.
  split; [exact Hw|].
  destruct (processing s), (transactions (sends s)), (transactions ks);
    cbn [List.length] in H; try lia; auto.
Qed.

Lemma resuming_resolved (k : Continuation) (ks : list Continuation)
      (resp : Buffer) (s : State) :
  resuming s (k :: ks) -> resuming (resume_resolved mode writable k resp s) ks.
Proof.
  intros H. destruct k as [item|c head|c|]; cbn [resume_resolved].
  - destruct (resuming_transaction _ _ _ H) as (Hw & Hs & Hk).
    destruct (writable resp); unfold transactionCatch, reject_item;
      [|destruct mode]; split; fields; rewrite ?Hs, ?Hk; auto.
  - destruct H as [Hw H]. cbn [transactions] in H. unfold connectReply.
    destruct (negb (connectEstablished resp)); [split; fields; auto|].
    destruct (negb (blength head =? 0)); split; fields; auto.
    rewrite transactions_app, length_app. cbn [transactions List.length]. lia.
  - destruct H as [Hw H]. cbn [transactions] in H. split; fields; auto.
  - destruct H as [Hw H]. cbn [transactions] in H. split; fields; auto.
Qed.

Lemma resuming_rejected (k : Continuation) (ks : list Continuation) (s : State) :
  resuming s (k :: ks) -> resuming (resume_rejected mode k s) ks.
Proof.
  intros H. destruct k as [item|c head|c|]; cbn [resume_rejected].
  - destruct (resuming_transaction _ _ _ H) as (Hw & Hs & Hk).
    unfold transactionCatch, reject_item.
    destruct mode; split; fields; rewrite ?Hs, ?Hk; auto.
  - destruct H as [Hw H]. cbn [transactions] in H. split; fields; auto.
  - destruct H as [Hw H]. cbn [transactions] in H. split; fields; auto.
  - destruct H as [Hw H]. cbn [transactions] in H. split; fields; auto.
Qed.

Lemma resuming_fold (f : State -> Continuation -> State) (ks : list Continuation) :
  (forall s k ks', resuming s (k :: ks') -> resuming (f s k) ks') ->
  forall s, resuming s ks -> one_worker (fold_left f ks s).
Proof.
  intros Hf. induction ks as [|k ks IH]; intros s H.
  - destruct H as [Hw H]. cbn [fold_left]. unfold one_worker. rewrite Hw.
    cbn [transactions List.length] in *. exact H.
  - cbn [fold_left]. apply IH, Hf, H.
Qed.

Lemma transactions_taken (i : nat) :
  forall (l : list Continuation) (k : Continuation),
    nth_error l i = Some k ->
    (List.length (transactions l)
     = List.length (transactions [k]) + List.length (transactions (remove_nth i l)))%nat.
Proof.
  induction i as [|i IH]; intros [|k' l] k H; try discriminate.
  - injection H as ->. cbn [remove_nth].
    rewrite (transactions_cons k l), length_app. reflexivity.
  - cbn [nth_error] in H. cbn [remove_nth].
    rewrite (transactions_cons k' l), (transactions_cons k' (remove_nth i l)).
    rewrite !length_app, (IH l k H). lia.
Qed.

Lemma one_worker_close_fold (l : list nat) :
  forall s : State,
    one_worker s ->
    one_worker (fold_left (fun st c =>
                  emit [ClientEnd c] (set_inTunnel false (cleanup c st))) l s).
Proof.
  induction l as [|c l IH]; intros s H; [exact H|].
  cbn [fold_left]. apply IH. exact H.
Qed.

Lemma one_worker_handle (s : State) (e : Event) :
  one_worker s -> one_worker (handle mode writable s e).
Proof.
  intros H. destruct e as [item|c raw head|i ok|ms| | | |c data|c|c]; unfold handle.
  - unfold enqueue. apply one_worker_processNext. exact H.
  - unfold one_worker in *. fields. rewrite transactions_app, length_app.
    cbn [transactions List.length]. lia.
  - destruct (nth_error (sends s) i) as [k|] eqn:Ek; [|exact H].
    pose proof (transactions_taken i _ _ Ek) as Hk. cbv zeta.
    set (s' := set_sends (remove_nth i (sends s)) s).
    destruct ok.
    + destruct k as [item|c head|c|]; cbn [transactions List.length] in Hk.
      * unfold one_worker in *. subst s'. fields.
        rewrite transactions_app, length_app. cbn [transactions List.length]. lia.
      * unfold one_worker in *. subst s'. fields.
        rewrite transactions_app, length_app. cbn [transactions List.length]. lia.
      * cbn [resume_resolved]. unfold one_worker in *. subst s'. fields. lia.
      * cbn [resume_resolved]. unfold one_worker in *. subst s'. fields. lia.
    + destruct k as [item|c head|c|]; cbn [transactions List.length] in Hk;
        cbn [resume_rejected]; unfold transactionCatch, reject_item;
        unfold one_worker in *; subst s'.
      * assert (Hz : transactions (remove_nth i (sends s)) = []
                     /\ transactions (waits s) = []).
        { destruct (processing s), (transactions (remove_nth i (sends s))),
            (transactions (waits s)); cbn [List.length] in *; try lia; auto. }
        destruct Hz as [Hz1 Hz2].
        destruct mode; fields; rewrite Hz1, Hz2; reflexivity.
      * fields. lia.
      * fields. lia.
      * fields. lia.
  - cbv zeta.
    set (s1 := if inTunnel s then _ else s).
    assert (H1 : one_worker s1) by (subst s1; destruct (inTunnel s); exact H).
    assert (Hw : waits s1 = waits s) by (subst s1; destruct (inTunnel s); reflexivity).
    destruct (responsePayloads ms) as [|resp resps]; [exact H1|].
    rewrite <- Hw.
    apply (resuming_fold (fun st k => resume_resolved mode writable k resp st)).
    + intros st k ks'. apply resuming_resolved.
    + split; [reflexivity|]. exact H1.
  - destruct (waits s) as [|k ks] eqn:Ew.
    + unfold one_worker in *. fields. rewrite Ew in *. exact H.
    + apply (resuming_fold (fun st k => resume_rejected mode k st)).
      * intros st k' ks'. apply resuming_rejected.
      * split; [reflexivity|]. unfold one_worker in H. rewrite Ew in H. exact H.
  - apply one_worker_close_fold. exact H.
  - destruct (immediates s) as [|n]; [exact H|].
    apply one_worker_processNext. exact H.
  - destruct (mem c (tunnels s)); [|exact H].
    unfold one_worker in *. fields. rewrite transactions_app, length_app.
    cbn [transactions List.length]. lia.
  - destruct (mem c (closeOnce s)); exact H.
  - destruct (mem c (errorOnce s)); exact H.
Qed.

(** One worker, also with tunnels.  Over every sequence of callbacks,
    CONNECT traffic and failures included and whatever the runtime does with
    an unhandled rejection, [requestQueue.processing] is set exactly while
    one transaction is suspended between its REQUEST and its answer, and no
    second transaction is ever started beside it. *)
Theorem one_transaction_at_a_time_with_tunnels (events : list Event) :
  List.length (outstanding (run mode writable events))
  = (if processing (run mode writable events) then 1 else 0)%nat /\
  (List.length (outstanding (run mode writable events)) <= 1)%nat.
Proof.
  assert (H : one_worker (run mode writable events)).
  { induction events as [|e events IH] using rev_ind; [reflexivity|].
    rewrite ship_run_snoc. unfold step.
    destruct (exited (run mode writable events)); [exact IH|].
    apply one_worker_handle. exact IH. }
  unfold one_worker in H. unfold outstanding.
  rewrite transactions_app, length_app, H.
  destruct (processing (run mode writable events)); split; auto.
Qed.

End WorkerFacts.

Section ReconnectRuns.
Import Protocol Link.

Lemma close_sets_reconnect_timer_witness :
  exited newOffshoreConnection = false /\
  (0 < created newOffshoreConnection)%nat /\
  timers newOffshoreConnection = [] /\
  timers (fst (step newOffshoreConnection (SockClose 0))) = [1000] /\
  fst (step (fst (step newOffshoreConnection (SockClose 0))) TimerFired)
  = mkConnection (Some 1%nat) newFrameDecoder (Some Sender.newMessageSendQueue)
                 false 2 [] false.
Proof.
  assert (H : (0 < created newOffshoreConnection)%nat) by (cbn; lia).
  split; [reflexivity|]. split; [exact H|]. split; [reflexivity|].
  exact (close_sets_reconnect_timer newOffshoreConnection 0 eq_refl H eq_refl).
Defined.

Lemma reconnects_every_time_witness :
  exited newOffshoreConnection = false /\
  timers newOffshoreConnection = [] /\
  (0 < created newOffshoreConnection)%nat /\
  created (fst (run_from newOffshoreConnection (losses 0 3))) = 4%nat /\
  timers (fst (run_from newOffshoreConnection (losses 0 3))) = [] /\
  exited (fst (run_from newOffshoreConnection (losses 0 3))) = false /\
  decoder (fst (run_from newOffshoreConnection (losses 0 3))) = newFrameDecoder.
Proof.
  assert (H : (0 < created newOffshoreConnection)%nat) by (cbn; lia).
  split; [reflexivity|]. split; [reflexivity|]. split; [exact H|].
  exact (reconnects_every_time 3 newOffshoreConnection eq_refl eq_refl H).
Defined.

End ReconnectRuns.

Section SendMessageFacts.
Import Protocol SendMessage.

(** A settled send has no listener left and no event changes it. *)
Lemma settled_send_stays (events : list Event) :
  forall (ok : bool) (o : Settlement),
    fold_left step events (mkSend ok false false false (Some o))
    = mkSend ok false false false (Some o).
Proof.
  induction events as [|e events IH]; intros ok o; [reflexivity|].
  cbn [fold_left]. destruct e as [err| | |[err|]]; cbn; try apply IH.
  destruct ok; cbn; apply IH.
Qed.

Lemma pending_send_run (events : list Event) (ok : bool) :
  fold_left step events (mkSend ok true true (negb ok) None)
  = match first_settlement ok events with
    | Some o => mkSend ok false false false (Some o)
    | None => mkSend ok true true (negb ok) None
    end.
Proof.
  induction events as [|e events IH]; [reflexivity|].
  cbn [fold_left first_settlement].
  destruct e as [err| | |[err|]]; cbn [step settles onError onClose onDrain
                                         SendMessage.ok cleanup settle outcome
                                         negb];
    try apply settled_send_stays.
  - destruct ok; cbn [negb]; [exact IH|apply settled_send_stays].
  - destruct ok; cbn [negb]; [apply settled_send_stays|exact IH].
Qed.

(** The promise of [sendMessage] settles once, with the first of: an
    ["error"] or a ["close"] of the socket, an error given to the write
    callback, and what tells that the frame was taken: the write callback
    when [socket.write] returned true, the ["drain"] event when it returned
    false.  So a send that met backpressure is never resolved by its write
    callback, only by a ["drain"]; and nothing that comes after the first
    settlement changes it. *)
Theorem sendMessage_settles_with_first (ok : bool) (messageType : Z)
        (payload : jsarg) (framed : Buffer) (p : Send) (events : list Event) :
  sendMessage ok messageType payload = inr (framed, p) ->
  encodeMessage messageType payload = inr framed /\
  outcome (fold_left step events p) = first_settlement ok events /\
  (ok = false -> outcome (fold_left step events p) = Some Resolved ->
   In Drain events) /\
  forall more : list Event,
    outcome (fold_left step events p) <> None ->
    outcome (fold_left step (events ++ more) p) = outcome (fold_left step events p).
Proof.
  unfold sendMessage. destruct (encodeMessage messageType payload) as [e|f];
    [discriminate|].
  intros H. injection H as <- <-. split; [reflexivity|].
  rewrite pending_send_run.
  assert (Ho : outcome match first_settlement ok events with
                       | Some o => mkSend ok false false false (Some o)
                       | None => mkSend ok true true (negb ok) None
                       end = first_settlement ok events)
    by (destruct (first_settlement ok events); reflexivity).
  split; [exact Ho|]. split.
  - intros -> H. rewrite Ho in H. clear Ho.
    induction events as [|e events IH]; [discriminate H|].
    cbn [first_settlement] in H.
    destruct e as [err| | |[err|]]; cbn [settles] in H;
      try discriminate H; [left; reflexivity|right; auto].
  - intros more H. rewrite Ho in *. rewrite fold_left_app, pending_send_run.
    destruct (first_settlement ok events) as [o|]; [|contradiction].
    rewrite settled_send_stays. reflexivity.
Qed.

Lemma sendMessage_settles_with_first_witness :
  sendMessage false RESPONSE (IsBuffer [x4f; x4b])
  = inr ([x00; x00; x00; x02; x01; x4f; x4b], mkSend false true true true None) /\
  outcome (fold_left step [Written None; Drain; Close]
                     (mkSend false true true true None))
  = Some Resolved.
Proof.
  assert (H : sendMessage false RESPONSE (IsBuffer [x4f; x4b])
              = inr ([x00; x00; x00; x02; x01; x4f; x4b],
                     mkSend false true true true None)) by reflexivity.
  split; [exact H|].
  exact (proj1 (proj2 (sendMessage_settles_with_first
                         false RESPONSE (IsBuffer [x4f; x4b]) _ _
                         [Written None; Drain; Close] H))).
Defined.

(** [sendMessage] leaves no listener behind.  While its promise is pending
    the listeners it installed stand (["error"], ["close"], and ["drain"]
    when [socket.write] returned false); once the promise is settled, in
    whatever way, none of them is left on the socket. *)
Theorem sendMessage_leaves_no_listener (ok : bool) (messageType : Z)
        (payload : jsarg) (framed : Buffer) (p : Send) (events : list Event) :
  sendMessage ok messageType payload = inr (framed, p) ->
  match outcome (fold_left step events p) with
  | Some _ =>
      onError (fold_left step events p) = false /\
      onClose (fold_left step events p) = false /\
      onDrain (fold_left step events p) = false
  | None =>
      onError (fold_left step events p) = true /\
      onClose (fold_left step events p) = true /\
      onDrain (fold_left step events p) = negb ok
  end.
Proof.
  unfold sendMessage. destruct (encodeMessage messageType payload) as [e|f];
    [discriminate|].
  intros H. injection H as <- <-. rewrite pending_send_run.
  destruct (first_settlement ok events); repeat split.
Qed.

Lemma sendMessage_leaves_no_listener_witness :
  sendMessage true REQUEST (IsBuffer [])
  = inr ([x00; x00; x00; x00; x00], mkSend true true true false None) /\
  onError (fold_left step [Drain; Error "EPIPE"] (mkSend true true true false None))
  = false /\
  onClose (fold_left step [Drain; Error "EPIPE"] (mkSend true true true false None))
  = false /\
  onDrain (fold_left step [Drain; Error "EPIPE"] (mkSend true true true false None))
  = false.
Proof.
  assert (H : sendMessage true REQUEST (IsBuffer [])
              = inr ([x00; x00; x00; x00; x00], mkSend true true true false None))
    by reflexivity.
  split; [exact H|].
  exact (sendMessage_leaves_no_listener true REQUEST (IsBuffer []) _ _
           [Drain; Error "EPIPE"] H).
Defined.

End SendMessageFacts.

Section TextFacts.
Import Protocol Text Lines.

Lemma Z_of_byte_inj (a b : byte) : Z_of_byte a = Z_of_byte b -> a = b.
Proof.
  intros H. rewrite <- (byte_of_Z_of_byte a), <- (byte_of_Z_of_byte b), H.
  reflexivity.
Qed.

Lemma same_eq (a b : Buffer) : same a b = true <-> a = b.
Proof.
  split.
  - revert b. induction a as [|x a IH]; intros [|y b] H; try discriminate;
      [reflexivity|].
    cbn [same] in H. apply andb_true_iff in H. destruct H as [H1 H2].
    apply Z.eqb_eq, Z_of_byte_inj in H1. subst. f_equal. auto.
  - intros <-. induction a as [|x a IH]; [reflexivity|].
    cbn [same]. rewrite Z.eqb_refl, IH. reflexivity.
Qed.

Lemma starts_with_app (sep t : Buffer) : starts_with sep (sep ++ t) = true.
Proof.
  induction sep as [|c sep IH]; [reflexivity|].
  cbn [app starts_with]. rewrite Z.eqb_refl, IH. reflexivity.
Qed.

Lemma indexOf_unfold (sep text : Buffer) :
  indexOf sep text
  = if starts_with sep text then Some 0%nat
    else match text with
         | [] => None
         | _ :: text' => option_map S (indexOf sep text')
         end.
Proof. destruct text; reflexivity. Qed.

(** The search passes over text that does not hold the first byte of what
    is searched. *)
Lemma indexOf_skip (c : byte) (sep a t : Buffer) :
  free_of c a ->
  indexOf (c :: sep) (a ++ t)
  = option_map (Nat.add (List.length a)) (indexOf (c :: sep) t).
Proof.
  induction 1 as [|x a Hx _ IH].
  - cbn [app List.length]. destruct (indexOf (c :: sep) t); reflexivity.
  - cbn [app]. rewrite indexOf_unfold. cbn [starts_with].
    apply Z.eqb_neq in Hx. rewrite Z.eqb_sym in Hx. rewrite Hx. cbn [andb].
    rewrite IH. destruct (indexOf (c :: sep) t); reflexivity.
Qed.

Lemma indexOf_none (c : byte) (sep a : Buffer) :
  free_of c a -> indexOf (c :: sep) a = None.
Proof.
  intros H. rewrite <- (app_nil_r a), (indexOf_skip c sep a [] H). reflexivity.
Qed.

Lemma indexOf_found (c : byte) (sep a t : Buffer) :
  free_of c a ->
  indexOf (c :: sep) (a ++ (c :: sep) ++ t) = Some (List.length a).
Proof.
  intros H. rewrite (indexOf_skip c sep a _ H), indexOf_unfold, starts_with_app.
  cbn [option_map]. rewrite Nat.add_0_r. reflexivity.
Qed.

Lemma firstn_length_app {A : Type} (a b : list A) : firstn (List.length a) (a ++ b) = a.
Proof.
  rewrite firstn_app, Nat.sub_diag, firstn_all, firstn_O, app_nil_r. reflexivity.
Qed.

Lemma skipn_length_app {A : Type} (a b : list A) : skipn (List.length a) (a ++ b) = b.
Proof.
  rewrite skipn_app, Nat.sub_diag, skipn_all. reflexivity.
Qed.

Lemma skipn_length_app2 {A : Type} (a s b : list A) :
  skipn (List.length a + List.length s) (a ++ s ++ b) = b.
Proof.
  rewrite app_assoc, <- length_app. apply skipn_length_app.
Qed.

Lemma join_cons2 (sep l l' : Buffer) (ls : list Buffer) :
  Offshore.join sep (l :: l' :: ls) = l ++ sep ++ Offshore.join sep (l' :: ls).
Proof. reflexivity. Qed.

(** [split] undoes [join] on pieces that do not hold the first byte of the
    separator. *)
Lemma split_loop_join (c : byte) (sep : Buffer) (lines : list Buffer) :
  forall fuel : nat,
    lines <> [] -> Forall (free_of c) lines ->
    (List.length lines <= S fuel)%nat ->
    split_loop fuel (c :: sep) (Offshore.join (c :: sep) lines) = lines.
Proof.
  induction lines as [|l lines IH]; intros fuel Hne Hl Hf; [contradiction|].
  inversion Hl as [|? ? Hl1 Hl2]; subst.
  destruct lines as [|l' ls].
  - cbn [Offshore.join]. destruct fuel; cbn [split_loop];
      rewrite (indexOf_none c sep l Hl1); reflexivity.
  - rewrite join_cons2. destruct fuel as [|fuel]; [cbn [List.length] in Hf; lia|].
    cbn [split_loop]. rewrite (indexOf_found c sep l _ Hl1).
    rewrite firstn_length_app, skipn_length_app2.
    rewrite IH; [reflexivity|discriminate|exact Hl2|].
    cbn [List.length] in *. lia.
Qed.

Lemma join_length (sep : Buffer) (lines : list Buffer) :
  sep <> [] ->
  (List.length lines <= S (List.length (Offshore.join sep lines)))%nat.
Proof.
  intros Hs. induction lines as [|l [|l' ls] IH]; [cbn; lia|cbn; lia|].
  rewrite join_cons2, !length_app. cbn [List.length] in *.
  destruct sep; [contradiction|]. cbn [List.length]. lia.
Qed.

Lemma split_join (c : byte) (sep : Buffer) (lines : list Buffer) :
  lines <> [] -> Forall (free_of c) lines ->
  split (c :: sep) (Offshore.join (c :: sep) lines) = lines.
Proof.
  intros Hne Hl. unfold split. apply split_loop_join; try assumption.
  apply join_length. discriminate.
Qed.

(** The first blank line of a head made of lines is the one that ends
    it. *)
Lemma indexOf_blank_line (lines : list Buffer) (rest : Buffer) :
  lines <> [] -> Forall line lines ->
  indexOf (CRLF ++ CRLF) (Offshore.join CRLF lines ++ (CRLF ++ CRLF) ++ rest)
  = Some (List.length (Offshore.join CRLF lines)).
Proof.
  induction lines as [|l lines IH]; intros Hne Hl; [contradiction|].
  inversion Hl as [|? ? [_ Hl1] Hl2]; subst.
  destruct lines as [|l' ls].
  - cbn [Offshore.join]. apply (indexOf_found x0d _ l _ Hl1).
  - rewrite join_cons2, <- !app_assoc.
    change (CRLF ++ CRLF) with (x0d :: [x0a; x0d; x0a]) at 1.
    rewrite (indexOf_skip x0d _ l _ Hl1).
    inversion Hl2 as [|? ? [Hne' Hl'] _]; subst.
    destruct l' as [|x l']; [contradiction|].
    inversion Hl' as [|? ? Hx _]; subst.
    assert (Hstep : forall t : Buffer,
               indexOf (x0d :: [x0a; x0d; x0a]) (CRLF ++ (x :: l') ++ t)
               = option_map (Nat.add 2) (indexOf (x0d :: [x0a; x0d; x0a])
                                                 ((x :: l') ++ t))).
    { intros t. unfold CRLF. cbn [app].
      rewrite indexOf_unfold. cbn [starts_with].
      apply Z.eqb_neq in Hx.
      rewrite (Z.eqb_sym (Z_of_byte x0d) (Z_of_byte x)), Hx.
      rewrite !Z.eqb_refl. cbn [andb].
      rewrite (indexOf_unfold _ (x0a :: _)). cbn [starts_with].
      change (Z_of_byte x0d =? Z_of_byte x0a) with false. cbn [andb].
      destruct (indexOf (x0d :: [x0a; x0d; x0a]) (x :: l' ++ t)); reflexivity. }
    assert (Hj : exists t, Offshore.join CRLF (@cons Buffer (x :: l') ls)
                           = (x :: l') ++ t).
    { destruct ls; [exists []; cbn [Offshore.join]; rewrite app_nil_r; reflexivity|].
      eexists. rewrite join_cons2. reflexivity. }
    destruct Hj as [t Hj]. rewrite Hj, <- !app_assoc, Hstep.
    rewrite !app_assoc, <- Hj, <- !app_assoc.
    change (x0d :: [x0a; x0d; x0a]) with (CRLF ++ CRLF).
    pose proof (IH ltac:(discriminate) Hl2) as IH'.
    rewrite <- app_assoc in IH'. rewrite IH'. cbn [option_map]. f_equal.
    pose proof (f_equal (@List.length byte) Hj) as HL.
    rewrite !length_app. rewrite length_app in HL.
    unfold CRLF in *. cbn [List.length] in *. lia.
Qed.

Lemma digits_of_uint (d : Decimal.uint) :
  Forall (fun b => 48 <= Z_of_byte b <= 57)
         (list_byte_of_string (NilEmpty.string_of_uint d)).
Proof.
  induction d; cbn [NilEmpty.string_of_uint list_byte_of_string];
    constructor; try assumption; cbv; split; discriminate.
Qed.

(** A number prints as decimal digits. *)
Lemma decimal_digits (n : nat) :
  Forall (fun b => 48 <= Z_of_byte b <= 57) (decimal n).
Proof. apply digits_of_uint. Qed.

Lemma three_digits_decimal (n : nat) :
  (100 <= n <= 999)%nat -> three_digits n (decimal n) = true.
Proof.
  intros H.
  assert (Hall : forallb (fun n => three_digits n (decimal n)) (seq 100 900) = true)
    by (vm_compute; reflexivity).
  rewrite forallb_forall in Hall. apply Hall, in_seq. lia.
Qed.

End TextFacts.

Section Utf8Facts.
Import Protocol Text Utf8.

Lemma between_range (lo hi : Z) (b : byte) :
  between lo hi b = true -> lo <= Z_of_byte b <= hi.
Proof. unfold between. intros H. apply andb_true_iff in H. lia. Qed.

Lemma toString_ascii_cons (b : byte) (r : Buffer) :
  Z_of_byte b < 128 -> toString (b :: r) = b :: toString r.
Proof.
  intros H. cbn [toString].
  replace (between 0 127 b) with true; [reflexivity|].
  symmetry. unfold between. pose proof (Z_of_byte_range b).
  apply andb_true_iff. split; [apply Z.leb_le|apply Z.leb_le]; lia.
Qed.

(** ASCII text decodes to itself, whatever follows it. *)
Lemma toString_ascii_app (a r : Buffer) :
  Forall (fun b => Z_of_byte b < 128) a -> toString (a ++ r) = a ++ toString r.
Proof.
  induction 1 as [|b a Hb _ IH]; [reflexivity|].
  cbn [app]. rewrite (toString_ascii_cons b _ Hb), IH. reflexivity.
Qed.

Lemma replacement_utf8 : Forall utf8_byte replacement.
Proof. repeat constructor; cbv; discriminate. Qed.

Ltac decode_cases :=
  repeat match goal with
         | |- context [if between ?lo ?hi ?b then _ else _] =>
             let E := fresh "E" in destruct (between lo hi b) eqn:E
         | |- context [match ?r with [] => _ | _ :: _ => _ end] => destruct r
         end.

Ltac byte_facts :=
  repeat match goal with
         | H : between _ _ _ = true |- _ => apply between_range in H
         | H : context [if ?c then _ else _] |- _ => destruct c
         end.

(** The decoder's text is UTF-8: no byte of it is 192, 193 or above 244. *)
Lemma toString_utf8 :
  forall (n : nat) (buf : Buffer),
    (List.length buf <= n)%nat -> Forall utf8_byte (toString buf).
Proof.
  induction n as [|n IH]; intros buf Hn.
  - destruct buf; [constructor|cbn in Hn; lia].
  - destruct buf as [|b0 r0]; [constructor|]. cbn [toString].
    cbn [List.length] in Hn.
    decode_cases;
      repeat first [ apply Forall_nil
                   | exact replacement_utf8
                   | apply Forall_app; split
                   | apply IH; cbn [List.length] in *; lia
                   | apply Forall_cons ];
      byte_facts; unfold utf8_byte; lia.
Qed.

(** Text that does not begin with an ASCII byte does not decode to text
    that does. *)
Lemma toString_head (b0 : byte) (r0 : Buffer) :
  128 <= Z_of_byte b0 ->
  exists (c : byte) (rest : Buffer),
    toString (b0 :: r0) = c :: rest /\ 128 <= Z_of_byte c.
Proof.
  intros H. cbn [toString].
  decode_cases; unfold replacement; cbn [app];
    try (eexists; eexists; split; [reflexivity|]; first [exact H | cbv; discriminate]).
Qed.

Lemma starts_with_toString (prefix buf : Buffer) :
  Forall (fun b => Z_of_byte b < 128) prefix ->
  starts_with prefix (toString buf) = starts_with prefix buf.
Proof.
  intros Hp. revert buf. induction Hp as [|p prefix Hp _ IH]; intros buf;
    [reflexivity|].
  destruct buf as [|b0 r0]; [reflexivity|].
  destruct (Z.lt_ge_cases (Z_of_byte b0) 128) as [Hb|Hb].
  - rewrite (toString_ascii_cons b0 r0 Hb). cbn [starts_with]. rewrite IH.
    reflexivity.
  - destruct (toString_head b0 r0 Hb) as (c & rest & -> & Hc).
    cbn [starts_with].
    replace (Z_of_byte p =? Z_of_byte c) with false by (symmetry; apply Z.eqb_neq; lia).
    replace (Z_of_byte p =? Z_of_byte b0) with false by (symmetry; apply Z.eqb_neq; lia).
    reflexivity.
Qed.

Ltac ill_formed H :=
  solve [ discriminate H
        | unfold replacement in H; cbn [app] in H; injection H; intros; subst;
          repeat match goal with
                 | E : between _ _ _ = _ |- _ =>
                     vm_compute in E; try discriminate E; clear E
                 end ].

(** Well-formed text decodes to itself, whatever follows it. *)
Lemma toString_well_formed :
  forall (n : nat) (a r : Buffer),
    (List.length a <= n)%nat -> well_formed a ->
    toString (a ++ r) = a ++ toString r.
Proof.
  unfold well_formed.
  induction n as [|n IH]; intros a r Hn Ha.
  - destruct a; [reflexivity|cbn in Hn; lia].
  - destruct a as [|b0 r0]; [reflexivity|].
    cbn [List.length] in Hn. revert Ha. cbn [app toString].
    assert (Hk : forall (p t : Buffer),
               (List.length t <= n)%nat -> p ++ toString t = p ++ t ->
               p ++ toString (t ++ r) = (p ++ t) ++ toString r).
    { intros p t Ht H. apply app_inv_head in H.
      rewrite (IH t r Ht H), app_assoc. reflexivity. }
    destruct (between 0 127 b0) eqn:E0.
    { intros Ha. apply (Hk [b0] r0); [lia|exact Ha]. }
    destruct (between 194 223 b0) eqn:E1.
    { destruct r0 as [|b1 r1]; cbn [app]; [intros Ha; ill_formed Ha|].
      cbn [List.length] in Hn.
      destruct (between 128 191 b1) eqn:E2; intros Ha; [|ill_formed Ha].
      apply (Hk [b0; b1] r1); [lia|exact Ha]. }
    destruct (between 224 239 b0) eqn:E3.
    { destruct r0 as [|b1 r1]; cbn [app]; [intros Ha; ill_formed Ha|].
      cbn [List.length] in Hn.
      destruct (between (if Z_of_byte b0 =? 224 then 160 else 128)
                        (if Z_of_byte b0 =? 237 then 159 else 191) b1) eqn:E4;
        [|intros Ha; ill_formed Ha].
      destruct r1 as [|b2 r2]; cbn [app]; [intros Ha; ill_formed Ha|].
      cbn [List.length] in Hn.
      destruct (between 128 191 b2) eqn:E5; intros Ha; [|ill_formed Ha].
      apply (Hk [b0; b1; b2] r2); [lia|exact Ha]. }
    destruct (between 240 244 b0) eqn:E6.
    { destruct r0 as [|b1 r1]; cbn [app]; [intros Ha; ill_formed Ha|].
      cbn [List.length] in Hn.
      destruct (between (if Z_of_byte b0 =? 240 then 144 else 128)
                        (if Z_of_byte b0 =? 244 then 143 else 191) b1) eqn:E7;
        [|intros Ha; ill_formed Ha].
      destruct r1 as [|b2 r2]; cbn [app]; [intros Ha; ill_formed Ha|].
      cbn [List.length] in Hn.
      destruct (between 128 191 b2) eqn:E8; [|intros Ha; ill_formed Ha].
      destruct r2 as [|b3 r3]; cbn [app]; [intros Ha; ill_formed Ha|].
      cbn [List.length] in Hn.
      destruct (between 128 191 b3) eqn:E9; intros Ha; [|ill_formed Ha].
      apply (Hk [b0; b1; b2; b3] r3); [lia|exact Ha]. }
    intros Ha; ill_formed Ha.
Qed.

Lemma toString_well_formed_app (a r : Buffer) :
  well_formed a -> toString (a ++ r) = a ++ toString r.
Proof. apply (toString_well_formed (List.length a)). lia. Qed.

Lemma well_formed_app (a b : Buffer) :
  well_formed a -> well_formed b -> well_formed (a ++ b).
Proof.
  intros Ha Hb. unfold well_formed. rewrite (toString_well_formed_app a b Ha), Hb.
  reflexivity.
Qed.

Lemma well_formed_ascii (a : Buffer) :
  Forall (fun b => Z_of_byte b < 128) a -> well_formed a.
Proof.
  intros H. unfold well_formed.
  rewrite <- (app_nil_r a) at 1. rewrite (toString_ascii_app a [] H).
  apply app_nil_r.
Qed.

End Utf8Facts.

Section HeadFacts.
Import Protocol Text Utf8 Lines.

Lemma ascii_line_ascii (text : Buffer) :
  ascii_line text -> Forall (fun b => Z_of_byte b < 128) text.
Proof. apply Forall_impl. tauto. Qed.

Lemma ascii_line_free (text : Buffer) : ascii_line text -> free_of x0d text.
Proof. apply Forall_impl. intros b H. change (Z_of_byte x0d) with 13. tauto. Qed.

Lemma ascii_line_app (a b : Buffer) :
  ascii_line a -> ascii_line b -> ascii_line (a ++ b).
Proof. intros Ha Hb. apply Forall_app. auto. Qed.

Lemma ascii_line_digits (text : Buffer) :
  Forall (fun b => 48 <= Z_of_byte b <= 57) text -> ascii_line text.
Proof. apply Forall_impl. intros b H. lia. Qed.

Lemma ascii_line_literal (text : Buffer) :
  forallb (fun b => (Z_of_byte b <? 128) && negb (Z_of_byte b =? 13)
                    && negb (Z_of_byte b =? 10)) text = true ->
  ascii_line text.
Proof.
  intros H. rewrite forallb_forall in H. apply Forall_forall. intros b Hb.
  specialize (H b Hb). apply andb_true_iff in H. destruct H as [H H3].
  apply andb_true_iff in H. destruct H as [H1 H2].
  apply Z.ltb_lt in H1. apply negb_true_iff, Z.eqb_neq in H2.
  apply negb_true_iff, Z.eqb_neq in H3. auto.
Qed.

Lemma free_of_app (c : byte) (a b : Buffer) :
  free_of c a -> free_of c b -> free_of c (a ++ b).
Proof. intros Ha Hb. apply Forall_app. auto. Qed.

Lemma ascii_join (lines : list Buffer) :
  Forall (fun l => Forall (fun b => Z_of_byte b < 128) l) lines ->
  Forall (fun b => Z_of_byte b < 128) (Offshore.join CRLF lines).
Proof.
  induction 1 as [|l lines Hl Hls IH]; [constructor|].
  destruct lines as [|l' ls]; [exact Hl|].
  rewrite join_cons2. apply Forall_app. split; [exact Hl|].
  apply Forall_app. split; [|exact IH].
  repeat constructor; cbv; reflexivity.
Qed.

(** A head made of a first line and at least one more, ended by a blank
    line and followed by anything: the first blank line is the one that ends
    the head, and the head splits into its lines. *)
Lemma head_found (first : Buffer) (lines : list Buffer) (rest : Buffer) :
  line first -> lines <> [] -> Forall line lines ->
  indexOf (CRLF ++ CRLF)
          ((first ++ CRLF ++ Offshore.join CRLF lines ++ CRLF ++ CRLF) ++ rest)
  = Some (List.length (first ++ CRLF ++ Offshore.join CRLF lines)) /\
  split CRLF (first ++ CRLF ++ Offshore.join CRLF lines) = first :: lines.
Proof.
  intros Hf Hne Hl. destruct lines as [|l ls]; [contradiction|].
  rewrite <- (join_cons2 CRLF first l ls). split.
  - replace ((first ++ CRLF ++ Offshore.join CRLF (l :: ls) ++ CRLF ++ CRLF) ++ rest)
      with (Offshore.join CRLF (first :: l :: ls) ++ (CRLF ++ CRLF) ++ rest)
      by (rewrite join_cons2, <- !app_assoc; reflexivity).
    apply indexOf_blank_line; [discriminate|]. constructor; assumption.
  - apply (split_join x0d [x0a]); [discriminate|].
    constructor; [exact (proj2 Hf)|].
    eapply Forall_impl; [|exact Hl]. intros a Ha. exact (proj2 Ha).
Qed.

Lemma head_taken (head rest : Buffer) :
  firstn (List.length head) ((head ++ CRLF ++ CRLF) ++ rest) = head /\
  skipn (List.length head + List.length (CRLF ++ CRLF))
        ((head ++ CRLF ++ CRLF) ++ rest) = rest.
Proof.
  rewrite <- !app_assoc. split; [apply firstn_length_app|].
  rewrite (app_assoc CRLF CRLF rest). apply skipn_length_app2.
Qed.

Lemma Forall_skipn {A : Type} (P : A -> Prop) (n : nat) (l : list A) :
  Forall P l -> Forall P (skipn n l).
Proof.
  revert l. induction n as [|n IH]; intros l H; [exact H|].
  destruct l as [|x l]; [constructor|]. inversion H; subst. cbn [skipn]. auto.
Qed.

Lemma starts_with_firstn (prefix text : Buffer) (k : nat) :
  starts_with prefix (firstn k text) = true -> starts_with prefix text = true.
Proof.
  revert text k. induction prefix as [|p prefix IH]; intros text k H; [reflexivity|].
  destruct text as [|c text]; [destruct k; discriminate H|].
  destruct k as [|k]; [discriminate H|].
  cbn [firstn starts_with] in *. apply andb_true_iff in H. destruct H as [H1 H2].
  rewrite H1, (IH _ _ H2). reflexivity.
Qed.

Lemma hd_split_prefix (sep text : Buffer) :
  exists k : nat, hd [] (split sep text) = firstn k text.
Proof.
  unfold split. destruct (List.length text) as [|fuel] eqn:E; cbn [split_loop].
  - exists 0%nat. destruct text; [|discriminate E].
    destruct (indexOf sep []); reflexivity.
  - destruct (indexOf sep text) as [i|].
    + exists i. reflexivity.
    + exists (List.length text). rewrite firstn_all. reflexivity.
Qed.

End HeadFacts.

Section ResponseFacts.
Import Protocol Text Utf8 Lines Http.

(** An ASCII byte that is no white space begins no white space. *)
Lemma skip_space_ascii (b : byte) (r : Buffer) :
  Z_of_byte b < 128 ->
  ~ (9 <= Z_of_byte b <= 13) -> Z_of_byte b <> 32 ->
  Ship.skip_space (b :: r) = None.
Proof.
  intros H1 H2 H3. unfold Ship.skip_space.
  assert (E0 : ((9 <=? Z_of_byte b) && (Z_of_byte b <=? 13)) || (Z_of_byte b =? 32)
               = false).
  { apply orb_false_iff. split; [|apply Z.eqb_neq; exact H3].
    apply andb_false_iff.
    destruct (Z.leb_spec 9 (Z_of_byte b)); [right; apply Z.leb_gt; lia|left; reflexivity]. }
  rewrite E0.
  assert (E1 : (Z_of_byte b =? 194) = false) by (apply Z.eqb_neq; lia).
  assert (E2 : (Z_of_byte b =? 225) = false) by (apply Z.eqb_neq; lia).
  assert (E3 : (Z_of_byte b =? 226) = false) by (apply Z.eqb_neq; lia).
  assert (E4 : (Z_of_byte b =? 227) = false) by (apply Z.eqb_neq; lia).
  assert (E5 : (Z_of_byte b =? 239) = false) by (apply Z.eqb_neq; lia).
  destruct r as [|b1 [|b2 r]]; rewrite ?E1, ?E2, ?E3, ?E4, ?E5; reflexivity.
Qed.

Lemma skip_spaces_none (fuel : nat) (text : Buffer) :
  Ship.skip_space text = None -> Ship.skip_spaces fuel text = text.
Proof. intros H. destruct fuel; cbn [Ship.skip_spaces]; rewrite ?H; reflexivity. Qed.

Lemma is_digit_range (b : byte) : Ship.is_digit b = true -> 48 <= Z_of_byte b <= 57.
Proof. unfold Ship.is_digit. intros H. apply andb_true_iff in H. lia. Qed.

Lemma no_line_terminator_ascii (text : Buffer) :
  ascii_line text -> no_line_terminator text = true.
Proof.
  induction 1 as [|b text (H1 & H2 & H3) _ IH]; [reflexivity|].
  cbn [no_line_terminator]. rewrite IH.
  apply Z.eqb_neq in H2, H3. rewrite H2, H3.
  assert (E : (Z_of_byte b =? 226) = false) by (apply Z.eqb_neq; lia).
  destruct text as [|b1 [|b2 r]]; rewrite ?E; reflexivity.
Qed.

(** The status line [buildRawHttpResponse] prints is matched, and gives
    back the code and the message. *)
Lemma statusLineMatch_built (statusCode : nat) (statusMessage : Buffer) :
  (100 <= statusCode <= 999)%nat ->
  ascii_line statusMessage -> Ship.skip_space statusMessage = None ->
  statusLineMatch (ascii_bytes "HTTP/1.1" ++ ascii_bytes " " ++ decimal statusCode
                   ++ ascii_bytes " " ++ statusMessage)
  = Some (statusCode, statusMessage).
Proof.
  intros Hc Hm Hs. pose proof (three_digits_decimal statusCode Hc) as Hd.
  destruct (decimal statusCode) as [|c1 [|c2 [|c3 [|c4 ds]]]]; try discriminate Hd.
  cbn [three_digits] in Hd.
  apply andb_true_iff in Hd. destruct Hd as [Hd Hv].
  apply andb_true_iff in Hd. destruct Hd as [Hd H3].
  apply andb_true_iff in Hd. destruct Hd as [H1 H2].
  apply Nat.eqb_eq in Hv.
  change (ascii_bytes "HTTP/1.1" ++ ascii_bytes " " ++ [c1; c2; c3]
          ++ ascii_bytes " " ++ statusMessage)
    with (x48 :: x54 :: x54 :: x50 :: x2f :: x31 :: x2e :: x31
          :: x20 :: c1 :: c2 :: c3 :: x20 :: statusMessage).
  unfold statusLineMatch.
  lazymatch goal with
  | |- (if ?c then _ else _) = _ => change c with true
  end.
  cbv iota.
  change (Ship.skip_space (x20 :: c1 :: c2 :: c3 :: x20 :: statusMessage))
    with (Some (c1 :: c2 :: c3 :: x20 :: statusMessage)).
  cbv iota. cbn [List.length Ship.skip_spaces].
  pose proof (is_digit_range c1 H1) as R1.
  rewrite (skip_space_ascii c1) by lia.
  rewrite H1, H2, H3. cbn [andb]. cbv zeta.
  cbn [List.length Ship.skip_spaces].
  change (Ship.skip_space (x20 :: statusMessage)) with (Some statusMessage).
  cbv iota. rewrite (skip_spaces_none _ _ Hs).
  rewrite (no_line_terminator_ascii _ Hm), Hv. reflexivity.
Qed.

Lemma headerLine_line (kv : Buffer * Buffer) :
  free_of x0d (fst kv) -> free_of x0d (snd kv) -> line (headerLine kv).
Proof.
  intros Hk Hv. unfold headerLine. split.
  - destruct (fst kv); discriminate.
  - apply free_of_app; [exact Hk|]. apply free_of_app; [|exact Hv].
    repeat constructor; cbv; discriminate.
Qed.

Lemma built_head_ascii (statusCode : nat) (statusMessage : Buffer)
      (headers : list (Buffer * Buffer)) :
  ascii_line statusMessage ->
  Forall (fun kv => ascii_line (fst kv) /\ ascii_line (snd kv)) headers ->
  Forall (fun b => Z_of_byte b < 128)
         ((ascii_bytes "HTTP/1.1" ++ ascii_bytes " " ++ decimal statusCode
           ++ ascii_bytes " " ++ statusMessage)
          ++ CRLF ++ Offshore.join CRLF (map headerLine headers) ++ CRLF ++ CRLF).
Proof.
  intros Hm Hh.
  assert (Hlit : forall text : Buffer,
             forallb (fun b => Z_of_byte b <? 128) text = true ->
             Forall (fun b => Z_of_byte b < 128) text).
  { intros text H. rewrite forallb_forall in H. apply Forall_forall.
    intros b Hb. apply Z.ltb_lt, H, Hb. }
  repeat (apply Forall_app; split);
    try (apply Hlit; reflexivity).
  - eapply Forall_impl; [|exact (decimal_digits statusCode)]. intros b H. cbv beta in H. lia.
  - apply ascii_line_ascii, Hm.
  - apply ascii_join. apply Forall_forall. intros l Hl.
    apply in_map_iff in Hl. destruct Hl as (kv & <- & Hkv).
    rewrite Forall_forall in Hh. destruct (Hh kv Hkv) as [Hk Hv].
    unfold headerLine. repeat (apply Forall_app; split);
      [apply ascii_line_ascii, Hk|apply Hlit; reflexivity|apply ascii_line_ascii, Hv].
Qed.

(** What [parseRawHttpResponse] makes of what [buildRawHttpResponse]
    built. *)
Lemma parse_built_response (code : nat) (phrase : Buffer)
        (headers : list (Buffer * Buffer)) (bodyBuffer : Buffer) :
  (100 <= code <= 999)%nat ->
  ascii_line phrase -> Ship.skip_space phrase = None ->
  headers <> [] ->
  Forall (fun kv => ascii_line (fst kv) /\ ascii_line (snd kv)) headers ->
  parseRawHttpResponse
    (Offshore.buildRawHttpResponse code phrase headers bodyBuffer)
  = mkResponse code phrase (map headerLine headers) (toString bodyBuffer).
Proof.
  intros Hc Hm Hs Hne Hh.
  pose proof (toString_ascii_app _ bodyBuffer
                (built_head_ascii code phrase headers Hm Hh)) as Ht.
  pose proof (statusLineMatch_built code phrase Hc Hm Hs) as HM.
  set (statusLine := ascii_bytes "HTTP/1.1" ++ ascii_bytes " " ++ decimal code
                     ++ ascii_bytes " " ++ phrase) in *.
  assert (Hsl : line statusLine).
  { split; [discriminate|]. subst statusLine.
    repeat (apply free_of_app; [try (repeat constructor; cbv; discriminate)|]).
    - eapply Forall_impl; [|exact (decimal_digits code)].
      intros b H. cbv beta in H. change (Z_of_byte x0d) with 13. lia.
    - apply ascii_line_free, Hm. }
  assert (Hls : Forall line (map headerLine headers)).
  { apply Forall_forall. intros l Hl. apply in_map_iff in Hl.
    destruct Hl as (kv & <- & Hkv). rewrite Forall_forall in Hh.
    destruct (Hh kv Hkv) as [Hk Hv].
    apply headerLine_line; apply ascii_line_free; assumption. }
  assert (Hne' : map headerLine headers <> [])
    by (destruct headers; [contradiction|discriminate]).
  destruct (head_found statusLine (map headerLine headers) (toString bodyBuffer)
              Hsl Hne' Hls) as [Hi Hsp].
  destruct (head_taken (statusLine ++ CRLF ++ Offshore.join CRLF (map headerLine headers))
              (toString bodyBuffer)) as [Hf Hk].
  rewrite <- !app_assoc in Hf, Hk, Hi, Ht.
  unfold parseRawHttpResponse, Offshore.buildRawHttpResponse. cbv zeta.
  fold statusLine.
  change (fun kv : list byte * list byte => fst kv ++ ascii_bytes ": " ++ snd kv)
    with headerLine.
  cbv delta [Buffer] in *.
  rewrite <- !app_assoc.
  rewrite Ht, <- !app_assoc, Hi, Hf, Hk, Hsp. cbn [hd tl]. rewrite HM.
  reflexivity.
Qed.

(** The ship reads back what the offshore wrote.  For a status code of
    three digits, a reason phrase and at least one header, all of them ASCII
    text without line breaks (the phrase not beginning with white space),
    and any body: [parseRawHttpResponse] of what [buildRawHttpResponse]
    built gives the code, the phrase and the header lines back, and as body
    the bytes of the body decoded as UTF-8 and encoded again. *)
Theorem response_round_trip (code : nat) (phrase : Buffer)
        (headers : list (Buffer * Buffer)) (bodyBuffer : Buffer) :
  (100 <= code <= 999)%nat ->
  ascii_line phrase -> Ship.skip_space phrase = None ->
  headers <> [] ->
  Forall (fun kv => ascii_line (fst kv) /\ ascii_line (snd kv)) headers ->
  parseRawHttpResponse
    (Offshore.buildRawHttpResponse code phrase headers bodyBuffer)
  = mkResponse code phrase (map headerLine headers) (toString bodyBuffer).
Proof.
  intros Hcode Hphrase Hstart Hheaders Htext.
  apply parse_built_response; assumption.
Qed.

Lemma response_round_trip_witness :
  parseRawHttpResponse
    (Offshore.buildRawHttpResponse 404 (ascii_bytes "Not Found")
       [(ascii_bytes "Content-Length", ascii_bytes "2")] [xff; x41])
  = mkResponse 404 (ascii_bytes "Not Found") [ascii_bytes "Content-Length: 2"]
               [xef; xbf; xbd; x41].
Proof.
  assert (Hc : (100 <= 404 <= 999)%nat) by lia.
  assert (Hm : ascii_line (ascii_bytes "Not Found"))
    by (apply ascii_line_literal; reflexivity).
  assert (Hne : [(ascii_bytes "Content-Length", ascii_bytes "2")] <> [])
    by discriminate.
  assert (Hh : Forall (fun kv => ascii_line (fst kv) /\ ascii_line (snd kv))
                      [(ascii_bytes "Content-Length", ascii_bytes "2")])
    by (constructor; [split; apply ascii_line_literal; reflexivity|constructor]).
  exact (response_round_trip 404 (ascii_bytes "Not Found")
           [(ascii_bytes "Content-Length", ascii_bytes "2")] [xff; x41]
           Hc Hm eq_refl Hne Hh).
Defined.

Lemma statusLineMatch_prefix (statusLine : Buffer) (m : nat * Buffer) :
  statusLineMatch statusLine = Some m ->
  starts_with (ascii_bytes "HTTP/") statusLine = true.
Proof.
  unfold statusLineMatch.
  destruct statusLine as [|h [|t1 [|t2 [|p [|slash [|d1 [|dot [|d2 rest]]]]]]]];
    try discriminate.
  destruct ((Z_of_byte h =? 72) && (Z_of_byte t1 =? 84) && (Z_of_byte t2 =? 84)
            && (Z_of_byte p =? 80) && (Z_of_byte slash =? 47)) eqn:E;
    [|cbn [andb]; discriminate].
  intros _.
  repeat (apply andb_true_iff in E; destruct E as [E ?]).
  repeat match goal with
         | H : (_ =? _) = true |- _ => apply Z.eqb_eq in H
         end.
  change (ascii_bytes "HTTP/") with [x48; x54; x54; x50; x2f].
  cbn [starts_with].
  repeat match goal with
         | H : Z_of_byte _ = _ |- _ => rewrite H; clear H
         end.
  reflexivity.
Qed.

(** What is no HTTP response is a 502.  A payload that does not begin with
    [HTTP/], the empty payload among them, is parsed as status 502 with the
    reason phrase Bad Gateway. *)
Theorem unparsable_response_is_502 (buf : Buffer) :
  starts_with (ascii_bytes "HTTP/") buf = false ->
  statusCode (parseRawHttpResponse buf) = 502%nat /\
  statusMessage (parseRawHttpResponse buf) = ascii_bytes "Bad Gateway".
Proof.
  intros H. unfold parseRawHttpResponse. cbv zeta. cbn [statusCode statusMessage].
  set (head := match indexOf (CRLF ++ CRLF) (toString buf) with
               | Some i => firstn i (toString buf)
               | None => toString buf
               end).
  destruct (statusLineMatch (hd [] (split CRLF head))) as [m|] eqn:E;
    [|split; reflexivity].
  exfalso. apply statusLineMatch_prefix in E.
  destruct (hd_split_prefix CRLF head) as [k Hk]. rewrite Hk in E.
  apply starts_with_firstn in E.
  assert (E' : starts_with (ascii_bytes "HTTP/") (toString buf) = true).
  { subst head. destruct (indexOf (CRLF ++ CRLF) (toString buf)); [|exact E].
    eapply starts_with_firstn. exact E. }
  rewrite starts_with_toString in E' by (repeat constructor; cbv; reflexivity).
  congruence.
Qed.

Lemma unparsable_response_is_502_witness :
  statusCode (parseRawHttpResponse []) = 502%nat /\
  statusMessage (parseRawHttpResponse []) = ascii_bytes "Bad Gateway".
Proof. exact (unparsable_response_is_502 [] eq_refl). Defined.

(** The body handed to the client is text.  Whatever the payload, the body
    [parseRawHttpResponse] returns holds none of the bytes 192, 193 and 245
    to 255, which UTF-8 never uses: a body that holds one does not come
    through as it was sent. *)
Theorem response_body_is_utf8 (buf : Buffer) :
  Forall utf8_byte (body (parseRawHttpResponse buf)).
Proof.
  unfold parseRawHttpResponse. cbv zeta. cbn [body].
  destruct (indexOf (CRLF ++ CRLF) (toString buf)); [|constructor].
  apply Forall_skipn. apply (toString_utf8 _ _ (le_n _)).
Qed.

(** What the offshore answers when the origin fails, or when its handler
    throws, reaches the ship's parser as it was meant: status 502 with the
    phrase Bad Gateway, or status 500 with the phrase Internal Server Error,
    the three headers of the error, and the error text as body. *)
Theorem synthesized_errors_parse (message : Buffer) :
  parseRawHttpResponse (Offshore.badGateway message)
  = mkResponse 502 (ascii_bytes "Bad Gateway")
      (map headerLine
           (Offshore.errorHeaders
              (match message with
               | [] => ascii_bytes "Upstream request error"
               | _ => message
               end)))
      (toString (match message with
                 | [] => ascii_bytes "Upstream request error"
                 | _ => message
                 end)) /\
  parseRawHttpResponse (Offshore.internalError message)
  = mkResponse 500 (ascii_bytes "Internal Server Error")
      (map headerLine
           (Offshore.errorHeaders (ascii_bytes "Internal error: " ++ message)))
      (toString (ascii_bytes "Internal error: " ++ message)).
Proof.
  assert (Hh : forall b : Buffer,
             Forall (fun kv => ascii_line (fst kv) /\ ascii_line (snd kv))
                    (Offshore.errorHeaders b)).
  { intros b. unfold Offshore.errorHeaders.
    apply Forall_cons; [split; apply ascii_line_literal; reflexivity|].
    apply Forall_cons;
      [split; [apply ascii_line_literal; reflexivity
              |apply ascii_line_digits, decimal_digits]|].
    apply Forall_cons; [split; apply ascii_line_literal; reflexivity|].
    apply Forall_nil. }
  split.
  - unfold Offshore.badGateway. cbv zeta.
    apply parse_built_response; [lia| | |discriminate|apply Hh].
    + apply ascii_line_literal; reflexivity.
    + reflexivity.
  - unfold Offshore.internalError. cbv zeta.
    apply parse_built_response; [lia| | |discriminate|apply Hh].
    + apply ascii_line_literal; reflexivity.
    + reflexivity.
Qed.

End ResponseFacts.

Section RequestFacts.
Import Protocol Text Utf8 Lines Http.

Lemma same_refl (a : Buffer) : same a a = true.
Proof. apply same_eq. reflexivity. Qed.

Lemma get_set_same (k : Buffer) (v : HeaderValue) (h : Headers) :
  get k (set k v h) = Some v.
Proof.
  induction h as [|[k' v'] h IH]; cbn [set get].
  - rewrite same_refl. reflexivity.
  - destruct (same k k') eqn:E; cbn [get]; rewrite E; [reflexivity|exact IH].
Qed.

Lemma get_delete_same (k : Buffer) (h : Headers) : get k (delete k h) = None.
Proof.
  induction h as [|[k' v'] h IH]; [reflexivity|].
  unfold delete in *. cbn [filter fst].
  destruct (same k k') eqn:E; cbn [negb]; [exact IH|].
  cbn [get]. rewrite E. exact IH.
Qed.

Lemma get_delete_other (k k' : Buffer) (h : Headers) :
  k <> k' -> get k (delete k' h) = get k h.
Proof.
  intros Hne. induction h as [|[x v] h IH]; [reflexivity|].
  unfold delete in *. cbn [filter fst].
  destruct (same k' x) eqn:E; cbn [negb get].
  - apply same_eq in E. subst x.
    destruct (same k k') eqn:E'; [apply same_eq in E'; contradiction|exact IH].
  - rewrite IH. reflexivity.
Qed.

Lemma set_in (k : Buffer) (v : HeaderValue) (h : Headers) : In (k, v) (set k v h).
Proof.
  induction h as [|[k' v'] h IH]; cbn [set]; [left; reflexivity|].
  destruct (same k k') eqn:E.
  - apply same_eq in E. subst k'. left. reflexivity.
  - right. exact IH.
Qed.

Lemma get_in (k : Buffer) (v : HeaderValue) (h : Headers) :
  get k h = Some v -> In (k, v) h.
Proof.
  induction h as [|[k' v'] h IH]; [discriminate|]. cbn [get].
  destruct (same k k') eqn:E.
  - intros [= ->]. apply same_eq in E. subst k'. left. reflexivity.
  - intros H. right. auto.
Qed.

Lemma delete_in (k : Buffer) (kv : Buffer * HeaderValue) (h : Headers) :
  In kv h -> k <> fst kv -> In kv (delete k h).
Proof.
  intros Hin Hne. unfold delete. apply filter_In. split; [exact Hin|].
  destruct (same k (fst kv)) eqn:E; [apply same_eq in E; contradiction|reflexivity].
Qed.

Lemma header_line_in (k x : Buffer) (v : HeaderValue) (h : Headers) :
  In (k, v) h -> In x (printed v) ->
  In (k ++ ascii_bytes ": " ++ x) (headerLinesOf h).
Proof.
  intros Hin Hx. unfold headerLinesOf. apply in_flat_map.
  exists (k, v). split; [exact Hin|]. cbn [fst snd].
  apply in_map_iff. exists x. auto.
Qed.

(** The entry of [content-length] in the headers that are printed. *)
Lemma outgoing_content_length (req : IncomingMessage) (body : Buffer) :
  exists v : HeaderValue,
    In (ascii_bytes "content-length", v) (outgoingHeaders req body) /\
    get (ascii_bytes "content-length") (outgoingHeaders req body) = Some v /\
    v = (if 0 <? blength body then Num (List.length body)
         else Str (ascii_bytes "0")) /\
    printed v = [decimal (List.length body)].
Proof.
  unfold outgoingHeaders. cbv zeta.
  set (h1 := if negb (truthy (get (ascii_bytes "host") (headers req))) then _
             else headers req).
  exists (if 0 <? blength body then Num (List.length body) else Str (ascii_bytes "0")).
  assert (Hne : ascii_bytes "content-length" <> ascii_bytes "transfer-encoding")
    by discriminate.
  split; [|split; [|split; [reflexivity|]]].
  - apply delete_in; [|cbn [fst]; intros H; symmetry in H; exact (Hne H)].
    destruct (0 <? blength body); apply set_in.
  - rewrite get_delete_other by exact Hne.
    destruct (0 <? blength body); apply get_set_same.
  - destruct (0 <? blength body) eqn:E; [reflexivity|].
    apply Z.ltb_ge in E. unfold blength in E.
    destruct body; [reflexivity|cbn [List.length] in E; lia].
Qed.

(** The serialized request says how long its body is.  Whatever headers
    the client sent, the headers [serializeHttpRequest] prints hold
    [content-length] with the number of bytes of the body (the text 0 for an
    empty body) and hold no [transfer-encoding]; the line
    [content-length: n] is among the header lines. *)
Theorem serialized_request_declares_body (req : IncomingMessage) (body : Buffer) :
  get (ascii_bytes "content-length") (outgoingHeaders req body)
  = Some (if 0 <? blength body then Num (List.length body)
          else Str (ascii_bytes "0")) /\
  get (ascii_bytes "transfer-encoding") (outgoingHeaders req body) = None /\
  In (ascii_bytes "content-length: " ++ decimal (List.length body))
     (headerLinesOf (outgoingHeaders req body)).
Proof.
  destruct (outgoing_content_length req body) as (v & Hin & Hget & Hv & Hp).
  split; [rewrite Hget, Hv; reflexivity|]. split.
  - unfold outgoingHeaders. cbv zeta. apply get_delete_same.
  - change (ascii_bytes "content-length: " ++ decimal (List.length body))
      with (ascii_bytes "content-length" ++ ascii_bytes ": "
            ++ decimal (List.length body)).
    apply (header_line_in _ _ v); [exact Hin|]. rewrite Hp. left. reflexivity.
Qed.

Lemma header_text_set (k : Buffer) (v : HeaderValue) (h : Headers) :
  Forall header_text h -> text_line k -> Forall text_line (printed v) ->
  Forall header_text (set k v h).
Proof.
  intros Hh Hk Hv. induction Hh as [|[k' v'] h Hkv Hh IH]; cbn [set].
  - constructor; [split; assumption|constructor].
  - destruct (same k k').
    + constructor; [split; [exact (proj1 Hkv)|exact Hv]|exact Hh].
    + constructor; [exact Hkv|exact IH].
Qed.

Lemma header_text_delete (k : Buffer) (h : Headers) :
  Forall header_text h -> Forall header_text (delete k h).
Proof.
  intros H. apply Forall_forall. intros kv Hin. unfold delete in Hin.
  apply filter_In in Hin. rewrite Forall_forall in H. apply H, Hin.
Qed.

(** ASCII text without a carriage return, tested byte by byte. *)
Lemma text_line_literal (text : Buffer) :
  forallb (fun b => (Z_of_byte b <? 128) && negb (Z_of_byte b =? 13)) text = true ->
  text_line text.
Proof.
  intros Ht. rewrite forallb_forall in Ht. split.
  - apply well_formed_ascii, Forall_forall. intros b Hb. specialize (Ht b Hb).
    apply andb_true_iff in Ht. destruct Ht as [Ht _]. apply Z.ltb_lt in Ht.
    exact Ht.
  - apply Forall_forall. intros b Hb. specialize (Ht b Hb).
    apply andb_true_iff in Ht. destruct Ht as [_ Ht].
    apply negb_true_iff, Z.eqb_neq in Ht. exact Ht.
Qed.

Lemma text_line_decimal (n : nat) : text_line (decimal n).
Proof.
  split.
  - apply well_formed_ascii. eapply Forall_impl; [|exact (decimal_digits n)].
    intros b Hb. cbv beta in Hb. lia.
  - eapply Forall_impl; [|exact (decimal_digits n)].
    intros b Hb. cbv beta in Hb. change (Z_of_byte x0d) with 13. lia.
Qed.

Lemma text_line_app (a b : Buffer) :
  text_line a -> text_line b -> text_line (a ++ b).
Proof.
  intros [Ha1 Ha2] [Hb1 Hb2]. split;
    [apply well_formed_app|apply free_of_app]; assumption.
Qed.

Lemma header_text_outgoing (req : IncomingMessage) (body : Buffer) :
  Forall header_text (headers req) ->
  Forall header_text (outgoingHeaders req body).
Proof.
  intros H. unfold outgoingHeaders. cbv zeta. apply header_text_delete.
  assert (H1 : Forall header_text
                 (if negb (truthy (get (ascii_bytes "host") (headers req))) then
                    match get (ascii_bytes ":authority") (headers req) with
                    | Some authority =>
                        if truthy (Some authority)
                        then set (ascii_bytes "host") authority (headers req)
                        else headers req
                    | None => headers req
                    end
                  else headers req)).
  { destruct (negb (truthy (get (ascii_bytes "host") (headers req)))); [|exact H].
    destruct (get (ascii_bytes ":authority") (headers req)) as [authority|] eqn:E;
      [|exact H].
    destruct (truthy (Some authority)); [|exact H].
    apply header_text_set; [exact H|apply text_line_literal; reflexivity|].
    apply get_in in E. rewrite Forall_forall in H. exact (proj2 (H _ E)). }
  destruct (0 <? blength body); apply header_text_set; try exact H1;
    try (apply text_line_literal; reflexivity).
  - constructor; [apply text_line_decimal|constructor].
  - constructor; [apply text_line_literal; reflexivity|constructor].
Qed.

Lemma header_lines_are_lines (h : Headers) :
  Forall header_text h ->
  Forall line (headerLinesOf h) /\ Forall well_formed (headerLinesOf h).
Proof.
  intros H.
  assert (Hl : forall l : Buffer, In l (headerLinesOf h) -> l <> [] /\ text_line l).
  { intros l Hl. unfold headerLinesOf in Hl.
    apply in_flat_map in Hl. destruct Hl as (kv & Hkv & Hl).
    apply in_map_iff in Hl. destruct Hl as (x & <- & Hx).
    rewrite Forall_forall in H. destruct (H kv Hkv) as [Hk Hv].
    rewrite Forall_forall in Hv. split.
    - destruct (fst kv); discriminate.
    - apply text_line_app; [exact Hk|].
      apply text_line_app; [apply text_line_literal; reflexivity|exact (Hv x Hx)]. }
  split; apply Forall_forall; intros l Hin; destruct (Hl l Hin) as [Hne [Hw Hf]];
    [split; assumption|exact Hw].
Qed.

Lemma well_formed_join (lines : list Buffer) :
  Forall well_formed lines -> well_formed (Offshore.join CRLF lines).
Proof.
  induction 1 as [|l lines Hl Hls IH]; [reflexivity|].
  destruct lines as [|l' ls]; [exact Hl|].
  rewrite join_cons2. apply well_formed_app; [exact Hl|].
  apply well_formed_app; [reflexivity|exact IH].
Qed.

(** What the offshore's parser makes of what the ship serialized. *)
Lemma parse_serialized_request (req : IncomingMessage) (body : Buffer) :
  word (method req) -> word (url req) -> word (httpVersion req) ->
  Forall header_text (headers req) ->
  Offshore.parseHttpRequest (serializeHttpRequest req body)
  = Offshore.mkParsed (method req) (Some (target req))
      (ascii_bytes "HTTP/" ++ httpVersion req)
      (headerLinesOf (outgoingHeaders req body)) (toString body).
Proof.
  intros (Hm0 & Hm1 & Hm2) (Hu0 & Hu1 & Hu2) (Hv0 & Hv1 & Hv2) Hh.
  assert (Hlit : forall (c : byte) (text : Buffer),
             forallb (fun b => negb (Z_of_byte b =? Z_of_byte c)) text = true ->
             free_of c text).
  { intros c text Ht. rewrite forallb_forall in Ht. apply Forall_forall.
    intros b Hb. specialize (Ht b Hb). apply negb_true_iff, Z.eqb_neq in Ht.
    exact Ht. }
  assert (Ht : forall c : byte, free_of c (url req) ->
                                Z_of_byte c <> 47 -> free_of c (target req)).
  { intros c Hc Hne. unfold target. destruct (blength (url req) =? 0); [|exact Hc].
    repeat constructor. change (Z_of_byte (byte_of_ascii "/")) with 47. lia. }
  assert (Ht0 : well_formed (target req)).
  { unfold target. destruct (blength (url req) =? 0); [reflexivity|exact Hu0]. }
  set (version := ascii_bytes "HTTP/" ++ httpVersion req).
  assert (Hver0 : well_formed version)
    by (apply well_formed_app; [reflexivity|exact Hv0]).
  assert (Hver1 : free_of x20 version)
    by (apply free_of_app; [apply Hlit; reflexivity|exact Hv1]).
  assert (Hver2 : free_of x0d version)
    by (apply free_of_app; [apply Hlit; reflexivity|exact Hv2]).
  set (startLine := method req ++ ascii_bytes " " ++ target req
                    ++ ascii_bytes " " ++ version).
  set (lines := headerLinesOf (outgoingHeaders req body)).
  assert (Hsl : line startLine).
  { split; [subst startLine; destruct (method req); discriminate|].
    subst startLine.
    repeat (apply free_of_app; [try (apply Hlit; reflexivity)|]);
      try assumption.
    apply Ht; [exact Hu2|discriminate]. }
  assert (Hsl0 : well_formed startLine).
  { subst startLine.
    repeat (apply well_formed_app; [first [assumption|reflexivity]|]).
    first [exact Hver0|exact Hv0]. }
  destruct (header_lines_are_lines _ (header_text_outgoing req body Hh))
    as [Hls Hls0].
  fold lines in Hls, Hls0.
  assert (Hne : lines <> []).
  { destruct (outgoing_content_length req body) as (v & Hin & _ & _ & Hp).
    assert (Hl : In (ascii_bytes "content-length" ++ ascii_bytes ": "
                     ++ decimal (List.length body)) lines)
      by (apply (header_line_in _ _ v); [exact Hin|rewrite Hp; left; reflexivity]).
    destruct lines; [contradiction|discriminate]. }
  assert (Hdec : toString (serializeHttpRequest req body)
                 = (startLine ++ CRLF ++ Offshore.join CRLF lines ++ CRLF ++ CRLF)
                   ++ toString body).
  { unfold serializeHttpRequest. cbv zeta.
    fold (target req). fold version. fold startLine. fold lines.
    apply toString_well_formed_app.
    apply well_formed_app; [exact Hsl0|].
    apply well_formed_app; [reflexivity|].
    apply well_formed_app; [apply well_formed_join; exact Hls0|reflexivity]. }
  destruct (head_found startLine lines (toString body) Hsl Hne Hls) as [Hi Hsp].
  destruct (head_taken (startLine ++ CRLF ++ Offshore.join CRLF lines)
                       (toString body)) as [Hf Hk].
  assert (Hw : split (ascii_bytes " ") startLine
               = [method req; target req; version]).
  { change (split [x20] (Offshore.join [x20] [method req; target req; version])
            = [method req; target req; version]).
    apply (split_join x20 []); [discriminate|].
    apply Forall_cons; [exact Hm1|].
    apply Forall_cons; [apply Ht; [exact Hu1|discriminate]|].
    apply Forall_cons; [exact Hver1|apply Forall_nil]. }
  rewrite <- !app_assoc in Hf, Hk, Hi.
  unfold Offshore.parseHttpRequest. cbv zeta. rewrite Hdec.
  cbv delta [Buffer] in *.
  rewrite <- !app_assoc, Hi, Hf, Hk, Hsp. cbn [hd tl]. rewrite Hw.
  cbn [hd nth_error]. subst version.
  change (ascii_bytes "HTTP/" ++ httpVersion req)
    with (x48 :: x54 :: x54 :: x50 :: x2f :: httpVersion req).
  reflexivity.
Qed.

(** The offshore reads back what the ship wrote.  For a method, a target
    and a version that are strings without space or carriage return, header
    names and values that are strings without carriage return, and any
    body: [parseHttpRequest], which decodes the payload, gives back from
    what [serializeHttpRequest] wrote the method, the target ([/] for an
    empty one), the version and the header lines with the ship's
    [content-length]; the body comes back decoded and encoded again, which
    is the body itself exactly when it is well-formed UTF-8. *)
Theorem request_round_trip (req : IncomingMessage) (body : Buffer) :
  word (method req) -> word (url req) -> word (httpVersion req) ->
  Forall header_text (headers req) ->
  Offshore.parseHttpRequest (serializeHttpRequest req body)
  = Offshore.mkParsed (method req) (Some (target req))
      (ascii_bytes "HTTP/" ++ httpVersion req)
      (headerLinesOf (outgoingHeaders req body)) (toString body) /\
  (Offshore.body (Offshore.parseHttpRequest (serializeHttpRequest req body)) = body
   <-> well_formed body).
Proof.
  intros Hm Hu Hv Hh.
  rewrite (parse_serialized_request req body Hm Hu Hv Hh).
  split; [reflexivity|]. cbn [Offshore.body]. unfold well_formed. tauto.
Qed.

(** A POST whose header value holds U+00E9 and whose body ends in a byte
    that is not UTF-8: the head comes back as it was, the last byte of the
    body as U+FFFD. *)
Lemma request_round_trip_witness :
  Offshore.parseHttpRequest
    (serializeHttpRequest
       (mkIncoming (ascii_bytes "POST") (ascii_bytes "http://a/b") (ascii_bytes "1.1")
                   [(ascii_bytes "host", Str (ascii_bytes "a"));
                    (ascii_bytes "x-name", Str [xc3; xa9]);
                    (ascii_bytes "transfer-encoding", Str (ascii_bytes "chunked"))])
       [x68; xff])
  = Offshore.mkParsed (ascii_bytes "POST") (Some (ascii_bytes "http://a/b"))
      (ascii_bytes "HTTP/1.1")
      [ascii_bytes "host: a"; ascii_bytes "x-name: " ++ [xc3; xa9];
       ascii_bytes "content-length: 2"]
      [x68; xef; xbf; xbd].
Proof.
  assert (Hlit : forall text : Buffer,
             forallb (fun b => (Z_of_byte b <? 128) && negb (Z_of_byte b =? 32)
                               && negb (Z_of_byte b =? 13)) text = true ->
             word text /\ text_line text).
  { intros text Ht. rewrite forallb_forall in Ht.
    assert (Hb : forall b, In b text ->
                           Z_of_byte b < 128 /\ Z_of_byte b <> 32 /\ Z_of_byte b <> 13).
    { intros b Hb. specialize (Ht b Hb).
      apply andb_true_iff in Ht. destruct Ht as [Ht H3].
      apply andb_true_iff in Ht. destruct Ht as [H1 H2].
      apply Z.ltb_lt in H1. apply negb_true_iff, Z.eqb_neq in H2.
      apply negb_true_iff, Z.eqb_neq in H3. auto. }
    assert (H0 : well_formed text)
      by (apply well_formed_ascii, Forall_forall; intros b Hi; apply (Hb b Hi)).
    assert (H2 : free_of x20 text)
      by (apply Forall_forall; intros b Hi; apply (Hb b Hi)).
    assert (H3 : free_of x0d text)
      by (apply Forall_forall; intros b Hi; apply (Hb b Hi)).
    repeat split; assumption. }
  assert (He : text_line [xc3; xa9]).
  { split; [reflexivity|]. repeat constructor; cbv; discriminate. }
  assert (Hh : Forall header_text
                 [(ascii_bytes "host", Str (ascii_bytes "a"));
                  (ascii_bytes "x-name", Str [xc3; xa9]);
                  (ascii_bytes "transfer-encoding", Str (ascii_bytes "chunked"))]).
  { apply Forall_cons;
      [split; [exact (proj2 (Hlit (ascii_bytes "host") eq_refl))|]|].
    - constructor; [exact (proj2 (Hlit (ascii_bytes "a") eq_refl))|constructor].
    - apply Forall_cons;
        [split; [exact (proj2 (Hlit (ascii_bytes "x-name") eq_refl))|]|].
      + constructor; [exact He|constructor].
      + apply Forall_cons;
          [split; [exact (proj2 (Hlit (ascii_bytes "transfer-encoding") eq_refl))|]
          |constructor].
        constructor;
          [exact (proj2 (Hlit (ascii_bytes "chunked") eq_refl))|constructor]. }
  exact (proj1 (request_round_trip
                  (mkIncoming (ascii_bytes "POST") (ascii_bytes "http://a/b")
                              (ascii_bytes "1.1")
                              [(ascii_bytes "host", Str (ascii_bytes "a"));
                               (ascii_bytes "x-name", Str [xc3; xa9]);
                               (ascii_bytes "transfer-encoding",
                                Str (ascii_bytes "chunked"))])
                  [x68; xff] (proj1 (Hlit (ascii_bytes "POST") eq_refl))
                  (proj1 (Hlit (ascii_bytes "http://a/b") eq_refl))
                  (proj1 (Hlit (ascii_bytes "1.1") eq_refl)) Hh)).
Defined.

End RequestFacts.

Section OriginFacts.
Import Protocol Text Offshore Origin.

Variable portNumber : Buffer -> option Z.
Variable urlThrows : Buffer -> bool.
Variable requestThrows : ParsedRequest -> bool.
Variable errorMessage : HandlerError -> Buffer.

(** A request that names no absolute URL is never fetched.  In message
    mode, for a REQUEST whose method is not CONNECT and whose target does
    not begin with [http://] or [https://] (an origin-form target, or none
    at all): [chooseAgentAndOptions] throws on [useHttps], no origin request
    is made, and the [catch] answers with the 500 of the error, written with
    [sendMessage] past the send queue. *)
Theorem origin_form_request_is_500 (s : State) (payload : Buffer) :
  (inTunnel s = false \/ tunnelUpstream s = None) ->
  same (method (parseHttpRequest payload)) (ascii_bytes "CONNECT") = false ->
  absoluteUrl (path (parseHttpRequest payload)) = false ->
  onMessage portNumber (originThrows urlThrows requestThrows) errorMessage
            REQUEST payload s
  = mkState (inTunnel s) (tunnelUpstream s) (upstreams s) (fetches s)
      (log s ++ [SendMessage RESPONSE
                   (internalError
                      (errorMessage (OriginThrew (parseHttpRequest payload))))]).
Proof.
  intros Hmode Hm Hp. unfold onMessage.
  change (negb (REQUEST =? REQUEST)) with false. cbv iota zeta.
  rewrite Hm.
  assert (Ht : originThrows urlThrows requestThrows (parseHttpRequest payload) = true).
  { unfold originThrows, chooseAgentThrows.
    destruct (path (parseHttpRequest payload)) as [p|]; [|reflexivity].
    rewrite Hp. reflexivity. }
  rewrite Ht. unfold handlerCatch, emit.
  destruct Hmode as [H|H]; rewrite H; [reflexivity|].
  destruct (inTunnel s); reflexivity.
Qed.

End OriginFacts.

Section OriginRuns.
Import Protocol Text Offshore Origin.

Lemma origin_form_request_is_500_witness :
  log (onMessage connectPort (originThrows (fun _ => false) (fun _ => false))
                 (fun _ => ascii_bytes "useHttps is not defined") REQUEST
                 (ascii_bytes "GET /index.html HTTP/1.1" ++ CRLF
                  ++ ascii_bytes "Host: example.invalid" ++ CRLF ++ CRLF)
                 initial)
  = [SendMessage RESPONSE
       (internalError (ascii_bytes "useHttps is not defined"))].
Proof.
  assert (H1 : inTunnel initial = false \/ tunnelUpstream initial = None)
    by (left; reflexivity).
  pose proof (origin_form_request_is_500 connectPort (fun _ => false)
                (fun _ => false) (fun _ => ascii_bytes "useHttps is not defined")
                initial
                (ascii_bytes "GET /index.html HTTP/1.1" ++ CRLF
                 ++ ascii_bytes "Host: example.invalid" ++ CRLF ++ CRLF)
                H1 eq_refl eq_refl) as H.
  rewrite H. reflexivity.
Defined.

End OriginRuns.

Section TunnelStream.
Import Protocol Stream.

(** A send queue that has drained has written the frame of everything it
    took, and it took everything. *)
Lemma drained_written (events : list Sender.Event) :
  drained (Sender.run events) ->
  Sender.written (Sender.run events) = Sender.frames (Sender.enqueued events).
Proof.
  intros [Hq Hf]. destruct (run_invariant events) as (_ & taken & Ht & Hw & _).
  rewrite Hq, app_nil_r in Ht. subst taken. exact Hw.
Qed.

Lemma frames_items (t : Z) (ds : list Buffer) :
  t = REQUEST \/ t = RESPONSE ->
  Forall (fun d => blength d <= 4294967295) ds ->
  Forall2 encodes (map (mkMessage t) ds) (Sender.frames (items t ds)).
Proof.
  intros Ht. induction 1 as [|d ds Hd _ IH]; [constructor|].
  cbn [items map Sender.frames Sender.type Sender.payload].
  rewrite (encodeMessage_ok t d Ht Hd). constructor; [|exact IH].
  unfold encodes. cbn [type payload]. apply encodeMessage_ok; assumption.
Qed.

(** The link carries payloads in order.  What a send queue wrote between
    two moments at which it had drained, cut into chunks in any way and read
    by a decoder that stands at a frame boundary, is decoded to the payloads
    enqueued in between, in order. *)
Lemma link_in_order (t : Z) (ds : list Buffer)
      (before during : list Sender.Event) (chunks : list Buffer) :
  t = REQUEST \/ t = RESPONSE ->
  Forall (fun d => blength d <= 4294967295) ds ->
  drained (Sender.run before) ->
  Sender.enqueued during = items t ds ->
  drained (Sender.run (before ++ during)) ->
  List.concat chunks = List.concat (written_during before during) ->
  pushAll newFrameDecoder chunks = inr (newFrameDecoder, map (mkMessage t) ds).
Proof.
  intros Ht Hds Hb He Ha Hc.
  unfold written_during in Hc.
  rewrite (drained_written _ Ha), (drained_written _ Hb) in Hc.
  rewrite enqueued_app, frames_app, skipn_length_app, He in Hc.
  apply (pushAll_encoded _ (Sender.frames (items t ds)));
    [apply frames_items; assumption|exact Hc].
Qed.

End TunnelStream.

Section TunnelUpstream.
Import Protocol Stream.

Variable mode : bool.
Variable writable : Buffer -> bool.
Variable portNumber : Buffer -> option Z.
Variable originThrows : Offshore.ParsedRequest -> bool.
Variable errorMessage : Offshore.HandlerError -> Buffer.

(** The ship hands every chunk of a tunnel's client to the sender. *)
Lemma tunnel_client_data (c : nat) (ds : list Buffer) :
  forall s : Ship.State,
    Ship.exited s = false -> Ship.mem c (Ship.tunnels s) = true ->
    Ship.log (fold_left (Ship.step mode writable) (map (Ship.ClientData c) ds) s)
    = Ship.log s ++ map Ship.SendRequest ds.
Proof.
  induction ds as [|d ds IH]; intros s Hx Hc.
  - cbn [map fold_left]. rewrite app_nil_r. reflexivity.
  - cbn [map fold_left].
    assert (Hs : Ship.step mode writable s (Ship.ClientData c d)
                 = Ship.await_send Ship.TunnelData
                     (Ship.emit [Ship.SendRequest d] s)).
    { unfold Ship.step. rewrite Hx. cbn [Ship.handle]. rewrite Hc. reflexivity. }
    rewrite Hs, IH; [|exact Hx|exact Hc].
    cbn [Ship.log Ship.await_send Ship.set_sends Ship.emit].
    rewrite <- app_assoc. reflexivity.
Qed.

(** The dispatcher in tunnel mode writes every REQUEST payload to the
    tunnel's upstream socket. *)
Lemma tunnel_upstream_writes (u : nat) (ds : list Buffer) :
  forall t : Offshore.State,
    Offshore.inTunnel t = true -> Offshore.tunnelUpstream t = Some u ->
    Offshore.log (fold_left (Offshore.step portNumber originThrows errorMessage)
                            (deliver (map (mkMessage REQUEST) ds)) t)
    = Offshore.log t ++ map (Offshore.UpstreamWrite u) ds.
Proof.
  induction ds as [|d ds IH]; intros t Hi Hu.
  - cbn [map deliver fold_left]. rewrite app_nil_r. reflexivity.
  - change (deliver (map (mkMessage REQUEST) (d :: ds)))
      with (Offshore.Message REQUEST d :: deliver (map (mkMessage REQUEST) ds)).
    cbn [fold_left].
    assert (Hs : Offshore.step portNumber originThrows errorMessage t
                               (Offshore.Message REQUEST d)
                 = Offshore.emit [Offshore.UpstreamWrite u d] t).
    { cbn [Offshore.step]. unfold Offshore.onMessage.
      change (negb (REQUEST =? REQUEST)) with false. cbv iota.
      rewrite Hi, Hu. reflexivity. }
    rewrite Hs, IH; [|exact Hi|exact Hu].
    cbn [Offshore.log Offshore.emit]. rewrite <- app_assoc. reflexivity.
Qed.

(** From the client of a tunnel to the target's socket.  The chunks [ds]
    a tunnel's client sends are handed to the sender by the ship, in
    order; when the send queue has taken them and drained, what it wrote,
    however the transport cuts it, is decoded on the offshore to the same
    payloads as REQUEST messages; and the dispatcher in tunnel mode writes
    exactly these payloads, unchanged and in order, to the upstream socket
    and nothing else. *)
Theorem tunnel_bytes_reach_upstream
        (s : Ship.State) (c : nat) (ds : list Buffer)
        (before during : list Sender.Event) (chunks : list Buffer)
        (t : Offshore.State) (u : nat) :
  Ship.exited s = false -> Ship.mem c (Ship.tunnels s) = true ->
  Forall (fun d => blength d <= 4294967295) ds ->
  drained (Sender.run before) ->
  Sender.enqueued during = items REQUEST ds ->
  drained (Sender.run (before ++ during)) ->
  List.concat chunks = List.concat (written_during before during) ->
  Offshore.inTunnel t = true -> Offshore.tunnelUpstream t = Some u ->
  Ship.log (fold_left (Ship.step mode writable) (map (Ship.ClientData c) ds) s)
  = Ship.log s ++ map Ship.SendRequest ds /\
  exists ms : list Message,
    pushAll newFrameDecoder chunks = inr (newFrameDecoder, ms) /\
    Offshore.log (fold_left (Offshore.step portNumber originThrows errorMessage)
                            (deliver ms) t)
    = Offshore.log t ++ map (Offshore.UpstreamWrite u) ds.
Proof.
  intros Hx Hc Hds Hb He Ha Hch Hi Hu.
  split; [apply tunnel_client_data; assumption|].
  exists (map (mkMessage REQUEST) ds). split.
  - apply (link_in_order REQUEST ds before during); auto.
  - apply tunnel_upstream_writes; assumption.
Qed.

(** The dispatcher enqueues every chunk of an upstream socket as a
    RESPONSE. *)
Lemma upstream_data_enqueued (u : nat) (ds : list Buffer) :
  forall t : Offshore.State,
    (u < Offshore.upstreams t)%nat ->
    Offshore.log (fold_left (Offshore.step portNumber originThrows errorMessage)
                            (map (Offshore.UpstreamData u) ds) t)
    = Offshore.log t ++ map (Offshore.Enqueue RESPONSE) ds.
Proof.
  induction ds as [|d ds IH]; intros t Hu.
  - cbn [map fold_left]. rewrite app_nil_r. reflexivity.
  - cbn [map fold_left Offshore.step].
    pose proof Hu as Hu'. apply Nat.ltb_lt in Hu'. rewrite Hu'.
    rewrite IH by exact Hu.
    cbn [Offshore.log Offshore.emit]. rewrite <- app_assoc. reflexivity.
Qed.

Lemma responsePayloads_app (a b : list Message) :
  Ship.responsePayloads (a ++ b)
  = Ship.responsePayloads a ++ Ship.responsePayloads b.
Proof. unfold Ship.responsePayloads. rewrite filter_app, map_app. reflexivity. Qed.

Lemma responsePayloads_responses (ds : list Buffer) :
  Ship.responsePayloads (map (mkMessage RESPONSE) ds) = ds.
Proof.
  induction ds as [|d ds IH]; [reflexivity|].
  unfold Ship.responsePayloads in *. cbn [map filter type].
  change (RESPONSE =? RESPONSE) with true. cbn [map payload]. rewrite IH.
  reflexivity.
Qed.

Lemma client_writes (c : nat) (ps : list Buffer) :
  Forall (fun d => d <> []) ps ->
  flat_map (fun payload =>
              if negb (blength payload =? 0)
              then map (fun c => Ship.ClientWrite c payload) [c]
              else []) ps
  = map (Ship.ClientWrite c) ps.
Proof.
  induction 1 as [|p ps Hp _ IH]; [reflexivity|].
  cbn [flat_map]. rewrite IH.
  destruct p as [|b p]; [contradiction|]. reflexivity.
Qed.

(** The ship writes every RESPONSE payload of a tunnel to its client. *)
Lemma tunnel_messages (c : nat) (groups : list (list Message)) :
  forall s : Ship.State,
    Ship.exited s = false -> Ship.inTunnel s = true ->
    Ship.tunnels s = [c] -> Ship.waits s = [] ->
    Forall (fun d => d <> []) (Ship.responsePayloads (List.concat groups)) ->
    Ship.log (fold_left (Ship.step mode writable) (map Ship.Messages groups) s)
    = Ship.log s
      ++ map (Ship.ClientWrite c) (Ship.responsePayloads (List.concat groups)).
Proof.
  induction groups as [|ms groups IH]; intros s Hx Hi Ht Hw Hne.
  - cbn [map fold_left List.concat]. rewrite app_nil_r. reflexivity.
  - cbn [List.concat] in *. rewrite responsePayloads_app in *.
    apply Forall_app in Hne. destruct Hne as [Hne1 Hne2].
    cbn [map fold_left].
    assert (Hs : Ship.step mode writable s (Ship.Messages ms)
                 = Ship.emit (map (Ship.ClientWrite c) (Ship.responsePayloads ms)) s).
    { unfold Ship.step. rewrite Hx. cbn [Ship.handle]. cbv zeta.
      rewrite Hi, Ht, Hw. rewrite (client_writes c _ Hne1).
      destruct (Ship.responsePayloads ms); [reflexivity|].
      cbn [fold_left]. destruct s. cbn in Hw. subst. reflexivity. }
    rewrite Hs, IH; try assumption.
    cbn [Ship.log Ship.emit]. rewrite map_app, <- app_assoc. reflexivity.
Qed.

(** From the target's socket to the client of a tunnel.  The chunks [ds]
    the upstream socket delivers, none of them empty, are enqueued by the
    dispatcher as RESPONSE frames, in order; when the send queue has taken
    them and drained, what it wrote, however the transport cuts it, is
    decoded on the ship to the same payloads; and however the decoder's
    pushes group these messages, the ship in tunnel mode writes exactly
    these payloads, unchanged and in order, to the client socket. *)
Theorem tunnel_bytes_reach_client
        (t : Offshore.State) (u : nat) (ds : list Buffer)
        (before during : list Sender.Event) (chunks : list Buffer)
        (s : Ship.State) (c : nat) (groups : list (list Message)) :
  (u < Offshore.upstreams t)%nat ->
  Forall (fun d => d <> []) ds ->
  Forall (fun d => blength d <= 4294967295) ds ->
  drained (Sender.run before) ->
  Sender.enqueued during = items RESPONSE ds ->
  drained (Sender.run (before ++ during)) ->
  List.concat chunks = List.concat (written_during before during) ->
  Ship.exited s = false -> Ship.inTunnel s = true ->
  Ship.tunnels s = [c] -> Ship.waits s = [] ->
  Offshore.log (fold_left (Offshore.step portNumber originThrows errorMessage)
                          (map (Offshore.UpstreamData u) ds) t)
  = Offshore.log t ++ map (Offshore.Enqueue RESPONSE) ds /\
  exists ms : list Message,
    pushAll newFrameDecoder chunks = inr (newFrameDecoder, ms) /\
    (List.concat groups = ms ->
     Ship.log (fold_left (Ship.step mode writable) (map Ship.Messages groups) s)
     = Ship.log s ++ map (Ship.ClientWrite c) ds).
Proof.
  intros Hu Hne Hds Hb He Ha Hch Hx Hi Ht Hw.
  split; [apply upstream_data_enqueued; exact Hu|].
  exists (map (mkMessage RESPONSE) ds). split.
  - apply (link_in_order RESPONSE ds before during); auto.
  - intros Hg. rewrite (tunnel_messages c groups s Hx Hi Ht Hw);
      rewrite Hg, responsePayloads_responses; [reflexivity|exact Hne].
Qed.

End TunnelUpstream.

Section TunnelRuns.
Import Protocol Stream.

Lemma tunnel_bytes_reach_upstream_witness :
  Ship.log (fold_left (Ship.step true (fun _ => true))
                      (map (Ship.ClientData 7) [[x41]; [x42; x43]]) ship_in_tunnel)
  = Ship.log ship_in_tunnel ++ map Ship.SendRequest [[x41]; [x42; x43]] /\
  exists ms : list Message,
    pushAll newFrameDecoder [[x00; x00; x00; x01]; [x00; x41; x00; x00; x00];
                             [x02; x00; x42; x43]]
    = inr (newFrameDecoder, ms) /\
    Offshore.log (fold_left (Offshore.step Offshore.connectPort (fun _ => false)
                                           (fun _ => []))
                            (deliver ms) offshore_in_tunnel)
    = Offshore.log offshore_in_tunnel
      ++ map (Offshore.UpstreamWrite 0) [[x41]; [x42; x43]].
Proof.
  assert (Hds : Forall (fun d => blength d <= 4294967295) [[x41]; [x42; x43]])
    by (repeat constructor; cbv; discriminate).
  assert (Hb : drained (Sender.run [Sender.Enqueue REQUEST (IsBuffer Ship.connectRequest);
                                    Sender.Settle true]))
    by (split; reflexivity).
  assert (Ha : drained (Sender.run ([Sender.Enqueue REQUEST (IsBuffer Ship.connectRequest);
                                     Sender.Settle true]
                                    ++ [Sender.Enqueue REQUEST (IsBuffer [x41]);
                                        Sender.Enqueue REQUEST (IsBuffer [x42; x43]);
                                        Sender.Settle true; Sender.Settle true])))
    by (split; reflexivity).
  exact (tunnel_bytes_reach_upstream true (fun _ => true) Offshore.connectPort
           (fun _ => false) (fun _ => [])
           ship_in_tunnel 7 [[x41]; [x42; x43]]
           [Sender.Enqueue REQUEST (IsBuffer Ship.connectRequest); Sender.Settle true]
           [Sender.Enqueue REQUEST (IsBuffer [x41]);
            Sender.Enqueue REQUEST (IsBuffer [x42; x43]);
            Sender.Settle true; Sender.Settle true]
           [[x00; x00; x00; x01]; [x00; x41; x00; x00; x00]; [x02; x00; x42; x43]]
           offshore_in_tunnel 0
           eq_refl eq_refl Hds Hb eq_refl Ha eq_refl eq_refl eq_refl).
Defined.

Lemma tunnel_bytes_reach_client_witness :
  Offshore.log (fold_left (Offshore.step Offshore.connectPort (fun _ => false)
                                         (fun _ => []))
                          (map (Offshore.UpstreamData 0) [[x41]; [x42; x43]])
                          offshore_in_tunnel)
  = Offshore.log offshore_in_tunnel
    ++ map (Offshore.Enqueue RESPONSE) [[x41]; [x42; x43]] /\
  exists ms : list Message,
    pushAll newFrameDecoder [[x00; x00; x00; x01; x01; x41; x00];
                             [x00; x00; x02; x01; x42; x43]]
    = inr (newFrameDecoder, ms) /\
    (List.concat [[mkMessage RESPONSE [x41]]; [mkMessage RESPONSE [x42; x43]]] = ms ->
     Ship.log (fold_left (Ship.step true (fun _ => true))
                         (map Ship.Messages
                              [[mkMessage RESPONSE [x41]];
                               [mkMessage RESPONSE [x42; x43]]])
                         ship_in_tunnel)
     = Ship.log ship_in_tunnel ++ map (Ship.ClientWrite 7) [[x41]; [x42; x43]]).
Proof.
  assert (Hu : (0 < Offshore.upstreams offshore_in_tunnel)%nat)
    by (vm_compute; lia).
  assert (Hne : Forall (fun d : Buffer => d <> []) [[x41]; [x42; x43]])
    by (repeat constructor; discriminate).
  assert (Hds : Forall (fun d => blength d <= 4294967295) [[x41]; [x42; x43]])
    by (repeat constructor; cbv; discriminate).
  assert (Hb : drained (Sender.run [Sender.Enqueue RESPONSE
                                      (IsBuffer Offshore.okPayload);
                                    Sender.Settle true]))
    by (split; reflexivity).
  assert (Ha : drained (Sender.run ([Sender.Enqueue RESPONSE
                                       (IsBuffer Offshore.okPayload);
                                     Sender.Settle true]
                                    ++ [Sender.Enqueue RESPONSE (IsBuffer [x41]);
                                        Sender.Settle true;
                                        Sender.Enqueue RESPONSE (IsBuffer [x42; x43]);
                                        Sender.Settle true])))
    by (split; reflexivity).
  exact (tunnel_bytes_reach_client true (fun _ => true) Offshore.connectPort
           (fun _ => false) (fun _ => [])
           offshore_in_tunnel 0 [[x41]; [x42; x43]]
           [Sender.Enqueue RESPONSE (IsBuffer Offshore.okPayload); Sender.Settle true]
           [Sender.Enqueue RESPONSE (IsBuffer [x41]); Sender.Settle true;
            Sender.Enqueue RESPONSE (IsBuffer [x42; x43]); Sender.Settle true]
           [[x00; x00; x00; x01; x01; x41; x00]; [x00; x00; x02; x01; x42; x43]]
           ship_in_tunnel 7
           [[mkMessage RESPONSE [x41]]; [mkMessage RESPONSE [x42; x43]]]
           Hu Hne Hds Hb eq_refl Ha eq_refl eq_refl eq_refl eq_refl eq_refl).
Defined.

End TunnelRuns.

Section HandshakeFacts.
Import Protocol Text Ship Stream.

Variable mode : bool.
Variable writable : Buffer -> bool.

(** The CONNECT handshake on the ship.  On a link with nothing pending and
    no tunnel, a CONNECT sends its request and waits for one reply, and no
    queued request is started meanwhile.  A reply whose status line is
    [HTTP/d.d 200] makes the ship answer the client with 200 Connection
    Established and forward the bytes already read from the client, if any.
    The tunnel is installed after that: at once when there are no such
    bytes, and otherwise not before their send has resolved; it is then the
    one tunnel, with its [close] and [error] listeners on the client socket,
    and what the client sends from then on goes to the link.  When the send
    of those bytes is rejected, no tunnel is installed, the client socket is
    ended and [inTunnel] is cleared.  Any reply but a 200 is written to the
    client as it is, the client socket is ended and [inTunnel] is cleared.
    What the offshore sends when the target is connected is such a 200, and
    what it sends when the target fails, the empty payload, is not. *)
Theorem connect_handshake (s : State) (c : nat) (raw head resp : Buffer) :
  exited s = false -> sends s = [] -> waits s = [] -> tunnels s = [] ->
  queue (fold_left (step mode writable) (handshake c raw head resp) s) = queue s /\
  outstanding (fold_left (step mode writable) (handshake c raw head resp) s) = [] /\
  (if connectEstablished resp
   then
     inTunnel (fold_left (step mode writable) (handshake c raw head resp) s) = true /\
     log (fold_left (step mode writable) (handshake c raw head resp) s)
     = log s ++ [SendRequest raw; ClientWrite c connectionEstablished]
       ++ (if blength head =? 0 then [] else [SendRequest head]) /\
     tunnels (fold_left (step mode writable) (handshake c raw head resp) s)
     = (if blength head =? 0 then [c] else []) /\
     tunnels (fold_left (step mode writable) (tunnel_setup c raw head resp) s) = [c] /\
     closeOnce (fold_left (step mode writable) (tunnel_setup c raw head resp) s)
     = closeOnce s ++ [c] /\
     errorOnce (fold_left (step mode writable) (tunnel_setup c raw head resp) s)
     = errorOnce s ++ [c] /\
     inTunnel (fold_left (step mode writable) (tunnel_setup c raw head resp) s) = true /\
     log (fold_left (step mode writable) (tunnel_setup c raw head resp) s)
     = log (fold_left (step mode writable) (handshake c raw head resp) s) /\
     (forall data : Buffer,
         log (step mode writable
                   (fold_left (step mode writable) (tunnel_setup c raw head resp) s)
                   (ClientData c data))
         = log (fold_left (step mode writable) (tunnel_setup c raw head resp) s)
           ++ [SendRequest data]) /\
     (if blength head =? 0 then True
      else
        tunnels (fold_left (step mode writable) (head_rejected c raw head resp) s) = [] /\
        inTunnel (fold_left (step mode writable) (head_rejected c raw head resp) s)
        = false /\
        log (fold_left (step mode writable) (head_rejected c raw head resp) s)
        = log (fold_left (step mode writable) (handshake c raw head resp) s)
          ++ [ClientEnd c])
   else
     inTunnel (fold_left (step mode writable) (handshake c raw head resp) s) = false /\
     log (fold_left (step mode writable) (handshake c raw head resp) s)
     = log s ++ [SendRequest raw; ClientWrite c resp; ClientEnd c] /\
     tunnels (fold_left (step mode writable) (handshake c raw head resp) s) = []) /\
  connectEstablished Offshore.okPayload = true /\
  connectEstablished [] = false.
Proof.
  intros Hx Hs Hw Ht. destruct s as [q p it sd wt tn co eo im x acc l].
  cbn [exited sends waits tunnels] in *. subst x sd wt tn.
  assert (H1 : step mode writable (mkState q p it [] [] [] co eo im false acc l)
                    (HttpConnect c raw head)
               = mkState q p true [ConnectRequest c head] [] [] co eo im false acc
                         (l ++ [SendRequest raw])) by reflexivity.
  assert (H2 : step mode writable
                    (mkState q p true [ConnectRequest c head] [] [] co eo im false acc
                             (l ++ [SendRequest raw]))
                    (SendSettled 0 true)
               = mkState q p true [] [ConnectRequest c head] [] co eo im false acc
                         (l ++ [SendRequest raw])) by reflexivity.
  assert (H3 : step mode writable
                    (mkState q p true [] [ConnectRequest c head] [] co eo im false acc
                             (l ++ [SendRequest raw]))
                    (Messages [mkMessage RESPONSE resp])
               = connectReply c head resp
                   (mkState q p true [] [] [] co eo im false acc
                            (l ++ [SendRequest raw]))).
  { unfold step. cbn [exited handle]. cbv zeta.
    change (responsePayloads [mkMessage RESPONSE resp]) with [resp].
    cbn [inTunnel tunnels flat_map map waits fold_left resume_resolved].
    destruct (negb (blength resp =? 0)); cbn [app]; unfold emit, set_waits;
      cbn [queue processing inTunnel sends waits tunnels closeOnce errorOnce
           immediates exited accepted log];
      rewrite app_nil_r; reflexivity. }
  assert (Hr : fold_left (step mode writable) (handshake c raw head resp)
                         (mkState q p it [] [] [] co eo im false acc l)
               = connectReply c head resp
                   (mkState q p true [] [] [] co eo im false acc
                            (l ++ [SendRequest raw]))).
  { unfold handshake. cbn [fold_left]. rewrite H1, H2, H3. reflexivity. }
  unfold tunnel_setup, head_rejected. rewrite !fold_left_app, Hr.
  clear H1 H2 H3 Hr. unfold connectReply.
  assert (Hc : mem c [c] = true)
    by (unfold mem; cbn [existsb]; rewrite Nat.eqb_refl; reflexivity).
  split; [|split; [|split; [|split; reflexivity]]].
  - destruct (negb (connectEstablished resp)); [reflexivity|].
    destruct (negb (blength head =? 0)); reflexivity.
  - destruct (negb (connectEstablished resp)); [reflexivity|].
    destruct (negb (blength head =? 0)); reflexivity.
  - destruct (connectEstablished resp); cbn [negb].
    + (* the send of the bytes read with the CONNECT resolves, or is
         rejected *)
      assert (Hok : forall sent : list Action,
                 step mode writable
                      (mkState q p true [ConnectHead c] [] [] co eo im false acc sent)
                      (SendSettled 0 true)
                 = mkState q p true [] [] [c] (co ++ [c]) (eo ++ [c]) im false acc
                           sent) by reflexivity.
      assert (Hko : forall sent : list Action,
                 step mode writable
                      (mkState q p true [ConnectHead c] [] [] co eo im false acc sent)
                      (SendSettled 0 false)
                 = mkState q p false [] [] [] co eo im false acc
                           (sent ++ [ClientEnd c])) by reflexivity.
      (* the client sends through the tunnel *)
      assert (Hd : forall (sent : list Action) (data : Buffer),
                 log (step mode writable
                           (mkState q p true [] [] [c] (co ++ [c]) (eo ++ [c]) im
                                    false acc sent)
                           (ClientData c data))
                 = sent ++ [SendRequest data]).
      { intros sent data. unfold step, handle. cbn [exited tunnels]. rewrite Hc.
        reflexivity. }
      destruct (blength head =? 0); cbn [negb fold_left];
        unfold installTunnel, await_send, emit, set_sends, set_tunnels,
          set_closeOnce, set_errorOnce;
        cbn [queue processing inTunnel sends waits tunnels closeOnce errorOnce
             immediates exited accepted log app];
        rewrite ?Hok, ?Hko;
        cbn [inTunnel log tunnels closeOnce errorOnce];
        rewrite <- ?app_assoc; cbn [app];
        repeat split; try reflexivity;
        intros data; rewrite Hd, <- ?app_assoc; reflexivity.
    + cbn [inTunnel log tunnels emit set_inTunnel queue processing sends
           waits closeOnce errorOnce immediates exited accepted app].
      rewrite <- ?app_assoc. repeat split.
Qed.

End HandshakeFacts.

Section SchedulerRuns.
Import Protocol Text Ship Stream.

(** A CONNECT read together with one byte of the client: the tunnel is
    not installed while that byte is being sent, and is once it is sent; a
    rejected send ends the client; an empty reply ends the client too. *)
Lemma connect_handshake_witness :
  tunnels (fold_left (step true (fun _ => true))
                     (handshake 7 connectRequest [x16] Offshore.okPayload) initial)
  = [] /\
  tunnels (fold_left (step true (fun _ => true))
                     (tunnel_setup 7 connectRequest [x16] Offshore.okPayload) initial)
  = [7%nat] /\
  log (step true (fun _ => true)
            (fold_left (step true (fun _ => true))
                       (tunnel_setup 7 connectRequest [x16] Offshore.okPayload)
                       initial)
            (ClientData 7 [x17]))
  = [SendRequest connectRequest; ClientWrite 7 connectionEstablished;
     SendRequest [x16]; SendRequest [x17]] /\
  log (fold_left (step true (fun _ => true))
                 (head_rejected 7 connectRequest [x16] Offshore.okPayload) initial)
  = [SendRequest connectRequest; ClientWrite 7 connectionEstablished;
     SendRequest [x16]; ClientEnd 7] /\
  log (fold_left (step true (fun _ => true))
                 (handshake 7 connectRequest [x16] []) initial)
  = [SendRequest connectRequest; ClientWrite 7 []; ClientEnd 7].
Proof.
  pose proof (connect_handshake true (fun _ => true) initial 7 connectRequest
                [x16] Offshore.okPayload eq_refl eq_refl eq_refl eq_refl)
    as (_ & _ & H1 & _).
  pose proof (connect_handshake true (fun _ => true) initial 7 connectRequest
                [x16] [] eq_refl eq_refl eq_refl eq_refl)
    as (_ & _ & H2 & _).
  change (connectEstablished Offshore.okPayload) with true in H1.
  change (connectEstablished []) with false in H2.
  cbv iota in H1, H2.
  change (blength [x16] =? 0) with false in H1. cbv iota in H1.
  destruct H1 as (_ & Hl & Ht & Ht' & _ & _ & _ & _ & Hd & Hrej).
  destruct Hrej as (_ & _ & Hrej).
  split; [exact Ht|]. split; [exact Ht'|].
  split; [rewrite (Hd [x17]); reflexivity|].
  split; [rewrite Hrej, Hl; reflexivity|exact (proj1 (proj2 H2))].
Defined.

Lemma tunnel_blocks_scheduler_witness :
  inTunnel (run true (fun _ => true) [HttpConnect 7 connectRequest []]) = true /\
  (queue (step true (fun _ => true)
               (run true (fun _ => true) [HttpConnect 7 connectRequest []])
               (HttpRequest (mkRequest 1 [x41])))
   = queue (run true (fun _ => true) [HttpConnect 7 connectRequest []]) \/
   exists item,
     HttpRequest (mkRequest 1 [x41]) = HttpRequest item /\
     queue (step true (fun _ => true)
                 (run true (fun _ => true) [HttpConnect 7 connectRequest []])
                 (HttpRequest (mkRequest 1 [x41])))
     = queue (run true (fun _ => true) [HttpConnect 7 connectRequest []]) ++ [item]) /\
  forall item,
    In (Transaction item)
       (sends (step true (fun _ => true)
                    (run true (fun _ => true) [HttpConnect 7 connectRequest []])
                    (HttpRequest (mkRequest 1 [x41])))) ->
    In (Transaction item)
       (sends (run true (fun _ => true) [HttpConnect 7 connectRequest []])).
Proof.
  assert (H : inTunnel (run true (fun _ => true) [HttpConnect 7 connectRequest []])
              = true) by reflexivity.
  split; [exact H|].
  exact (tunnel_blocks_scheduler true (fun _ => true)
           (run true (fun _ => true) [HttpConnect 7 connectRequest []])
           (HttpRequest (mkRequest 1 [x41])) H).
Defined.

Lemma fifo_exchanges_witness :
  Forall not_connect two_requests /\
  exists (done : list (RequestItem * Completion)) (inflight : list RequestItem),
    (List.length inflight <= 1)%nat /\
    outstanding (run false (fun _ => true) two_requests) = inflight /\
    accepted (run false (fun _ => true) two_requests)
    = map fst done ++ inflight ++ queue (run false (fun _ => true) two_requests) /\
    log (run false (fun _ => true) two_requests)
    = flat_map exchange done ++ map request inflight /\
    Forall (answered_from two_requests) done.
Proof.
  assert (H : Forall not_connect two_requests) by (repeat constructor).
  split; [exact H|]. exact (fifo_exchanges false (fun _ => true) two_requests H).
Defined.

End SchedulerRuns.

Section LinkCloseFacts.
Import Protocol Text Ship.

Variable mode : bool.
Variable writable : Buffer -> bool.

Lemma close_fold (l : list nat) :
  forall s : State,
    let s' := fold_left (fun st c =>
                emit [ClientEnd c] (set_inTunnel false (cleanup c st))) l s in
    sends s' = sends s /\ waits s' = waits s /\ queue s' = queue s /\
    processing s' = processing s /\ immediates s' = immediates s /\
    exited s' = exited s /\ log s' = log s ++ map ClientEnd l.
Proof.
  induction l as [|c l IH]; intros s.
  - cbn [fold_left map]. rewrite app_nil_r. repeat split.
  - cbn [fold_left map].
    destruct (IH (emit [ClientEnd c] (set_inTunnel false (cleanup c s))))
      as (H1 & H2 & H3 & H4 & H5 & H6 & H7).
    cbv zeta. rewrite H1, H2, H3, H4, H5, H6, H7.
    cbn [sends waits queue processing immediates exited log emit set_inTunnel
         cleanup set_tunnels].
    rewrite <- app_assoc. repeat split.
Qed.

(** A close of the link fails no transaction.  The callback the ship runs
    when the connection object emits ["close"] ends the client socket of
    every tunnel and does nothing else: it resumes no continuation, so a
    transaction that waits for its response goes on waiting; [processing]
    stays as it is, nothing is scheduled, the queue is untouched and no
    client of a transaction is answered. *)
Theorem link_close_fails_no_transaction (s : State) :
  exited s = false ->
  outstanding (step mode writable s OffshoreClose) = outstanding s /\
  sends (step mode writable s OffshoreClose) = sends s /\
  waits (step mode writable s OffshoreClose) = waits s /\
  processing (step mode writable s OffshoreClose) = processing s /\
  immediates (step mode writable s OffshoreClose) = immediates s /\
  queue (step mode writable s OffshoreClose) = queue s /\
  log (step mode writable s OffshoreClose) = log s ++ map ClientEnd (tunnels s).
Proof.
  intros Hx. unfold step. rewrite Hx. cbn [handle].
  destruct (close_fold (tunnels s) s) as (H1 & H2 & H3 & H4 & H5 & _ & H7).
  cbv zeta in *. unfold outstanding. rewrite H1, H2.
  repeat split; assumption.
Qed.

End LinkCloseFacts.

Section LinkCloseRuns.
Import Protocol Text Ship.

Lemma link_close_fails_no_transaction_witness :
  exited (run true (fun _ => true)
              [HttpRequest (mkRequest 1 [x41]); SendSettled 0 true]) = false /\
  outstanding (step true (fun _ => true)
                    (run true (fun _ => true)
                         [HttpRequest (mkRequest 1 [x41]); SendSettled 0 true])
                    OffshoreClose)
  = [mkRequest 1 [x41]] /\
  log (step true (fun _ => true)
            (run true (fun _ => true)
                 [HttpRequest (mkRequest 1 [x41]); SendSettled 0 true])
            OffshoreClose)
  = [SendRequest [x41]].
Proof.
  assert (H : exited (run true (fun _ => true)
                          [HttpRequest (mkRequest 1 [x41]); SendSettled 0 true])
              = false) by reflexivity.
  pose proof (link_close_fails_no_transaction true (fun _ => true) _ H)
    as (H1 & _ & _ & _ & _ & _ & H7).
  split; [exact H|]. split; [rewrite H1; reflexivity|rewrite H7; reflexivity].
Defined.

End LinkCloseRuns.

Section ConnectTarget.
Import Protocol Text Offshore Lines.

Variable portNumber : Buffer -> option Z.
Variable originThrows : ParsedRequest -> bool.
Variable errorMessage : HandlerError -> Buffer.

(** The target of a CONNECT.  In message mode, for a CONNECT whose target
    is a host followed by a colon and a port text that [net.connect] takes,
    neither holding a colon, the dispatcher connects to that host and port;
    for a target without a colon, or with nothing behind the colon, it
    connects to port 443. *)
Theorem connect_target (s : State) (payload host portStr : Buffer) (port : Z) :
  (inTunnel s = false \/ tunnelUpstream s = None) ->
  method (parseHttpRequest payload) = ascii_bytes "CONNECT" ->
  free_of x3a host -> free_of x3a portStr ->
  (path (parseHttpRequest payload) = Some host \/
   path (parseHttpRequest payload) = Some (host ++ ascii_bytes ":") ->
   onMessage portNumber originThrows errorMessage REQUEST payload s
   = mkState (inTunnel s) (tunnelUpstream s) (S (upstreams s)) (fetches s)
             (log s ++ [NetConnect (upstreams s) host 443])) /\
  (path (parseHttpRequest payload) = Some (host ++ ascii_bytes ":" ++ portStr) ->
   portStr <> [] -> portNumber portStr = Some port ->
   onMessage portNumber originThrows errorMessage REQUEST payload s
   = mkState (inTunnel s) (tunnelUpstream s) (S (upstreams s)) (fetches s)
             (log s ++ [NetConnect (upstreams s) host port])).
Proof.
  intros Hmode Hm Hh Hp.
  assert (H1 : split (ascii_bytes ":") host = [host])
    by (apply (split_join x3a [] [host]); [discriminate|repeat constructor; exact Hh]).
  assert (H2 : forall rest : Buffer,
             free_of x3a rest ->
             split (ascii_bytes ":") (host ++ ascii_bytes ":" ++ rest) = [host; rest]).
  { intros rest Hr.
    apply (split_join x3a [] [host; rest]); [discriminate|].
    apply Forall_cons; [exact Hh|]. apply Forall_cons; [exact Hr|constructor]. }
  split.
  - intros [Hpath|Hpath].
    + rewrite (onMessage_connect portNumber originThrows errorMessage
                 s payload host 443 Hmode Hm Hpath);
        rewrite H1; reflexivity.
    + pose proof (H2 [] ltac:(constructor)) as H3. rewrite app_nil_r in H3.
      rewrite (onMessage_connect portNumber originThrows errorMessage
                 s payload (host ++ ascii_bytes ":") 443 Hmode Hm Hpath);
        rewrite H3; reflexivity.
  - intros Hpath Hne Hport.
    rewrite (onMessage_connect portNumber originThrows errorMessage
               s payload (host ++ ascii_bytes ":" ++ portStr) port Hmode Hm Hpath);
      rewrite (H2 portStr Hp); [reflexivity|].
    cbn [nth_error]. destruct portStr; [contradiction|exact Hport].
Qed.

End ConnectTarget.

Section ConnectTargetRuns.
Import Protocol Text Offshore Lines.

Lemma connect_target_witness :
  log (onMessage connectPort (fun _ => false) (fun _ => []) REQUEST
                 (ascii_bytes "CONNECT example.invalid:8443 HTTP/1.1" ++ CRLF ++ CRLF)
                 initial)
  = [NetConnect 0 (ascii_bytes "example.invalid") 8443].
Proof.
  assert (Hlit : forall text : Buffer,
             forallb (fun b => negb (Z_of_byte b =? 58)) text = true ->
             free_of x3a text).
  { intros text Ht. rewrite forallb_forall in Ht. apply Forall_forall.
    intros b Hb. specialize (Ht b Hb). apply negb_true_iff, Z.eqb_neq in Ht.
    exact Ht. }
  assert (Hm : inTunnel initial = false \/ tunnelUpstream initial = None)
    by (left; reflexivity).
  assert (Hne : ascii_bytes "8443" <> []) by discriminate.
  pose proof (proj2 (connect_target connectPort (fun _ => false) (fun _ => [])
                       initial
                       (ascii_bytes "CONNECT example.invalid:8443 HTTP/1.1"
                        ++ CRLF ++ CRLF)
                       (ascii_bytes "example.invalid") (ascii_bytes "8443") 8443
                       Hm eq_refl
                       (Hlit (ascii_bytes "example.invalid") eq_refl)
                       (Hlit (ascii_bytes "8443") eq_refl))
                    eq_refl Hne eq_refl) as H.
  rewrite H. reflexivity.
Defined.

End ConnectTargetRuns.
